(** * tapomap: the topographic export route, embedded and checked

    Source: [src/app/api/export/route.ts] (the first listing of the file,
    lines 1-239): a map viewport is turned into a stack of SVG contour
    layers, packed in a zip together with a README manifest.

    Conventions of the embedding.
    - A JavaScript number is a [num]: [NaN], the two infinities, or a finite
      value carried as an exact canonical rational ([Qc]); the sign of zero
      is not represented.  The binary64 numbers are among the rationals, and
      [binary64] rounds a number to the nearest of them (ties to even,
      overflow to an infinity), so that an operation of the code is the
      exact operation followed by [binary64].
    - Where rounding decides an integer outcome the operations are rounded:
      in the threshold plan (how many thresholds, whether the loop ends) and
      in the tile column of a longitude ([tileColumn]).  Elsewhere finite
      arithmetic is kept exact, and a result stands for the code's value up
      to the rounding of its operations.  The values the route stores in its
      [Float32Array]s are decoded Terrarium samples, multiples of 1/256
      below 2^15 in magnitude, which binary32 holds without rounding.
    - [Math.log], [Math.tan], [Math.cos], [Math.PI], the tile download, and
      the d3 contour and path generators are not code of the route; they are
      the fields of the class [Platform].
    - Loops are JavaScript [for] loops over numbers; they are run with a
      budget of iterations per loop ([fuel]) and an outcome [Hang] when it
      runs out. *)

From Stdlib Require Import ZArith QArith Qcanon Qround Qpower Qabs Lia Lra Lqa.
From Stdlib Require Strings.Byte.
From stdpp Require Import base tactics numbers option list gmap strings pretty.

Local Open Scope Z_scope.

(** ** JavaScript numbers *)

Inductive num : Type :=
| NaN
| PInf
| NInf
| Fin (q : Qc).

#[global] Instance num_eq_dec : EqDecision num.
Proof. solve_decision. Defined.

#[global] Instance num_inhabited : Inhabited num := populate NaN.

(** Literals: an integer, and a ratio of integers. *)
Definition ofZ (z : Z) : num := Fin (Qc_of_Z z).
Definition ratio (n : Z) (d : positive) : num := Fin (Q2Qc (n # d)).

Definition isFinite (a : num) : bool :=
  match a with Fin _ => true | _ => false end.

Definition infOfSign (c : comparison) : num :=
  match c with Gt => PInf | Lt => NInf | Eq => NaN end.

Definition nneg (a : num) : num :=
  match a with
  | NaN => NaN
  | PInf => NInf
  | NInf => PInf
  | Fin x => Fin (- x)%Qc
  end.

Definition nadd (a b : num) : num :=
  match a, b with
  | NaN, _ | _, NaN => NaN
  | PInf, NInf | NInf, PInf => NaN
  | PInf, _ | _, PInf => PInf
  | NInf, _ | _, NInf => NInf
  | Fin x, Fin y => Fin (x + y)%Qc
  end.

Definition nsub (a b : num) : num := nadd a (nneg b).

Definition nmul (a b : num) : num :=
  match a, b with
  | NaN, _ | _, NaN => NaN
  | Fin x, Fin y => Fin (x * y)%Qc
  | Fin x, PInf | PInf, Fin x => infOfSign (x ?= 0)%Qc
  | Fin x, NInf | NInf, Fin x => infOfSign (0 ?= x)%Qc
  | PInf, PInf | NInf, NInf => PInf
  | PInf, NInf | NInf, PInf => NInf
  end.

(** Division.  A zero divisor is taken as +0. *)
Definition ndiv (a b : num) : num :=
  match a, b with
  | NaN, _ | _, NaN => NaN
  | Fin x, Fin y =>
      if decide (y = 0%Qc) then infOfSign (x ?= 0)%Qc else Fin (x / y)%Qc
  | Fin _, _ => Fin 0%Qc
  | PInf, Fin y => if decide (y < 0)%Qc then NInf else PInf
  | NInf, Fin y => if decide (y < 0)%Qc then PInf else NInf
  | _, _ => NaN
  end.

(** Comparisons: every comparison with [NaN] is false. *)
Definition nltb (a b : num) : bool :=
  match a, b with
  | NaN, _ | _, NaN => false
  | _, NInf | PInf, _ => false
  | NInf, _ | _, PInf => true
  | Fin x, Fin y => bool_decide (x < y)%Qc
  end.

Definition nleb (a b : num) : bool :=
  match a, b with
  | NaN, _ | _, NaN => false
  | NInf, _ | _, PInf => true
  | _, NInf | PInf, _ => false
  | Fin x, Fin y => bool_decide (x ≤ y)%Qc
  end.

Definition ngtb (a b : num) : bool := nltb b a.

(** [Math.max], [Math.min]: [NaN] as soon as one argument is. *)
Definition Math_max (a b : num) : num :=
  match a, b with
  | NaN, _ | _, NaN => NaN
  | _, _ => if nltb a b then b else a
  end.

Definition Math_min (a b : num) : num :=
  match a, b with
  | NaN, _ | _, NaN => NaN
  | _, _ => if nltb b a then b else a
  end.

Definition Math_floor (a : num) : num :=
  match a with Fin x => ofZ (Qfloor x) | _ => a end.

Definition Math_ceil (a : num) : num :=
  match a with Fin x => ofZ (Qceiling x) | _ => a end.

(** [Math.round] rounds to the nearest integer, halves upwards. *)
Definition Math_round (a : num) : num :=
  match a with Fin x => ofZ (Qfloor (x + Q2Qc (1 # 2))%Qc) | _ => a end.

(** [ToNumber] of a value that may be [undefined]. *)
Definition toNumber (v : option num) : num := default NaN v.

(** The integer a number denotes, when it denotes one. *)
Definition asInteger (a : num) : option Z :=
  match a with
  | Fin x => if decide (Qc_of_Z (Qfloor x) = x) then Some (Qfloor x) else None
  | _ => None
  end.

(** ** Double precision *)

(** The nearest integer, a tie going to the even one. *)
Definition roundEven (y : Q) : Z :=
  let f := Qfloor y in
  match Qcompare (y - inject_Z f)%Q (1 # 2)%Q with
  | Lt => f
  | Eq => if Z.even f then f else f + 1
  | Gt => f + 1
  end.

(** [floor (log2 x)] for a positive rational. *)
Definition Qlog2 (x : Q) : Z :=
  let e := Z.log2 (Qnum x) - Z.log2 (Z.pos (Qden x)) in
  if Qle_bool (2 ^ e)%Q x then e else e - 1.

(** A non-negative rational rounded to 53 significant bits, the exponent
    not below that of the smallest normal number: the nearest multiple of
    the unit in the last place. *)
Definition roundAbs (a : Q) : Q :=
  let e := Z.max (Qlog2 a) (-1022) in
  let ulp := (2 ^ (e - 52))%Q in
  (inject_Z (roundEven (a / ulp)%Q) * ulp)%Q.

(** The binary64 number nearest to a number, ties to even; from
    [2^1024 - 2^970] on, an infinity. *)
Definition binary64 (v : num) : num :=
  match v with
  | Fin x =>
      let r := roundAbs (Qabs x) in
      if Qle_bool (2 ^ 1024)%Q r
      then (if Qle_bool 0%Q x then PInf else NInf)
      else Fin (Q2Qc (if Qle_bool 0%Q x then r else (- r)%Q))
  | _ => v
  end.

Declare Scope num_scope.
Delimit Scope num_scope with num.
Bind Scope num_scope with num.
Infix "+" := nadd : num_scope.
Infix "-" := nsub : num_scope.
Infix "*" := nmul : num_scope.
Infix "/" := ndiv : num_scope.
Infix "<?" := nltb : num_scope.
Infix "<=?" := nleb : num_scope.
Infix ">?" := ngtb : num_scope.

(** ** Typed arrays and buffers *)

(** A [Float32Array]: a fixed length and its cells, zero until written. *)
Record Float32Array : Type := {
  ta_length : Z;
  ta_cells : gmap Z num
}.

(** [new Float32Array(n)]: the length is [ToIndex(n)] ([NaN] gives 0, a
    fraction is truncated); a negative, infinite or too large length is a
    [RangeError] ([None]). *)
Definition newFloat32Array (n : num) : option Float32Array :=
  match n with
  | NaN => Some {| ta_length := 0; ta_cells := ∅ |}
  | Fin x =>
      let k := if decide (0 ≤ x)%Qc then Qfloor x else Qceiling x in
      if decide (0 ≤ k ≤ 2 ^ 53 - 1)
      then Some {| ta_length := k; ta_cells := ∅ |}
      else None
  | _ => None
  end.

(** A numeric key addresses a cell when it is an integer inside the array. *)
Definition ta_index (a : Float32Array) (i : num) : option Z :=
  match asInteger i with
  | Some k => if decide (0 ≤ k < ta_length a) then Some k else None
  | None => None
  end.

(** [a[i]]: the cell, or [undefined] ([None]) for any other key. *)
Definition ta_get (a : Float32Array) (i : num) : option num :=
  match ta_index a i with
  | Some k => Some (default (ofZ 0) (ta_cells a !! k))
  | None => None
  end.

(** [a[i] = v]: writes the cell; any other key is ignored. *)
Definition ta_set (a : Float32Array) (i : num) (v : num) : Float32Array :=
  match ta_index a i with
  | Some k => {| ta_length := ta_length a; ta_cells := <[k := v]> (ta_cells a) |}
  | None => a
  end.

(** A decoded PNG: [data] is its RGBA byte buffer, read by index. *)
Record PNG : Type := { data : Z → option Byte.byte }.

(** [png.data[i]] as a number: [undefined] outside the buffer becomes [NaN]
    in the arithmetic that follows. *)
Definition channel (png : PNG) (i : num) : num :=
  match asInteger i with
  | Some k =>
      match data png k with
      | Some b => ofZ (Z.of_N (Byte.to_N b))
      | None => NaN
      end
  | None => NaN
  end.

(** ** Loops *)

Inductive Exn : Type :=
| RangeError
| TileFetchFailed (tx ty : num)
| ContourFailed.

Inductive res (St : Type) : Type :=
| Done (s : St)
| Throw (e : Exn) (s : St)
| Hang (s : St).
Arguments Done {St} s.
Arguments Throw {St} e s.
Arguments Hang {St} s.

(** [for (let v = v0; cond(v); v = step(v)) body(v)] over a state [St]. *)
Fixpoint forLoop {St : Type} (fuel : nat) (cond : num → bool) (step : num → num)
    (body : num → St → res St) (v : num) (s : St) : res St :=
  if cond v then
    match fuel with
    | O => Hang s
    | S fuel' =>
        match body v s with
        | Done s' => forLoop fuel' cond step body (step v) s'
        | r => r
        end
    end
  else Done s.

Definition incr (v : num) : num := (v + ofZ 1)%num.

(** The state a loop leaves behind, however it ended. *)
Definition res_state {St : Type} (r : res St) : St :=
  match r with
  | Done s | Throw _ s | Hang s => s
  end.

(** ** Data of the route *)

Record Bounds : Type := { west : num; south : num; east : num; north : num }.

Record Point : Type := { pt_x : num; pt_y : num }.

(** The request body after [Number(body.f ?? default)] and
    [Boolean(body.f ?? true)]; [bounds] is [None] when [body.bounds] is
    falsy. *)
Record Body : Type := {
  bounds : option Bounds;
  widthIn : num;
  heightIn : num;
  intervalM : num;
  grid : num;
  addAlignmentHoles : bool;
  holeDiameterIn : num;
  holeInsetIn : num
}.

(** A d3 contour geometry: a MultiPolygon carrying its threshold. *)
Record Feature : Type := {
  value : num;
  coordinates : list (list (list (num * num)))
}.

Record Circle : Type := { cx : num; cy : num; r : num }.

(** One layer document: header size, alignment circles, and the path inside
    the scaled group with its stroke width. *)
Record Svg : Type := {
  svg_width : num;
  svg_height : num;
  svg_holes : list Circle;
  svg_scaleX : num;
  svg_scaleY : num;
  svg_path : string;
  svg_stroke : num
}.

(** The lines of README.txt that carry data. *)
Record Readme : Type := {
  readme_min : num;
  readme_max : num;
  readme_interval : num;
  readme_grid : num;
  readme_written : nat
}.

Inductive FileContent : Type :=
| SvgFile (s : Svg)
| ReadmeFile (m : Readme).

(** A JSZip archive: named entries in insertion order. *)
Definition Zip : Type := list (string * FileContent).

(** [zip.file(name, content)]: a new name is appended, an existing name has
    its content replaced. *)
Fixpoint zip_file (name : string) (c : FileContent) (z : Zip) : Zip :=
  match z with
  | [] => [(name, c)]
  | (n, c0) :: z' =>
      if decide (n = name) then (name, c) :: z' else (n, c0) :: zip_file name c z'
  end.

Inductive Response : Type :=
| BadRequest
| SelectionTooLarge (tileCount : num)
| ElevationInvalid
| NoLayersProduced
| ZipDownload (z : Zip)
| ExportError (e : Exn).

Definition status (r : Response) : Z :=
  match r with
  | BadRequest => 400
  | SelectionTooLarge _ => 413
  | ElevationInvalid => 502
  | NoLayersProduced => 400
  | ZipDownload _ => 200
  | ExportError _ => 500
  end.

(** One run of the handler: the tiles it asked for, in order, and its
    response ([None]: the handler is still looping when the budget ends). *)
Record Run : Type := {
  fetched : list (num * num);
  response : option Response
}.

(** What the route takes from its platform and libraries. *)
Class Platform : Type := {
  Math_PI : num;
  Math_log : num → num;
  Math_tan : num → num;
  Math_cos : num → num;
  (** [fetchPng] for tile [z/tx/ty]; [None] when it throws. *)
  fetchPng : Z → num → num → option PNG;
  (** [d3Contours().size([g, g]).thresholds(ts)(values)]; [None] when it
      throws. *)
  d3Contours : num → list num → Float32Array → option (list Feature);
  (** [geoPath(geoIdentity())(f)]: [None] is [null]. *)
  pathGen : Feature → option string
}.

(** ** The route *)

Section Route.
Context `{Platform}.

Local Open Scope string_scope.
Local Open Scope num_scope.

Definition clamp (n a b : num) : num := Math_max a (Math_min b n).

(** [2 ** z] for an integer zoom. *)
Definition pow2 (z : Z) : num := Fin (Q2Qc (Qpower 2 z)).

Definition lonLatToTile (lon lat : num) (z : Z) : Point :=
  let n := pow2 z in
  let x := (lon + ofZ 180) / ofZ 360 * n in
  let latRad := lat * Math_PI / ofZ 180 in
  let y :=
    (ofZ 1 - Math_log (Math_tan latRad + ofZ 1 / Math_cos latRad) / Math_PI)
    / ofZ 2 * n in
  {| pt_x := x; pt_y := y |}.

(** Terrarium: (R*256 + G + B/256) - 32768 *)
Definition decodeTerrarium (r g b : num) : num :=
  r * ofZ 256 + g + b / ofZ 256 - ofZ 32768.

Definition nearestSample (src : Float32Array) (srcW srcH x y : num) : option num :=
  let ix := clamp (Math_round x) (ofZ 0) (srcW - ofZ 1) in
  let iy := clamp (Math_round y) (ofZ 0) (srcH - ofZ 1) in
  ta_get src (iy * srcW + ix).

Definition circlesForAlignment (widthIn heightIn holeDiameterIn holeInsetIn : num)
    : list Circle :=
  let r := holeDiameterIn / ofZ 2 in
  let pts :=
    [ (holeInsetIn, holeInsetIn);
      (widthIn - holeInsetIn, holeInsetIn);
      (holeInsetIn, heightIn - holeInsetIn);
      (widthIn - holeInsetIn, heightIn - holeInsetIn) ] in
  map (λ p, {| cx := p.1; cy := p.2; r := r |}) pts.

(** *** Tile range and the tile-count guard (lines 88-102) *)

Record TileRange : Type := { xMin : num; xMax : num; yMin : num; yMax : num }.

Definition tileRange (tl br : Point) : TileRange :=
  {| xMin := Math_floor (Math_min (pt_x tl) (pt_x br));
     xMax := Math_floor (Math_max (pt_x tl) (pt_x br));
     yMin := Math_floor (Math_min (pt_y tl) (pt_y br));
     yMax := Math_floor (Math_max (pt_y tl) (pt_y br)) |}.

Definition tileCountOf (g : TileRange) : num :=
  (xMax g - xMin g + ofZ 1) * (yMax g - yMin g + ofZ 1).

(** *** Stitching (lines 104-127) *)

Definition tileSize : num := ofZ 256.

Record Stitching : Type := {
  stitched : Float32Array;
  requests : list (num * num)
}.

Definition copyPixel (png : PNG) (g : TileRange) (stitchedW tx ty py px : num)
    (st : Stitching) : Stitching :=
  let si := (py * tileSize + px) * ofZ 4 in
  let elev :=
    decodeTerrarium (channel png si) (channel png (si + ofZ 1))
                    (channel png (si + ofZ 2)) in
  let gx := (tx - xMin g) * tileSize + px in
  let gy := (ty - yMin g) * tileSize + py in
  {| stitched := ta_set (stitched st) (gy * stitchedW + gx) elev;
     requests := requests st |}.

Definition copyTile (fuel : nat) (png : PNG) (g : TileRange)
    (stitchedW tx ty : num) : Stitching → res Stitching :=
  forLoop fuel (λ py, py <? tileSize) incr
    (λ py, forLoop fuel (λ px, px <? tileSize) incr
             (λ px st, Done (copyPixel png g stitchedW tx ty py px st))
             (ofZ 0))
    (ofZ 0).

Definition stitchTile (fuel : nat) (z : Z) (g : TileRange)
    (stitchedW ty tx : num) (st : Stitching) : res Stitching :=
  let asked := {| stitched := stitched st; requests := (requests st ++ [(tx, ty)])%list |} in
  match fetchPng z tx ty with
  | None => Throw (TileFetchFailed tx ty) asked
  | Some png => copyTile fuel png g stitchedW tx ty asked
  end.

Definition stitchTiles (fuel : nat) (z : Z) (g : TileRange) (stitchedW : num)
    : Stitching → res Stitching :=
  forLoop fuel (λ ty, ty <=? yMax g) incr
    (λ ty, forLoop fuel (λ tx, tx <=? xMax g) incr
             (stitchTile fuel z g stitchedW ty)
             (xMin g))
    (yMin g).

(** *** Sampling (lines 129-153) *)

Record Sampling : Type := {
  values : Float32Array;
  minE : num;
  maxE : num
}.

Record PixelRect : Type := {
  pxWest : num; pxEast : num; pxNorth : num; pxSouth : num
}.

Definition pixelRect (tl br : Point) (g : TileRange) : PixelRect :=
  {| pxWest := (Math_min (pt_x tl) (pt_x br) - xMin g) * tileSize;
     pxEast := (Math_max (pt_x tl) (pt_x br) - xMin g) * tileSize;
     pxNorth := (Math_min (pt_y tl) (pt_y br) - yMin g) * tileSize;
     pxSouth := (Math_max (pt_y tl) (pt_y br) - yMin g) * tileSize |}.

Definition sampleX (rect : PixelRect) (grid i : num) : num :=
  let tX := i / (grid - ofZ 1) in
  pxWest rect + (pxEast rect - pxWest rect) * tX.

Definition sampleY (rect : PixelRect) (grid j : num) : num :=
  let tY := j / (grid - ofZ 1) in
  pxNorth rect + (pxSouth rect - pxNorth rect) * tY.

Definition sampleCell (src : Float32Array) (srcW srcH : num) (rect : PixelRect)
    (grid sy j i : num) (s : Sampling) : Sampling :=
  let sx := sampleX rect grid i in
  let v := toNumber (nearestSample src srcW srcH sx sy) in
  {| values := ta_set (values s) (j * grid + i) v;
     minE := if v <? minE s then v else minE s;
     maxE := if v >? maxE s then v else maxE s |}.

Definition sampleGrid (fuel : nat) (src : Float32Array) (srcW srcH : num)
    (rect : PixelRect) (grid : num) : Sampling → res Sampling :=
  forLoop fuel (λ j, j <? grid) incr
    (λ j,
       let sy := sampleY rect grid j in
       forLoop fuel (λ i, i <? grid) incr
         (λ i s, Done (sampleCell src srcW srcH rect grid sy j i s))
         (ofZ 0))
    (ofZ 0).

Definition degenerate (minE maxE : num) : bool :=
  negb (isFinite minE) || negb (isFinite maxE) || (maxE <=? minE).

(** *** Thresholds (lines 159-168) *)

(** Every operation of lines 160-164 rounds to binary64; [Math.floor] and
    [Math.ceil] of a binary64 number are exact. *)
Definition thresholdStart (minE intervalM : num) : num :=
  binary64 (Math_floor (binary64 (minE / intervalM)) * intervalM).

Definition thresholdEnd (maxE intervalM : num) : num :=
  binary64 (Math_ceil (binary64 (maxE / intervalM)) * intervalM).

Definition planThresholds (fuel : nat) (minE maxE intervalM : num) : res (list num) :=
  let start := thresholdStart minE intervalM in
  let end_ := thresholdEnd maxE intervalM in
  forLoop fuel (λ t, t <=? end_) (λ t, binary64 (t + intervalM))
    (λ t (thresholds : list num), Done (thresholds ++ [t])%list)
    (binary64 (start + intervalM)) [].

(** *** Layers and manifest (lines 176-222) *)

Fixpoint zeros (n : nat) : string :=
  match n with
  | O => ""
  | S k => "0" +:+ zeros k
  end.

(** [s.padStart(len, "0")] *)
Definition padStart (s : string) (len : nat) : string :=
  zeros (len - String.length s) +:+ s.

(** The text of [Math.round(level)] in a template string.  A finite rounded
    value is an integer, printed in decimal. *)
Definition roundedText (level : num) : string :=
  match Math_round level with
  | NaN => "NaN"
  | PInf => "Infinity"
  | NInf => "-Infinity"
  | Fin x => pretty (Qfloor x)
  end.

Definition layerName (idx : nat) (level : num) : string :=
  let layerNumber := padStart (pretty (idx + 1)%nat) 3 in
  "layer_" +:+ layerNumber +:+ "_" +:+ roundedText level +:+ "m.svg".

(** [!d]: [null] and the empty string are falsy. *)
Definition falsy (d : option string) : bool :=
  match d with
  | None | Some "" => true
  | Some _ => false
  end.

Record Archive : Type := { zip : Zip; written : nat }.

Definition layerSvg (body : Body) (holes : list Circle) (scaleX scaleY : num)
    (d : string) : Svg :=
  let stroke := ratio 1 1000 / Math_max scaleX scaleY in
  {| svg_width := widthIn body;
     svg_height := heightIn body;
     svg_holes := holes;
     svg_scaleX := scaleX;
     svg_scaleY := scaleY;
     svg_path := d;
     svg_stroke := stroke |}.

(** The loop over [contourFeatures], from index [idx] on. *)
Fixpoint writeLayers (body : Body) (holes : list Circle) (scaleX scaleY : num)
    (idx : nat) (contourFeatures : list Feature) (a : Archive) : Archive :=
  match contourFeatures with
  | [] => a
  | f :: rest =>
      let level := value f in
      let d := pathGen f in
      if falsy d then writeLayers body holes scaleX scaleY (S idx) rest a
      else
        let name := layerName idx level in
        let svg := layerSvg body holes scaleX scaleY (default "" d) in
        writeLayers body holes scaleX scaleY (S idx) rest
          {| zip := zip_file name (SvgFile svg) (zip a);
             written := S (written a) |}
  end.

Definition readme (body : Body) (s : Sampling) (written : nat) : Readme :=
  {| readme_min := minE s;
     readme_max := maxE s;
     readme_interval := intervalM body;
     readme_grid := grid body;
     readme_written := written |}.

Definition respond (reqs : list (num * num)) (r : Response) : Run :=
  {| fetched := reqs; response := Some r |}.

Definition unfinished (reqs : list (num * num)) : Run :=
  {| fetched := reqs; response := None |}.

(** Lines 159-233: thresholds, contours, layer files, manifest. *)
Definition layerStage (fuel : nat) (body : Body) (reqs : list (num * num))
    (s : Sampling) : Run :=
  match planThresholds fuel (minE s) (maxE s) (intervalM body) with
  | Hang _ => unfinished reqs
  | Throw e _ => respond reqs (ExportError e)
  | Done thresholds =>
      if decide (thresholds = []) then respond reqs NoLayersProduced
      else
        match d3Contours (grid body) thresholds (values s) with
        | None => respond reqs (ExportError ContourFailed)
        | Some contourFeatures =>
            let scaleX := widthIn body / (grid body - ofZ 1) in
            let scaleY := heightIn body / (grid body - ofZ 1) in
            let holes :=
              if addAlignmentHoles body
              then circlesForAlignment (widthIn body) (heightIn body)
                     (holeDiameterIn body) (holeInsetIn body)
              else [] in
            let a :=
              writeLayers body holes scaleX scaleY 0 contourFeatures
                {| zip := []; written := 0 |} in
            respond reqs
              (ZipDownload
                 (zip_file "README.txt" (ReadmeFile (readme body s (written a)))
                    (zip a)))
        end
  end.

(** Lines 129-157: the pixel rectangle, the sample grid, the check of the
    elevation range. *)
Definition sampleStage (fuel : nat) (body : Body) (tl br : Point) (g : TileRange)
    (stitchedW stitchedH : num) (st : Stitching) : Run :=
  let rect := pixelRect tl br g in
  match newFloat32Array (grid body * grid body) with
  | None => respond (requests st) (ExportError RangeError)
  | Some blank =>
      match sampleGrid fuel (stitched st) stitchedW stitchedH rect (grid body)
              {| values := blank; minE := PInf; maxE := NInf |} with
      | Hang _ => unfinished (requests st)
      | Throw e _ => respond (requests st) (ExportError e)
      | Done s =>
          if degenerate (minE s) (maxE s)
          then respond (requests st) ElevationInvalid
          else layerStage fuel body (requests st) s
      end
  end.

(** Lines 104-127: allocate the raster and fill it tile by tile. *)
Definition stitchStage (fuel : nat) (body : Body) (z : Z) (tl br : Point)
    (g : TileRange) : Run :=
  let stitchedW := (xMax g - xMin g + ofZ 1) * tileSize in
  let stitchedH := (yMax g - yMin g + ofZ 1) * tileSize in
  match newFloat32Array (stitchedW * stitchedH) with
  | None => respond [] (ExportError RangeError)
  | Some blank =>
      match stitchTiles fuel z g stitchedW {| stitched := blank; requests := [] |} with
      | Hang st => unfinished (requests st)
      | Throw e st => respond (requests st) (ExportError e)
      | Done st => sampleStage fuel body tl br g stitchedW stitchedH st
      end
  end.

Definition invalidConfig (body : Body) : bool :=
  (widthIn body <=? ofZ 0) || (heightIn body <=? ofZ 0)
  || (intervalM body <=? ofZ 0) || (grid body <? ofZ 64).

Definition POST (fuel : nat) (body : Body) : Run :=
  match bounds body with
  | None => respond [] BadRequest
  | Some b =>
      if invalidConfig body then respond [] BadRequest
      else
        let z := 12%Z in
        let tl := lonLatToTile (west b) (north b) z in
        let br := lonLatToTile (east b) (south b) z in
        let g := tileRange tl br in
        let tileCount := tileCountOf g in
        if tileCount >? ofZ 64 then respond [] (SelectionTooLarge tileCount)
        else stitchStage fuel body z tl br g
  end.

End Route.

(** ** A concrete platform, for running the route

    One synthetic Terrarium tile, 12/2048/2048, whose elevation is the pixel
    column in metres (R = 128, G = column, B = 0); the transcendental
    functions by their first-order expansions at the equator; a contour
    stand-in that returns, per threshold, a one-point geometry when some
    sample reaches the threshold and an empty geometry otherwise. *)

Definition rampTile : PNG :=
  {| data := λ k,
       if decide (0 ≤ k < 262144) then
         match k `mod` 4 with
         | 0 => Some Byte.x80
         | 1 => Byte.of_N (Z.to_N ((k `div` 4) `mod` 256))
         | 2 => Some Byte.x00
         | _ => Some Byte.xff
         end
       else None |}.

(** A tile of constant elevation 100 m. *)
Definition flatTile : PNG :=
  {| data := λ k,
       if decide (0 ≤ k < 262144) then
         match k `mod` 4 with
         | 0 => Some Byte.x80
         | 1 => Some Byte.x64
         | 2 => Some Byte.x00
         | _ => Some Byte.xff
         end
       else None |}.

Definition reaches (vs : Float32Array) (t : num) : bool :=
  bool_decide (map_Exists (λ _ v, nleb t v = true) (ta_cells vs)).

Definition demoContours (_ : num) (ts : list num) (vs : Float32Array)
    : option (list Feature) :=
  Some (map (λ t, {| value := t;
                     coordinates := if reaches vs t
                                    then [[[ (ofZ 0, ofZ 0) ]]] else [] |}) ts).

Definition demoPath (f : Feature) : option string :=
  match coordinates f with
  | [] => None
  | _ => Some "M0,0Z"%string
  end.

Definition demoPlatform (tile : PNG) : Platform :=
  {| Math_PI := ratio 355 113;
     Math_log := λ x, nsub x (ofZ 1);
     Math_tan := λ x, x;
     Math_cos := λ _, ofZ 1;
     fetchPng := λ z tx ty,
       if decide (z = 12 ∧ tx = ofZ 2048 ∧ ty = ofZ 2048) then Some tile else None;
     d3Contours := demoContours;
     pathGen := demoPath |}.

(** A viewport inside the demo tile: west 0, east 45/1024 degrees (tile x
    from 2048 to 2048.5), a thin band north of the equator. *)
Definition demoBounds : Bounds :=
  {| west := ofZ 0; south := ratio (-45) 2048; east := ratio 45 1024; north := ofZ 0 |}.

Definition demoBodyAt (b : Bounds) (interval : num) : Body :=
  {| bounds := Some b;
     widthIn := ofZ 20;
     heightIn := ofZ 12;
     intervalM := interval;
     grid := ofZ 64;
     addAlignmentHoles := true;
     holeDiameterIn := ratio 1 8;
     holeInsetIn := ratio 7 20 |}.

Definition demoBody (interval : num) : Body := demoBodyAt demoBounds interval.

(** Viewports of 8 x 8 = 64 tiles and of 5 x 13 = 65 tiles (on the demo
    platform a tile is 45/512 degrees wide and high). *)
Definition bounds64 : Bounds :=
  {| west := ofZ 0; south := ratio (-675) 1024; east := ratio 675 1024; north := ofZ 0 |}.


(** ** Decidable equality of results, for checking runs by computation *)

#[global] Instance Exn_eq_dec : EqDecision Exn.
Proof. solve_decision. Defined.

#[global] Instance res_eq_dec {St : Type} `{EqDecision St} : EqDecision (res St).
Proof. solve_decision. Defined.

#[global] Instance Circle_eq_dec : EqDecision Circle.
Proof. solve_decision. Defined.

#[global] Instance Svg_eq_dec : EqDecision Svg.
Proof. solve_decision. Defined.

#[global] Instance Readme_eq_dec : EqDecision Readme.
Proof. solve_decision. Defined.

#[global] Instance FileContent_eq_dec : EqDecision FileContent.
Proof. solve_decision. Defined.

#[global] Instance Response_eq_dec : EqDecision Response.
Proof. solve_decision. Defined.

#[global] Instance Run_eq_dec : EqDecision Run.
Proof. solve_decision. Defined.

#[global] Instance Point_eq_dec : EqDecision Point.
Proof. solve_decision. Defined.

(** A 64 x 64 sample grid at 100 m with one sample at 110 m. *)
Definition stepSampling : Sampling :=
  {| values :=
       {| ta_length := 4096;
          ta_cells :=
            list_to_map
              (map (λ k, (k, if decide (k = 0) then ofZ 110 else ofZ 100))
                   (seqZ 0 4096)) |};
     minE := ofZ 100;
     maxE := ofZ 110 |}.

(** ** Reference definitions used in the statements *)

(** The corner projections and the raster size of a request, as [POST]
    computes them. *)
Definition topLeft `{Platform} (b : Bounds) : Point :=
  lonLatToTile (west b) (north b) 12.

Definition bottomRight `{Platform} (b : Bounds) : Point :=
  lonLatToTile (east b) (south b) 12.

Definition stitchedWidth (g : TileRange) : num :=
  nmul (nadd (nsub (xMax g) (xMin g)) (ofZ 1)) tileSize.

Definition stitchedHeight (g : TileRange) : num :=
  nmul (nadd (nsub (yMax g) (yMin g)) (ofZ 1)) tileSize.

(** The run of [POST fuel body] has passed validation and the tile-count
    guard, allocated the raster and stitched every tile: it stands at line
    129 with the stitching state [st]. *)
Definition stitchedOk `{Platform} (fuel : nat) (body : Body) (b : Bounds)
    (st : Stitching) : Prop :=
  let g := tileRange (topLeft b) (bottomRight b) in
  bounds body = Some b
  ∧ invalidConfig body = false
  ∧ ngtb (tileCountOf g) (ofZ 64) = false
  ∧ ∃ blank,
      newFloat32Array (nmul (stitchedWidth g) (stitchedHeight g)) = Some blank
      ∧ stitchTiles fuel 12 g (stitchedWidth g)
          {| stitched := blank; requests := [] |} = Done st.

(** From there the sample grid has been allocated and filled: the run stands
    at line 155 with the samples and their range [s]. *)
Definition sampledOk `{Platform} (fuel : nat) (body : Body) (b : Bounds)
    (st : Stitching) (s : Sampling) : Prop :=
  let g := tileRange (topLeft b) (bottomRight b) in
  ∃ blank,
    newFloat32Array (nmul (grid body) (grid body)) = Some blank
    ∧ sampleGrid fuel (stitched st) (stitchedWidth g) (stitchedHeight g)
        (pixelRect (topLeft b) (bottomRight b) g) (grid body)
        {| values := blank; minE := PInf; maxE := NInf |} = Done s.

(** The running minimum and maximum after at least one sample, when every
    sample is [c]. *)
Definition flatRange (c : num) : num * num :=
  (if nltb c PInf then c else PInf, if ngtb c NInf then c else NInf).

(** A 2 x 2 raster. *)
Definition tinyRaster : Float32Array :=
  {| ta_length := 4;
     ta_cells := list_to_map [(0, ofZ 5); (1, ofZ 7); (2, ofZ 9); (3, ofZ 11)] |}.

(** The answers of the stages behind the guard: never the validation answer,
    never the too-large answer. *)
Definition afterGuard (r : option Response) : Prop :=
  match r with
  | Some BadRequest | Some (SelectionTooLarge _) => False
  | _ => True
  end.


(** One axis of the range: the tiles from [floor (min u v)] to
    [floor (max u v)], and how many they are. *)
Definition axisExtent (u v : num) : num :=
  nadd (nsub (Math_floor (Math_max u v)) (Math_floor (Math_min u v))) (ofZ 1).

(** The spec's closed form of the plan, in exact arithmetic:
    [start + k * interval] for [k = 1 .. n], with
    [start = floor (min / interval) * interval]. *)
Definition thresholdsFormula (minE intervalM : num) (n : nat) : list num :=
  map (λ k : nat, nadd (nmul (Math_floor (ndiv minE intervalM)) intervalM)
                       (nmul (ofZ (Z.of_nat k)) intervalM))
      (seq 1 n).

(** The spec's [end], in exact arithmetic. *)
Definition endFormula (maxE intervalM : num) : num :=
  nmul (Math_ceil (ndiv maxE intervalM)) intervalM.

(** An elevation a Terrarium tile can encode: a multiple of 1/256 m, at
    most 32768 m in magnitude. *)
Definition terrariumLevel (m : Qc) : Prop :=
  ∃ a : Z, Z.abs a ≤ 2 ^ 23 ∧ m = Q2Qc (a # 256).

(** An interval of a whole number of metres, from 1 to 65536. *)
Definition wholeInterval (i : Qc) : Prop :=
  ∃ n : Z, 1 ≤ n ≤ 2 ^ 16 ∧ i = Qc_of_Z n.

(** A list of numbers in strictly ascending order. *)
Definition ascending (ts : list num) : Prop :=
  ∀ (a b : nat) (ta tb : num),
    (a < b)%nat → ts !! a = Some ta → ts !! b = Some tb → nltb ta tb = true.

(** Rounding on the grid of the multiples of [2 ^ (e - 52)], and the
    exponent [roundAbs] takes for a number. *)
Definition gridRound (e : Z) (a : Q) : Q :=
  (inject_Z (roundEven (a / 2 ^ (e - 52))%Q) * 2 ^ (e - 52))%Q.

Definition expOf (a : Q) : Z := Z.max (Qlog2 a) (-1022).

(** The number of planned thresholds for a finite range and interval. *)
Definition thresholdCount (minE maxE intervalM : Qc) : nat :=
  Z.to_nat (Qceiling (maxE / intervalM)%Qc - Qfloor (minE / intervalM)%Qc).

(** Whether a loop result is a normal completion. *)
Definition is_done {St : Type} (r : res St) : bool :=
  match r with
  | Done _ => true
  | _ => false
  end.

(** The scale factors, the alignment circles and the archive of layer files
    of a request, as the layer stage computes them. *)
Definition scaleXOf (body : Body) : num := ndiv (widthIn body) (nsub (grid body) (ofZ 1)).

Definition scaleYOf (body : Body) : num := ndiv (heightIn body) (nsub (grid body) (ofZ 1)).

Definition holesOf (body : Body) : list Circle :=
  if addAlignmentHoles body
  then circlesForAlignment (widthIn body) (heightIn body)
         (holeDiameterIn body) (holeInsetIn body)
  else [].

Definition layersOf `{Platform} (body : Body) (contourFeatures : list Feature) : Archive :=
  writeLayers body (holesOf body) (scaleXOf body) (scaleYOf body) 0 contourFeatures
    {| zip := []; written := 0 |}.

(** A feature that gives a layer file: its path is not falsy. *)
Definition emitted `{Platform} (f : Feature) : Prop := falsy (pathGen f) = false.

#[global] Instance emitted_dec `{Platform} (f : Feature) : Decision (emitted f).
Proof. unfold emitted. apply _. Defined.


(** The tile column of line 15, [((lon + 180) / 360) * n], each operation
    rounded to binary64. *)
Definition tileColumn (lon : num) (z : Z) : num :=
  binary64 (nmul (binary64 (ndiv (binary64 (nadd lon (ofZ 180))) (ofZ 360))) (pow2 z)).

Local Open Scope string_scope.

(** The sample grid of the demo request: 64 rows, each the ramp sampled at
    the columns [round (128 i / 63)]. *)
Definition demoSampling : Sampling :=
  {| values :=
       {| ta_length := 4096;
          ta_cells :=
            list_to_map
              (map (λ k, (k, ofZ ((256 * (k `mod` 64) + 63) `div` 126)))
                   (seqZ 0 4096)) |};
     minE := ofZ 0;
     maxE := ofZ 128 |}.

(** The layer document of the demo request. *)
Definition demoLayer : Svg :=
  {| svg_width := ofZ 20;
     svg_height := ofZ 12;
     svg_holes :=
       [ {| cx := ratio 7 20; cy := ratio 7 20; r := ratio 1 16 |};
         {| cx := ratio 393 20; cy := ratio 7 20; r := ratio 1 16 |};
         {| cx := ratio 7 20; cy := ratio 233 20; r := ratio 1 16 |};
         {| cx := ratio 393 20; cy := ratio 233 20; r := ratio 1 16 |} ];
     svg_scaleX := ratio 20 63;
     svg_scaleY := ratio 4 21;
     svg_path := "M0,0Z";
     svg_stroke := ratio 63 20000 |}.

Definition demoReadme (interval : num) (n : nat) : Readme :=
  {| readme_min := ofZ 0;
     readme_max := ofZ 128;
     readme_interval := interval;
     readme_grid := ofZ 64;
     readme_written := n |}.

#[global] Instance Float32Array_eq_dec : EqDecision Float32Array.
Proof. solve_decision. Defined.

#[global] Instance Sampling_eq_dec : EqDecision Sampling.
Proof. solve_decision. Defined.

(** The archive the demo request gives. *)
Definition demoZip : Zip :=
  [ ("layer_001_30m.svg", SvgFile demoLayer);
    ("layer_002_60m.svg", SvgFile demoLayer);
    ("layer_003_90m.svg", SvgFile demoLayer);
    ("layer_004_120m.svg", SvgFile demoLayer);
    ("README.txt", ReadmeFile (demoReadme (ofZ 30) 4)) ].

(** A tile of elevation 100 m west of its middle column and 110 m from
    there on. *)
Definition stepTile : PNG :=
  {| data := λ k,
       if decide (0 ≤ k < 262144) then
         match k `mod` 4 with
         | 0 => Some Byte.x80
         | 1 => if decide ((k `div` 4) `mod` 256 < 128) then Some Byte.x64
                else Some Byte.x6e
         | 2 => Some Byte.x00
         | _ => Some Byte.xff
         end
       else None |}.

(** The archive of a run that wrote no layer over a range of 100 to 110 m
    with an interval of 50 m. *)
Definition emptyZip : Zip :=
  [ ("README.txt",
     ReadmeFile {| readme_min := ofZ 100;
                   readme_max := ofZ 110;
                   readme_interval := ofZ 50;
                   readme_grid := ofZ 64;
                   readme_written := 0 |}) ].

Local Close Scope string_scope.

(** ** Reference definitions for the further facts *)

(** A loop over a list of values whose body may stop the run: what a
    counting [for] loop does once its counter values are listed. *)
Fixpoint runList {A St : Type} (body : A → St → res St) (l : list A) (s : St)
    : res St :=
  match l with
  | [] => Done s
  | a :: l' =>
      match body a s with
      | Done s' => runList body l' s'
      | r => r
      end
  end.

(** The tiles of an inclusive range in the order the stitching loops visit
    them: row by row, each row from west to east. *)
Definition tileGrid (x0 x1 y0 y1 : Z) : list (Z * Z) :=
  y ← seqZ y0 (y1 - y0 + 1); x ← seqZ x0 (x1 - x0 + 1); [(x, y)].

Definition tilesOf (x0 x1 y0 y1 : Z) : list (num * num) :=
  (λ p, (ofZ p.1, ofZ p.2)) <$> tileGrid x0 x1 y0 y1.

(** The elevation the stitching loop decodes for pixel [(px, py)] of a
    tile. *)
Definition pixelElevation (png : PNG) (px py : Z) : num :=
  let si := (py * 256 + px) * 4 in
  decodeTerrarium (channel png (ofZ si)) (channel png (ofZ (si + 1)))
                  (channel png (ofZ (si + 2))).

(** The elevation of cell [(gx, gy)] of the raster stitched from the tiles
    at zoom [z] whose north-west tile is [(x0, y0)]: the pixel
    [(gx mod 256, gy mod 256)] of tile [(x0 + gx / 256, y0 + gy / 256)]. *)
Definition mosaic `{Platform} (z x0 y0 gx gy : Z) : option num :=
  png ← fetchPng z (ofZ (x0 + gx `div` 256)) (ofZ (y0 + gy `div` 256));
  Some (pixelElevation png (gx `mod` 256) (gy `mod` 256)).

(** The sample the resampling loop takes for column [i] and row [j] of a
    grid of [n] points per side. *)
Definition sampleAt (src : Float32Array) (srcW srcH : num) (rect : PixelRect)
    (n i j : Z) : num :=
  toNumber (nearestSample src srcW srcH (sampleX rect (ofZ n) (ofZ i))
                          (sampleY rect (ofZ n) (ofZ j))).

(** [lo] and [hi] are the running minimum and maximum after the first [k]
    samples [v i j] of the grid, taken row by row: neither is [NaN], they
    bound every sample taken that is a number, and each is still its
    starting value or one of the samples taken. *)
Definition rangeOf (v : Z → Z → num) (n k : Z) (lo hi : num) : Prop :=
  lo ≠ NaN ∧ hi ≠ NaN
  ∧ (∀ i j, 0 ≤ i < n → 0 ≤ j < n → j * n + i < k → v i j ≠ NaN →
       nleb lo (v i j) = true ∧ nleb (v i j) hi = true)
  ∧ (lo = PInf ∨ ∃ i j, 0 ≤ i < n ∧ 0 ≤ j < n ∧ j * n + i < k ∧ lo = v i j)
  ∧ (hi = NInf ∨ ∃ i j, 0 ≤ i < n ∧ 0 ≤ j < n ∧ j * n + i < k ∧ hi = v i j).

(** *** The request of the page ([src/app/page.tsx], [exportTopo])

    The page sends [JSON.stringify] of the viewport bounds and the settings.
    JSON has no [NaN] and no infinities: such a number is written as
    [null].  The route reads a setting as [Number(body.f ?? d)], so [null]
    gives the default [d]; a member of [bounds] that is [null] is used in
    arithmetic, where it counts as 0. *)
Definition jsonNumber (v : num) : option num :=
  if isFinite v then Some v else None.

(** [Number(v ?? d)] *)
Definition numberOr (v : option num) (d : num) : num := default d v.

(** [null] or a number as an operand of [+] and [*]. *)
Definition operand (v : option num) : num := default (ofZ 0) v.

(** The body the route works with when the page exports the viewport
    [bounds] with the given settings; no request is sent without bounds. *)
Definition exportTopo (bounds : option Bounds) (widthIn heightIn intervalM grid : num)
    : option Body :=
  match bounds with
  | None => None
  | Some b =>
      Some {| bounds :=
                Some {| west := operand (jsonNumber (west b));
                        south := operand (jsonNumber (south b));
                        east := operand (jsonNumber (east b));
                        north := operand (jsonNumber (north b)) |};
              widthIn := numberOr (jsonNumber widthIn) (ofZ 20);
              heightIn := numberOr (jsonNumber heightIn) (ofZ 12);
              intervalM := numberOr (jsonNumber intervalM) (ofZ 30);
              grid := numberOr (jsonNumber grid) (ofZ 256);
              addAlignmentHoles := true;
              holeDiameterIn := ratio 1 8;
              holeInsetIn := ratio 7 20 |}
  end.

(** A string without the separator ["_"]. *)
Fixpoint plain (s : string) : Prop :=
  match s with
  | EmptyString => True
  | String c s' => String c EmptyString ≠ "_"%string ∧ plain s'
  end.

Local Open Scope string_scope.

(** *** The layer loop of the later listing (lines 426-457)

    The second listing of [src/app/api/export/route.ts] numbers the layer
    files with a counter of its own, [layerIndex], started at 1 and advanced
    only when a file is written; the manifest reports [layerIndex - 1]. *)

Definition revisedName (layerIndex : nat) (level : num) : string :=
  "layer_" +:+ padStart (pretty layerIndex) 3 +:+ "_" +:+ roundedText level
  +:+ "m.svg".

Record RevisedArchive : Type := { rev_zip : Zip; layerIndex : nat }.

Fixpoint writeLayersRevised `{Platform} (body : Body) (holes : list Circle)
    (scaleX scaleY : num) (features : list Feature) (a : RevisedArchive)
    : RevisedArchive :=
  match features with
  | [] => a
  | f :: rest =>
      let d := pathGen f in
      if falsy d then writeLayersRevised body holes scaleX scaleY rest a
      else
        let name := revisedName (layerIndex a) (value f) in
        let svg := layerSvg body holes scaleX scaleY (default "" d) in
        writeLayersRevised body holes scaleX scaleY rest
          {| rev_zip := zip_file name (SvgFile svg) (rev_zip a);
             layerIndex := S (layerIndex a) |}
  end.

(** The archive of the later listing for a list of contour features. *)
Definition revisedZip `{Platform} (body : Body) (minE maxE : num)
    (features : list Feature) : Zip :=
  let a :=
    writeLayersRevised body (holesOf body) (scaleXOf body) (scaleYOf body) features
      {| rev_zip := []; layerIndex := 1 |} in
  zip_file "README.txt"
    (ReadmeFile {| readme_min := minE;
                   readme_max := maxE;
                   readme_interval := intervalM body;
                   readme_grid := grid body;
                   readme_written := layerIndex a - 1 |})
    (rev_zip a).

(** The layer files the first listing writes for the features from index
    [idx] on, as a list: one entry per feature with a path, named by the
    position of the feature. *)
Fixpoint layerEntries `{Platform} (body : Body) (holes : list Circle)
    (scaleX scaleY : num) (idx : nat) (contourFeatures : list Feature) : Zip :=
  match contourFeatures with
  | [] => []
  | f :: rest =>
      if falsy (pathGen f)
      then layerEntries body holes scaleX scaleY (S idx) rest
      else (layerName idx (value f),
            SvgFile (layerSvg body holes scaleX scaleY (default "" (pathGen f))))
           :: layerEntries body holes scaleX scaleY (S idx) rest
  end.

Local Close Scope string_scope.

(** * Facts *)

(** ** Numbers *)

Section NumFacts.
Local Open Scope Qc_scope.

Lemma nleb_Fin (a b : Qc) : nleb (Fin a) (Fin b) = true ↔ a ≤ b.
Proof. simpl. apply bool_decide_eq_true. Qed.

Lemma nltb_Fin (a b : Qc) : nltb (Fin a) (Fin b) = true ↔ a < b.
Proof. simpl. apply bool_decide_eq_true. Qed.

Lemma nleb_Fin_false (a b : Qc) : nleb (Fin a) (Fin b) = false ↔ b < a.
Proof. simpl. rewrite bool_decide_eq_false. symmetry. apply Qclt_nge. Qed.

Lemma nltb_Fin_false (a b : Qc) : nltb (Fin a) (Fin b) = false ↔ b ≤ a.
Proof. simpl. rewrite bool_decide_eq_false. symmetry. apply Qcle_ngt. Qed.

Lemma nleb_finite_l (a b : num) : nleb a b = true → a ≠ NaN ∧ b ≠ NaN.
Proof. destruct a, b; simpl; intros; split; congruence. Qed.

Lemma ofZ_inj (a b : Z) : ofZ a = ofZ b → a = b.
Proof. unfold ofZ. intros [=E]. by apply Z2Qc_inj_iff; apply Qc_is_canon; rewrite E. Qed.

Lemma nadd_ofZ (a b : Z) : nadd (ofZ a) (ofZ b) = ofZ (a + b).
Proof. unfold ofZ; simpl. by rewrite Z2Qc_inj_add. Qed.

Lemma nsub_ofZ (a b : Z) : nsub (ofZ a) (ofZ b) = ofZ (a - b).
Proof. unfold ofZ, nsub; simpl. by rewrite Z2Qc_inj_sub. Qed.

Lemma nmul_ofZ (a b : Z) : nmul (ofZ a) (ofZ b) = ofZ (a * b).
Proof. unfold ofZ; simpl. by rewrite Z2Qc_inj_mul. Qed.

Lemma incr_ofZ (a : Z) : incr (ofZ a) = ofZ (a + 1).
Proof. apply nadd_ofZ. Qed.

Lemma nltb_ofZ (a b : Z) : nltb (ofZ a) (ofZ b) = bool_decide (a < b)%Z.
Proof. unfold ofZ; simpl. apply bool_decide_ext. symmetry. apply Z2Qc_inj_lt. Qed.

Lemma nleb_ofZ (a b : Z) : nleb (ofZ a) (ofZ b) = bool_decide (a ≤ b)%Z.
Proof. unfold ofZ; simpl. apply bool_decide_ext. symmetry. apply Z2Qc_inj_le. Qed.

Lemma Qfloor_of_Z (k : Z) : Qfloor (Qc_of_Z k) = k.
Proof. apply Qfloor_Z. Qed.

Lemma Qceiling_of_Z (k : Z) : Qceiling (Qc_of_Z k) = k.
Proof. apply Qceiling_Z. Qed.

Lemma asInteger_ofZ (k : Z) : asInteger (ofZ k) = Some k.
Proof. unfold asInteger, ofZ. rewrite Qfloor_of_Z. by rewrite decide_True. Qed.

Lemma asInteger_Some (a : num) (k : Z) : asInteger a = Some k → a = ofZ k.
Proof.
  destruct a as [| | |x]; simpl; try done.
  case_decide as E; [|done]. intros [= <-]. unfold ofZ. by rewrite E.
Qed.

(** The floor and the ceiling of a rational, as inequalities in [Qc]. *)
Lemma Qc_floor_le (x : Qc) : Qc_of_Z (Qfloor x) ≤ x.
Proof. unfold Qcle; simpl. apply Qfloor_le. Qed.

Lemma Qc_lt_floor (x : Qc) : x < Qc_of_Z (Qfloor x + 1).
Proof. unfold Qclt; simpl. apply Qlt_floor. Qed.

Lemma Qc_le_ceiling (x : Qc) : x ≤ Qc_of_Z (Qceiling x).
Proof. unfold Qcle; simpl. apply Qle_ceiling. Qed.

Lemma Qc_ceiling_lt (x : Qc) : Qc_of_Z (Qceiling x - 1) < x.
Proof. unfold Qclt; simpl. apply Qceiling_lt. Qed.

Lemma Qc_floor_mono (x y : Qc) : x ≤ y → (Qfloor x ≤ Qfloor y)%Z.
Proof. apply Qfloor_resp_le. Qed.

Lemma Qc_floor_lb (x : Qc) (k : Z) : Qc_of_Z k ≤ x → (k ≤ Qfloor x)%Z.
Proof. intros Hk. rewrite <-(Qfloor_of_Z k). by apply Qc_floor_mono. Qed.

Lemma Qc_floor_ub (x : Qc) (k : Z) : x < Qc_of_Z k → (Qfloor x < k)%Z.
Proof.
  intros Hk. apply Z2Qc_inj_lt. eapply Qcle_lt_trans; [apply Qc_floor_le|done].
Qed.

Lemma Qc_ceiling_lb (x : Qc) (k : Z) : Qc_of_Z k < x → (k < Qceiling x)%Z.
Proof.
  intros Hk. apply Z2Qc_inj_lt. eapply Qclt_le_trans; [done|apply Qc_le_ceiling].
Qed.

End NumFacts.

(** ** Loops *)

Section LoopFacts.
Context {St : Type}.
Implicit Types (s : St) (body : num → St → res St).

Lemma forLoop_exit fuel cond step body v s :
  cond v = false → forLoop fuel cond step body v s = Done s.
Proof. intros Hc. destruct fuel; simpl; by rewrite Hc. Qed.

Lemma forLoop_enter fuel cond step body v s :
  cond v = true →
  forLoop (S fuel) cond step body v s =
    match body v s with
    | Done s' => forLoop fuel cond step body (step v) s'
    | r => r
    end.
Proof. intros Hc. simpl. by rewrite Hc. Qed.

(** A counting loop from [lo] up to (not including) [hi] whose body always
    completes: it completes, and an invariant indexed by the counter is
    carried from [lo] to [hi]. *)
Lemma forLoop_counted (Inv : Z → St → Prop) fuel cond body (lo hi : Z) s :
  lo ≤ hi →
  (Z.to_nat (hi - lo) ≤ fuel)%nat →
  (∀ k, lo ≤ k < hi → cond (ofZ k) = true) →
  cond (ofZ hi) = false →
  Inv lo s →
  (∀ k s, lo ≤ k < hi → Inv k s → ∃ s', body (ofZ k) s = Done s' ∧ Inv (k + 1) s') →
  ∃ s', forLoop fuel cond incr body (ofZ lo) s = Done s' ∧ Inv hi s'.
Proof.
  intros Hle Hfuel Hin Hout Hinv Hbody.
  remember (Z.to_nat (hi - lo)) as n eqn:Hn.
  revert lo s fuel Hle Hfuel Hin Hinv Hbody Hn.
  induction n as [|n IH]; intros lo s fuel Hle Hfuel Hin Hinv Hbody Hn.
  - assert (lo = hi) as -> by lia.
    exists s. split; [by apply forLoop_exit|done].
  - destruct fuel as [|fuel]; [lia|].
    rewrite forLoop_enter by (apply Hin; lia).
    destruct (Hbody lo s) as (s1 & -> & Hinv1); [lia|done|].
    rewrite incr_ofZ.
    apply IH; try lia; try done.
    + intros k Hk. apply Hin. lia.
    + intros k s' Hk. apply Hbody. lia.
Qed.

(** A reflexive and transitive relation between states that every run of the
    body respects is respected by the loop, however it ends. *)
Lemma forLoop_preserved (R : St → St → Prop) fuel cond step body v s :
  (∀ s, R s s) → (∀ s1 s2 s3, R s1 s2 → R s2 s3 → R s1 s3) →
  (∀ v s, R s (res_state (body v s))) →
  R s (res_state (forLoop fuel cond step body v s)).
Proof.
  intros Hrefl Htrans Hbody. revert v s.
  induction fuel as [|fuel IH]; intros v s; simpl.
  - destruct (cond v); simpl; apply Hrefl.
  - destruct (cond v); simpl; [|apply Hrefl].
    specialize (Hbody v s).
    destruct (body v s) as [s1|e s1|s1]; simpl in *; [|done..].
    eapply Htrans; [exact Hbody|apply IH].
Qed.

(** The same for a computation continued after a first step. *)
Lemma res_state_continue (R : St → St → Prop) (r : res St) (k : St → res St) :
  (∀ s, R s s) → (∀ s, R s (res_state (k s))) →
  R (res_state r) (res_state (match r with Done s' => k s' | _ => r end)).
Proof. intros Hrefl Hk. destruct r; simpl; auto. Qed.

(** A loop whose body never throws does not throw. *)
Lemma forLoop_no_throw fuel cond step body v s e s' :
  (∀ v s e s', body v s ≠ Throw e s') →
  forLoop fuel cond step body v s ≠ Throw e s'.
Proof.
  intros Hbody. revert v s.
  induction fuel as [|fuel IH]; intros v s; simpl.
  - by destruct (cond v).
  - destruct (cond v); [|done].
    destruct (body v s) as [s1|e1 s1|s1] eqn:E; [apply IH| |done].
    by destruct (Hbody v s e1 s1).
Qed.

End LoopFacts.

(** ** Rational arithmetic behind the route's formulas *)

Section QcFacts.
Local Open Scope Qc_scope.

Lemma ratio_div (n : Z) (d : positive) :
  ratio n d = ndiv (ofZ n) (ofZ (Z.pos d)).
Proof.
  unfold ratio, ofZ, ndiv.
  rewrite decide_False by (rewrite <-Z2Qc_inj_0, Z2Qc_inj_iff; lia).
  f_equal. apply Qc_is_canon. simpl. rewrite !Qred_correct.
  by rewrite Qmake_Qdiv.
Qed.

Lemma Qc_of_Z_pos (k : Z) : (0 < k)%Z ↔ 0 < Qc_of_Z k.
Proof. rewrite <-Z2Qc_inj_0. apply Z2Qc_inj_lt. Qed.

Lemma Qc_of_Z_nonzero (k : Z) : k ≠ 0%Z → Qc_of_Z k ≠ 0.
Proof. rewrite <-Z2Qc_inj_0, Z2Qc_inj_iff. done. Qed.

Lemma Qc_of_Z_succ (k : Z) : Qc_of_Z (k + 1) = Qc_of_Z k + 1.
Proof. by rewrite Z2Qc_inj_add, Z2Qc_inj_1. Qed.


Lemma Qcdiv_mult_cancel (x y : Qc) : y ≠ 0 → x / y * y = x.
Proof. intros Hy. field. done. Qed.

End QcFacts.

(** ** Double precision *)

Section RoundingFacts.
Local Open Scope Q_scope.

Lemma roundEven_comp (x y : Q) : x == y → roundEven x = roundEven y.
Proof.
  intros E. unfold roundEven. rewrite (Qfloor_comp _ _ E).
  assert (Qcompare (x - inject_Z (Qfloor y)) (1 # 2)
          = Qcompare (y - inject_Z (Qfloor y)) (1 # 2)) as -> by (by rewrite E).
  done.
Qed.

Lemma roundEven_Z (z : Z) : roundEven (inject_Z z) = z.
Proof.
  unfold roundEven. rewrite Qfloor_Z.
  assert (Qcompare (inject_Z z - inject_Z z) (1 # 2) = Lt) as ->; [|done].
  apply (proj1 (Qlt_alt _ _)). lra.
Qed.

Lemma roundEven_bounds (y : Q) : (Qfloor y ≤ roundEven y ≤ Qfloor y + 1)%Z.
Proof.
  unfold roundEven.
  repeat match goal with |- context [match ?c with _ => _ end] => destruct c end; lia.
Qed.

Lemma roundEven_mono (x y : Q) : x <= y → (roundEven x ≤ roundEven y)%Z.
Proof.
  intros Hxy. pose proof (Qfloor_resp_le _ _ Hxy) as Hf.
  destruct (Z.eq_dec (Qfloor x) (Qfloor y)) as [E|E].
  - unfold roundEven. rewrite E.
    destruct (Qcompare_spec (x - inject_Z (Qfloor y)) (1 # 2)),
             (Qcompare_spec (y - inject_Z (Qfloor y)) (1 # 2));
      destruct (Z.even (Qfloor y)); try lia; exfalso; lra.
  - pose proof (roundEven_bounds x). pose proof (roundEven_bounds y). lia.
Qed.

(** Powers of two. *)
Lemma pow2_pos (e : Z) : 0 < 2 ^ e.
Proof. by apply Qpower_0_lt. Qed.

Lemma pow2_add (a b : Z) : 2 ^ (a + b) == 2 ^ a * 2 ^ b.
Proof. by apply Qpower_plus. Qed.

Lemma pow2_sub (a b : Z) : 2 ^ (a - b) == 2 ^ a / 2 ^ b.
Proof. by apply Qpower_minus. Qed.

Lemma pow2_le (a b : Z) : (a ≤ b)%Z → 2 ^ a <= 2 ^ b.
Proof. intros. by apply Qpower_le_compat_l. Qed.

Lemma pow2_lt (a b : Z) : (a < b)%Z → 2 ^ a < 2 ^ b.
Proof. intros. by apply Qpower_lt_compat_l. Qed.

Lemma pow2_lt_inv (a b : Z) : 2 ^ a < 2 ^ b → (a < b)%Z.
Proof. intros. by eapply Qpower_lt_compat_l_inv. Qed.

Lemma pow2_Z (n : Z) : (0 ≤ n)%Z → 2 ^ n == inject_Z (2 ^ n).
Proof. intros. by rewrite Zpower_Qpower. Qed.

Lemma inject_Z_pos (q : Z) : (0 < q)%Z → 0 < inject_Z q.
Proof. intros. unfold Qlt; simpl. lia. Qed.

(** A quotient of integers against a fraction. *)
Lemma Zdiv_le_frac (p q n : Z) (d : positive) :
  (0 < q)%Z → (p * Z.pos d ≤ n * q)%Z → inject_Z p / inject_Z q <= n # d.
Proof.
  intros Hq H. apply Qle_shift_div_r; [by apply inject_Z_pos|].
  unfold Qle, Qmult, inject_Z; simpl. lia.
Qed.

Lemma frac_lt_Zdiv (p q n : Z) (d : positive) :
  (0 < q)%Z → (n * q < p * Z.pos d)%Z → n # d < inject_Z p / inject_Z q.
Proof.
  intros Hq H. apply Qlt_shift_div_l; [by apply inject_Z_pos|].
  unfold Qlt, Qmult, inject_Z; simpl. lia.
Qed.

Lemma Qlog2_spec (x : Q) : 0 < x → 2 ^ Qlog2 x <= x ∧ x < 2 ^ (Qlog2 x + 1).
Proof.
  intros Hx. destruct x as [n d].
  assert (0 < n)%Z as Hn by (unfold Qlt in Hx; simpl in Hx; lia).
  pose proof (Z.log2_spec n Hn) as [Hn1 Hn2].
  pose proof (Z.log2_spec (Z.pos d) (Pos2Z.is_pos d)) as [Hd1 Hd2].
  pose proof (Z.log2_nonneg n) as Hln. pose proof (Z.log2_nonneg (Z.pos d)) as Hld.
  unfold Qlog2. cbn [Qnum Qden].
  set (ln := Z.log2 n) in *. set (ld := Z.log2 (Z.pos d)) in *.
  assert (0 < 2 ^ ld)%Z as Hpd by (by apply Z.pow_pos_nonneg).
  assert (0 < 2 ^ Z.succ ld)%Z as Hpd' by (apply Z.pow_pos_nonneg; lia).
  assert (0 < 2 ^ ln)%Z as Hpn by (by apply Z.pow_pos_nonneg).
  destruct (Qle_bool (2 ^ (ln - ld)) (n # d)) eqn:E.
  - apply Qle_bool_iff in E. split; [done|].
    replace (ln - ld + 1)%Z with (Z.succ ln - ld)%Z by lia.
    rewrite pow2_sub, !pow2_Z by lia.
    apply frac_lt_Zdiv; [done|]. nia.
  - assert (¬ 2 ^ (ln - ld) <= n # d) as E'
      by (intros E'; apply Qle_bool_iff in E'; congruence).
    split.
    + replace (ln - ld - 1)%Z with (ln - Z.succ ld)%Z by lia.
      rewrite pow2_sub, !pow2_Z by lia.
      apply Zdiv_le_frac; [done|]. nia.
    + replace (ln - ld - 1 + 1)%Z with (ln - ld)%Z by lia.
      by apply Qnot_le_lt.
Qed.


Lemma Qlog2_mono (x y : Q) : 0 < x → x <= y → (Qlog2 x ≤ Qlog2 y)%Z.
Proof.
  intros Hx Hxy.
  destruct (Qlog2_spec x Hx) as [H1 _].
  destruct (Qlog2_spec y) as [_ H2]; [lra|].
  assert (Qlog2 x < Qlog2 y + 1)%Z by (apply pow2_lt_inv; lra).
  lia.
Qed.

Lemma gridRound_mono (e : Z) (a b : Q) : a <= b → gridRound e a <= gridRound e b.
Proof.
  intros Hab. unfold gridRound. pose proof (pow2_pos (e - 52)) as Hu.
  apply Qmult_le_compat_r; [|lra].
  rewrite <-Zle_Qle. apply roundEven_mono.
  unfold Qdiv. apply Qmult_le_compat_r; [done|].
  apply Qlt_le_weak. by apply Qinv_lt_0_compat.
Qed.

Lemma gridRound_exact (e : Z) (a : Q) (z k : Z) :
  a == inject_Z z * 2 ^ k → (e - 52 ≤ k)%Z → gridRound e a == a.
Proof.
  intros Ha Hk. unfold gridRound.
  pose proof (pow2_pos (e - 52)) as Hu. pose proof (pow2_sub k (e - 52)) as Hs.
  assert (2 ^ (k - (e - 52)) == inject_Z (2 ^ (k - (e - 52)))) as Hz
    by (apply pow2_Z; lia).
  revert Ha Hu Hs Hz.
  generalize (2 ^ (e - 52)) (2 ^ k) (2 ^ (k - (e - 52))). intros u pk pd Ha Hu Hs Hz.
  assert (a / u == inject_Z (z * 2 ^ (k - (e - 52)))) as E.
  { rewrite Ha, inject_Z_mult, <-Hz, Hs. field. lra. }
  rewrite (roundEven_comp _ _ E), roundEven_Z.
  rewrite Ha, inject_Z_mult, <-Hz, Hs. field. lra.
Qed.

Lemma roundAbs_grid (a : Q) : roundAbs a = gridRound (expOf a) a.
Proof. reflexivity. Qed.

Lemma expOf_ub (a : Q) : 0 < a → a < 2 ^ (expOf a + 1).
Proof.
  intros Ha. destruct (Qlog2_spec a Ha) as [_ H].
  eapply Qlt_le_trans; [exact H|]. apply pow2_le. unfold expOf. lia.
Qed.

Lemma expOf_lb (a : Q) : 0 < a → (-1022 < expOf a)%Z → 2 ^ expOf a <= a.
Proof.
  intros Ha He. destruct (Qlog2_spec a Ha) as [H _].
  replace (expOf a) with (Qlog2 a) by (unfold expOf in *; lia). done.
Qed.

Lemma gridRound_0 (e : Z) : gridRound e 0 == 0.
Proof.
  apply (gridRound_exact e 0 0 (e - 52)); [|lia].
  change (inject_Z 0) with 0. ring.
Qed.

Lemma gridRound_pow2 (e k : Z) : (e - 52 ≤ k)%Z → gridRound e (2 ^ k) == 2 ^ k.
Proof.
  intros Hk. apply (gridRound_exact e _ 1 k); [|done].
  change (inject_Z 1) with 1. ring.
Qed.

Lemma roundAbs_0 (a : Q) : a == 0 → roundAbs a == 0.
Proof.
  intros Ha. rewrite roundAbs_grid.
  apply Qle_antisym.
  - rewrite <-(gridRound_0 (expOf a)). apply gridRound_mono. lra.
  - rewrite <-(gridRound_0 (expOf a)) at 1. apply gridRound_mono. lra.
Qed.

Lemma roundAbs_nonneg (a : Q) : 0 <= a → 0 <= roundAbs a.
Proof.
  intros Ha. rewrite roundAbs_grid.
  apply Qle_trans with (gridRound (expOf a) 0); [by rewrite gridRound_0|].
  by apply gridRound_mono.
Qed.

Lemma roundAbs_mono (a b : Q) : 0 <= a → a <= b → roundAbs a <= roundAbs b.
Proof.
  intros Ha Hab.
  destruct (Qeq_dec a 0) as [Ea|Ea].
  { rewrite (roundAbs_0 a Ea). apply roundAbs_nonneg. lra. }
  assert (0 < a) as Ha' by (apply Qle_lt_or_eq in Ha as [?|E]; [done|by rewrite E in Ea]).
  assert (0 < b) as Hb' by lra.
  pose proof (Qlog2_mono a b Ha' Hab) as Hlog.
  assert (expOf a ≤ expOf b)%Z as He by (unfold expOf; lia).
  rewrite !roundAbs_grid.
  destruct (Z.eq_dec (expOf a) (expOf b)) as [E|E].
  - rewrite E. by apply gridRound_mono.
  - assert (expOf a < expOf b)%Z as Hlt by lia.
    pose proof (expOf_ub a Ha') as Hua.
    pose proof (expOf_lb b Hb' ltac:(unfold expOf in *; lia)) as Hlb.
    apply Qle_trans with (2 ^ (expOf a + 1)).
    + apply Qle_trans with (gridRound (expOf a) (2 ^ (expOf a + 1))).
      * apply gridRound_mono. lra.
      * rewrite gridRound_pow2 by lia. lra.
    + apply Qle_trans with (2 ^ expOf b); [apply pow2_le; lia|].
      apply Qle_trans with (gridRound (expOf b) (2 ^ expOf b)).
      * rewrite gridRound_pow2 by lia. lra.
      * by apply gridRound_mono.
Qed.

(** A dyadic number with a significand below [2 ^ 53] is not rounded. *)
Lemma roundAbs_exact (a : Q) (z k : Z) :
  a == inject_Z z * 2 ^ k → (0 ≤ z < 2 ^ 53)%Z → (-1074 ≤ k)%Z → roundAbs a == a.
Proof.
  intros Ha Hz Hk.
  destruct (Z.eq_dec z 0%Z) as [->|Hz0].
  { change (inject_Z 0) with 0 in Ha. assert (a == 0) as Ha0 by (rewrite Ha; ring).
    by rewrite roundAbs_0, Ha0. }
  pose proof (pow2_pos k) as Hpk.
  assert (0 < inject_Z z) as Hzq by (apply inject_Z_pos; lia).
  assert (0 < a) as Ha' by (rewrite Ha; nra).
  rewrite roundAbs_grid. apply (gridRound_exact _ _ z k); [done|].
  destruct (Z.eq_dec (expOf a) (-1022)%Z) as [E|He]; [lia|].
  pose proof (expOf_lb a Ha' ltac:(unfold expOf in *; lia)) as Hlb.
  assert (inject_Z z < 2 ^ 53) as Hz53.
  { rewrite pow2_Z by lia. rewrite <-Zlt_Qlt. lia. }
  assert (2 ^ expOf a < 2 ^ (53 + k)) as Hlt.
  { rewrite pow2_add. eapply Qle_lt_trans; [exact Hlb|]. rewrite Ha. nra. }
  apply pow2_lt_inv in Hlt. lia.
Qed.




(** The correspondence between [Q] and [Qc]. *)
Lemma Q2Qc_le (p q : Q) : p <= q → (Q2Qc p ≤ Q2Qc q)%Qc.
Proof. intros. unfold Qcle; simpl. by rewrite !Qred_correct. Qed.

Lemma Q2Qc_this (x : Qc) (p : Q) : p == x → Q2Qc p = x.
Proof. intros E. apply Qc_is_canon. simpl. by rewrite Qred_correct. Qed.

Lemma binary64_not_NaN (a : num) : a ≠ NaN → binary64 a ≠ NaN.
Proof. destruct a; try done. intros _. unfold binary64. by repeat case_match. Qed.

(** Rounding keeps the order. *)
Lemma binary64_mono (a b : num) :
  nleb a b = true → nleb (binary64 a) (binary64 b) = true.
Proof.
  destruct a as [| | |x], b as [| | |y]; try done.
  - intros _. unfold binary64. by repeat case_match.
  - intros _. unfold binary64. by repeat case_match.
  - intros Hxy. simpl in Hxy. apply bool_decide_eq_true in Hxy.
    unfold Qcle in Hxy. unfold binary64.
    pose proof (Qabs_nonneg x) as Hax. pose proof (Qabs_nonneg y) as Hay.
    pose proof (roundAbs_nonneg _ Hax) as Hrx. pose proof (roundAbs_nonneg _ Hay) as Hry.
    pose proof (pow2_pos 1024) as Hp.
    destruct (Qle_bool 0 x) eqn:Sx, (Qle_bool 0 y) eqn:Sy.
    + apply Qle_bool_iff in Sx, Sy.
      assert (roundAbs (Qabs x) <= roundAbs (Qabs y)) as Hr.
      { apply roundAbs_mono; [done|]. rewrite !Qabs_pos by done. done. }
      destruct (Qle_bool (2 ^ 1024) (roundAbs (Qabs x))) eqn:Ox,
               (Qle_bool (2 ^ 1024) (roundAbs (Qabs y))) eqn:Oy; simpl; try done.
      * apply Qle_bool_iff in Ox.
        assert (Qle_bool (2 ^ 1024) (roundAbs (Qabs y)) = true)
          by (apply Qle_bool_iff; lra).
        congruence.
      * apply bool_decide_eq_true. by apply Q2Qc_le.
    + apply Qle_bool_iff in Sx.
      assert (¬ 0 <= y) as Sy' by (intros Sy'; apply Qle_bool_iff in Sy'; congruence).
      exfalso. apply Sy'. lra.
    + destruct (Qle_bool (2 ^ 1024) (roundAbs (Qabs x))),
               (Qle_bool (2 ^ 1024) (roundAbs (Qabs y))); simpl; try done.
      apply bool_decide_eq_true. apply Q2Qc_le. lra.
    + assert (¬ 0 <= x) as Sx' by (intros Sx'; apply Qle_bool_iff in Sx'; congruence).
      assert (¬ 0 <= y) as Sy' by (intros Sy'; apply Qle_bool_iff in Sy'; congruence).
      assert (roundAbs (Qabs y) <= roundAbs (Qabs x)) as Hr.
      { apply roundAbs_mono; [done|]. rewrite !Qabs_neg by lra. lra. }
      destruct (Qle_bool (2 ^ 1024) (roundAbs (Qabs x))) eqn:Ox,
               (Qle_bool (2 ^ 1024) (roundAbs (Qabs y))) eqn:Oy; simpl; try done.
      * apply Qle_bool_iff in Oy.
        assert (Qle_bool (2 ^ 1024) (roundAbs (Qabs x)) = true)
          by (apply Qle_bool_iff; lra).
        congruence.
      * apply bool_decide_eq_true. apply Q2Qc_le. lra.
Qed.

(** A dyadic number with a significand below [2 ^ 53] in magnitude and an
    exponent in range is a binary64 number. *)
Lemma binary64_exact (x : Qc) (z k : Z) :
  x == inject_Z z * 2 ^ k → (Z.abs z < 2 ^ 53)%Z → (-1074 ≤ k ≤ 970)%Z →
  binary64 (Fin x) = Fin x.
Proof.
  intros Hx Hz Hk. pose proof (pow2_pos k) as Hpk.
  assert (Qabs x == inject_Z (Z.abs z) * 2 ^ k) as Ha.
  { rewrite Hx, Qabs_Qmult. rewrite (Qabs_pos (2 ^ k)) by lra.
    reflexivity. }
  assert (roundAbs (Qabs x) == Qabs x) as Hr
    by (apply (roundAbs_exact _ (Z.abs z) k); [done|lia|lia]).
  assert (Qabs x < 2 ^ 1024) as Hlt.
  { rewrite Ha. apply Qlt_le_trans with (2 ^ 53 * 2 ^ k).
    - apply Qmult_lt_compat_r; [done|]. rewrite pow2_Z by lia. rewrite <-Zlt_Qlt. lia.
    - rewrite <-pow2_add. apply pow2_le. lia. }
  unfold binary64.
  destruct (Qle_bool (2 ^ 1024) (roundAbs (Qabs x))) eqn:O.
  { apply Qle_bool_iff in O. exfalso. lra. }
  f_equal. apply Q2Qc_this.
  destruct (Qle_bool 0 x) eqn:Sx.
  - apply Qle_bool_iff in Sx. rewrite Hr. by apply Qabs_pos.
  - assert (¬ 0 <= x) as Sx' by (intros Sx'; apply Qle_bool_iff in Sx'; congruence).
    rewrite Hr, Qabs_neg by lra. ring.
Qed.

Lemma binary64_ofZ (z : Z) : (Z.abs z < 2 ^ 53)%Z → binary64 (ofZ z) = ofZ z.
Proof.
  intros Hz. apply (binary64_exact _ z 0); [|done|lia].
  simpl. ring.
Qed.

Lemma binary64_ratio (z : Z) (j : Z) :
  (Z.abs z < 2 ^ 53)%Z → (0 ≤ j ≤ 1074)%Z →
  binary64 (ratio z (Z.to_pos (2 ^ j))) = ratio z (Z.to_pos (2 ^ j)).
Proof.
  intros Hz Hj. apply (binary64_exact _ z (- j)); [|done|lia].
  simpl. rewrite Qred_correct, Qmake_Qdiv.
  assert (0 < 2 ^ j)%Z by (apply Z.pow_pos_nonneg; lia).
  rewrite Z2Pos.id by done. rewrite Qpower_opp, <-pow2_Z by lia. reflexivity.
Qed.



(** A number between two binary64 numbers rounds to a number between
    them. *)
Lemma binary64_between (lo hi x : Qc) :
  binary64 (Fin lo) = Fin lo → binary64 (Fin hi) = Fin hi →
  (lo ≤ x)%Qc → (x ≤ hi)%Qc →
  ∃ r : Qc, binary64 (Fin x) = Fin r ∧ (lo ≤ r)%Qc ∧ (r ≤ hi)%Qc.
Proof.
  intros Hlo Hhi H1 H2.
  assert (nleb (Fin lo) (Fin x) = true) as L1 by (by apply bool_decide_eq_true).
  assert (nleb (Fin x) (Fin hi) = true) as L2 by (by apply bool_decide_eq_true).
  apply binary64_mono in L1, L2. rewrite Hlo in L1. rewrite Hhi in L2.
  destruct (binary64 (Fin x)) as [| | |r]; try done.
  exists r. simpl in L1, L2. apply bool_decide_eq_true in L1, L2. done.
Qed.

End RoundingFacts.

(** ** Threshold planning *)

Section ThresholdFacts.
Local Open Scope Qc_scope.

(** The quotient of an elevation by a whole interval, as one fraction. *)
Lemma level_quotient (a n : Z) :
  (1 ≤ n)%Z → Q2Qc (a # 256) / Qc_of_Z n = Q2Qc (a # Z.to_pos (256 * n)).
Proof.
  intros Hn. destruct n as [|p|p]; try lia.
  apply Qc_is_canon. unfold Qcdiv, Qcmult, Qcinv, Qc_of_Z. simpl.
  repeat rewrite Qred_correct. unfold Qeq, Qmult, Qinv; simpl. lia.
Qed.

(** The floor and the ceiling of a fraction, by integer inequalities. *)
Lemma floor_frac (a : Z) (d : positive) :
  (Qfloor (Q2Qc (a # d)) * Z.pos d ≤ a < (Qfloor (Q2Qc (a # d)) + 1) * Z.pos d)%Z.
Proof.
  assert (Qfloor (Q2Qc (a # d)) = (a `div` Z.pos d)%Z) as ->.
  { simpl. rewrite (Qfloor_comp _ (a # d)) by apply Qred_correct. reflexivity. }
  pose proof (Z.div_mod a (Z.pos d) ltac:(lia)).
  pose proof (Z.mod_pos_bound a (Z.pos d) ltac:(lia)). lia.
Qed.

Lemma ceiling_frac (a : Z) (d : positive) :
  ((Qceiling (Q2Qc (a # d)) - 1) * Z.pos d < a ≤ Qceiling (Q2Qc (a # d)) * Z.pos d)%Z.
Proof.
  assert (Qceiling (Q2Qc (a # d)) = (- ((- a) `div` Z.pos d))%Z) as ->.
  { unfold Qceiling. f_equal.
    transitivity (Qfloor (- a # d)); [|reflexivity].
    apply Qfloor_comp. simpl. rewrite Qred_correct. reflexivity. }
  pose proof (Z.div_mod (- a) (Z.pos d) ltac:(lia)).
  pose proof (Z.mod_pos_bound (- a) (Z.pos d) ltac:(lia)). lia.
Qed.

(** The quotient of an elevation by a whole interval has a denominator of
    at most [2 ^ 24]: it lies at least [2 ^ -24] below the next integer
    when it is below it, which is more than rounding moves it.  So the floor
    and the ceiling of the rounded quotient are those of the exact one. *)
Lemma floor_rounded_quotient (a n : Z) :
  (Z.abs a ≤ 2 ^ 23)%Z → (1 ≤ n ≤ 2 ^ 16)%Z →
  Math_floor (binary64 (Fin (Q2Qc (a # Z.to_pos (256 * n)))))
  = ofZ (Qfloor (Q2Qc (a # Z.to_pos (256 * n)))).
Proof.
  intros Ha Hn.
  pose proof (floor_frac a (Z.to_pos (256 * n))) as Hk.
  rewrite Z2Pos.id in Hk by lia.
  set (x := Q2Qc (a # Z.to_pos (256 * n))) in *.
  set (k := Qfloor x) in *.
  assert (- 2 ^ 23 - 1 ≤ k ≤ 2 ^ 23)%Z as Hkb by nia.
  destruct (binary64_between (Qc_of_Z k) (Q2Qc (((k + 1) * 2 ^ 24 - 1) # 16777216)) x)
    as (r & -> & Hlo & Hhi).
  - apply binary64_ofZ. lia.
  - apply (binary64_ratio ((k + 1) * 2 ^ 24 - 1) 24); lia.
  - unfold Qcle; simpl. rewrite Qred_correct.
    unfold Qle; simpl. rewrite Z2Pos.id by lia. lia.
  - unfold x. apply Q2Qc_le.
    unfold Qle; simpl. rewrite Z2Pos.id by lia. nia.
  - simpl. f_equal.
    assert (k ≤ Qfloor r)%Z by (by apply Qc_floor_lb).
    assert (Qfloor r < k + 1)%Z; [|lia].
    apply Qc_floor_ub. eapply Qcle_lt_trans; [exact Hhi|].
    unfold Qclt; simpl. rewrite Qred_correct. unfold Qlt; simpl. lia.
Qed.

Lemma ceil_rounded_quotient (a n : Z) :
  (Z.abs a ≤ 2 ^ 23)%Z → (1 ≤ n ≤ 2 ^ 16)%Z →
  Math_ceil (binary64 (Fin (Q2Qc (a # Z.to_pos (256 * n)))))
  = ofZ (Qceiling (Q2Qc (a # Z.to_pos (256 * n)))).
Proof.
  intros Ha Hn.
  pose proof (ceiling_frac a (Z.to_pos (256 * n))) as Hk.
  rewrite Z2Pos.id in Hk by lia.
  set (x := Q2Qc (a # Z.to_pos (256 * n))) in *.
  set (k := Qceiling x) in *.
  assert (- 2 ^ 23 ≤ k ≤ 2 ^ 23 + 1)%Z as Hkb by nia.
  destruct (binary64_between (Q2Qc (((k - 1) * 2 ^ 24 + 1) # 16777216)) (Qc_of_Z k) x)
    as (r & -> & Hlo & Hhi).
  - apply (binary64_ratio ((k - 1) * 2 ^ 24 + 1) 24); lia.
  - apply binary64_ofZ. lia.
  - unfold x. apply Q2Qc_le.
    unfold Qle; simpl. rewrite Z2Pos.id by lia. nia.
  - unfold Qcle; simpl. rewrite Qred_correct.
    unfold Qle; simpl. rewrite Z2Pos.id by lia. lia.
  - simpl. f_equal.
    assert (Qceiling r ≤ k)%Z.
    { rewrite <-(Qceiling_of_Z k). by apply Qceiling_resp_le. }
    assert (k - 1 < Qceiling r)%Z; [|lia].
    apply Qc_ceiling_lb. eapply Qclt_le_trans; [|exact Hlo].
    unfold Qclt; simpl. rewrite Qred_correct. unfold Qlt; simpl. lia.
Qed.

(** The loop over whole numbers: started at the multiple [k * n], it
    pushes the multiples up to [b * n]; no sum is rounded. *)
Lemma threshold_loop (n b : Z) (c : nat) :
  (1 ≤ n ≤ 2 ^ 16)%Z → (b ≤ 2 ^ 24)%Z →
  ∀ (k : Z) (acc : list num) (fuel : nat),
    (- 2 ^ 24 ≤ k)%Z → c = Z.to_nat (b - k + 1) → (c ≤ fuel)%nat →
    forLoop fuel (λ t, nleb t (ofZ (b * n))) (λ t, binary64 (nadd t (ofZ n)))
      (λ t (thresholds : list num), Done (thresholds ++ [t]))
      (ofZ (k * n)) acc
    = Done (acc ++ map (λ j : nat, ofZ ((k + Z.of_nat j) * n)) (seq 0 c)).
Proof.
  intros Hn Hb. induction c as [|c IH]; intros k acc fuel Hk Hc Hfuel.
  - rewrite forLoop_exit; [by rewrite app_nil_r|].
    rewrite nleb_ofZ. apply bool_decide_eq_false.
    assert (0 ≤ (k - b - 1) * n)%Z by (apply Z.mul_nonneg_nonneg; lia). lia.
  - destruct fuel as [|fuel]; [lia|].
    assert (0 ≤ (b - k) * n)%Z by (apply Z.mul_nonneg_nonneg; lia).
    rewrite forLoop_enter by (rewrite nleb_ofZ; apply bool_decide_eq_true; lia).
    rewrite nadd_ofZ, binary64_ofZ by nia.
    replace (k * n + n)%Z with ((k + 1) * n)%Z by lia.
    rewrite IH by lia.
    f_equal. rewrite <-app_assoc. f_equal. simpl. f_equal.
    + by rewrite Z.add_0_r.
    + rewrite <-seq_shift, map_map. apply map_ext. intros j.
      do 2 f_equal. lia.
Qed.

Lemma thresholdsFormula_Fin (m i : Qc) (n : nat) :
  i ≠ 0 →
  thresholdsFormula (Fin m) (Fin i) n
  = map (λ j : nat, Fin (Qc_of_Z (Qfloor (m / i)%Qc + 1 + Z.of_nat j) * i)) (seq 0 n).
Proof.
  intros Hi. unfold thresholdsFormula, ndiv. rewrite decide_False by done.
  rewrite <-seq_shift, map_map. apply map_ext. intros j. simpl. f_equal.
  rewrite !Z2Qc_inj_add, Z2Qc_inj_1.
  replace (Z.of_nat (S j)) with (Z.of_nat j + 1)%Z by lia.
  rewrite Z2Qc_inj_add, Z2Qc_inj_1. ring.
Qed.

Lemma endFormula_Fin (M i : Qc) :
  i ≠ 0 → endFormula (Fin M) (Fin i) = Fin (Qc_of_Z (Qceiling (M / i)%Qc) * i).
Proof. intros Hi. unfold endFormula, ndiv. rewrite decide_False by done. reflexivity. Qed.

Lemma wholeInterval_pos (i : Qc) : wholeInterval i → 0 < i.
Proof. intros (n & Hn & ->). apply (proj1 (Qc_of_Z_pos _)). lia. Qed.

(** For elevations a Terrarium tile can encode and a whole interval no
    step of the plan rounds: [start] and [end] are the exact multiples, and
    the plan completes within [thresholdCount] iterations with the closed
    form. *)
Lemma planThresholds_exact (fuel : nat) (m M i : Qc) :
  terrariumLevel m → terrariumLevel M → wholeInterval i →
  (thresholdCount m M i ≤ fuel)%nat →
  planThresholds fuel (Fin m) (Fin M) (Fin i)
  = Done (thresholdsFormula (Fin m) (Fin i) (thresholdCount m M i))
  ∧ thresholdStart (Fin m) (Fin i) = Fin (Qc_of_Z (Qfloor (m / i)%Qc) * i)
  ∧ thresholdEnd (Fin M) (Fin i) = endFormula (Fin M) (Fin i).
Proof.
  intros (a & Ha & ->) (b & Hb & ->) (n & Hn & ->) Hfuel.
  assert (Qc_of_Z n ≠ 0) as Hi0 by (apply Qc_of_Z_nonzero; lia).
  rewrite thresholdsFormula_Fin, endFormula_Fin by done.
  unfold thresholdCount in *. unfold planThresholds, thresholdStart, thresholdEnd, ndiv.
  rewrite !decide_False by done.
  rewrite !level_quotient in * by lia.
  rewrite floor_rounded_quotient, ceil_rounded_quotient by done.
  pose proof (floor_frac a (Z.to_pos (256 * n))) as Hk.
  pose proof (ceiling_frac b (Z.to_pos (256 * n))) as HK.
  rewrite Z2Pos.id in Hk, HK by lia.
  set (k := Qfloor (Q2Qc (a # Z.to_pos (256 * n)))) in *.
  set (K := Qceiling (Q2Qc (b # Z.to_pos (256 * n)))) in *.
  assert (- 2 ^ 23 - 1 ≤ k ≤ 2 ^ 23)%Z as Hkb by nia.
  assert (- 2 ^ 23 ≤ K ≤ 2 ^ 23 + 1)%Z as HKb by nia.
  change (Fin (Qc_of_Z n)) with (ofZ n).
  rewrite !nmul_ofZ, !binary64_ofZ by nia.
  rewrite nadd_ofZ, binary64_ofZ by nia.
  replace (k * n + n)%Z with ((k + 1) * n)%Z by lia.
  rewrite (threshold_loop n K (Z.to_nat (K - k))); [|lia|lia|lia|lia|done].
  split; [|split].
  - f_equal. simpl. apply map_ext. intros j. unfold ofZ. by rewrite Z2Qc_inj_mul.
  - unfold ofZ. by rewrite Z2Qc_inj_mul.
  - unfold ofZ. by rewrite Z2Qc_inj_mul.
Qed.

(** After the range check (max above min) the exact count is at least
    one. *)
Lemma thresholdCount_pos (m M i : Qc) : 0 < i → m < M → (1 ≤ thresholdCount m M i)%nat.
Proof.
  intros Hi HmM. unfold thresholdCount.
  assert (Qfloor (m / i)%Qc < Qceiling (M / i)%Qc)%Z; [|lia].
  apply Qc_ceiling_lb. eapply Qcle_lt_trans; [apply Qc_floor_le|].
  unfold Qcdiv. apply Qcmult_lt_mono_pos_r; [|done].
  by apply Qcinv_pos.
Qed.

(** A [NaN] or infinite interval plans nothing. *)
Lemma planThresholds_NaN (fuel : nat) (minE maxE : num) :
  planThresholds fuel minE maxE NaN = Done [].
Proof.
  unfold planThresholds, thresholdStart.
  apply forLoop_exit.
  assert (ndiv minE NaN = NaN) as -> by (by destruct minE).
  done.
Qed.

Lemma planThresholds_PInf (fuel : nat) (minE maxE : num) :
  planThresholds fuel minE maxE PInf = Done [].
Proof.
  unfold planThresholds, thresholdStart.
  apply forLoop_exit. by destruct minE.
Qed.

(** A loop that does not move does not end. *)
Lemma forLoop_stuck {St : Type} (fuel : nat) (cond : num → bool) (step : num → num)
    (body : num → St → res St) (v : num) (s : St) :
  cond v = true → step v = v → (∀ s, ∃ s', body v s = Done s') →
  ∃ s', forLoop fuel cond step body v s = Hang s'.
Proof.
  intros Hc Hstep Hbody. revert s.
  induction fuel as [|fuel IH]; intros s; simpl; rewrite Hc; [by eexists|].
  destruct (Hbody s) as [s' ->]. rewrite Hstep. apply IH.
Qed.

(** What a completed run of a pushing loop has pushed: the counter values
    from the first on, each the step of the one before, all of them passing
    the test, the step of the last one failing it. *)
Lemma push_loop (cond : num → bool) (step : num → num) :
  ∀ (fuel : nat) (t : num) (acc ts : list num),
    forLoop fuel cond step (λ t (thresholds : list num), Done (thresholds ++ [t])) t acc
    = Done ts →
    ∃ l : list num,
      ts = acc ++ l
      ∧ Forall (λ u, cond u = true) l
      ∧ head l = (if cond t then Some t else None)
      ∧ (∀ (k : nat) (u v : num), l !! k = Some u → l !! S k = Some v → v = step u)
      ∧ (∀ u : num, last l = Some u → cond (step u) = false).
Proof.
  induction fuel as [|fuel IH]; intros t acc ts; simpl.
  - destruct (cond t) eqn:Hc; [done|]. intros [= <-]. exists [].
    rewrite app_nil_r. by repeat split.
  - destruct (cond t) eqn:Hc.
    2:{ intros [= <-]. exists []. rewrite app_nil_r. by repeat split. }
    intros (l & -> & Hall & Hhead & Hstep & Hlast)%IH.
    exists (t :: l). split; [by rewrite <-app_assoc|].
    split; [by constructor|]. split; [done|]. split.
    + intros [|k] u v Hu Hv; simpl in Hu, Hv.
      * injection Hu as <-. destruct l as [|w l]; [done|]. simpl in Hv, Hhead.
        injection Hv as <-. destruct (cond (step t)); [|done]. by injection Hhead.
      * by eapply Hstep.
    + intros u Hu. destruct l as [|w l].
      * simpl in Hu. injection Hu as <-. simpl in Hhead.
        by destruct (cond (step t)).
      * apply Hlast. by rewrite last_cons_cons in Hu.
Qed.

(** The plan in double precision, for any range and interval: the first
    threshold is the rounded sum [start + interval] when that is [<= end],
    each further one is the rounded sum of the one before and the interval,
    all are [<= end], and the rounded sum after the last is not. *)
Lemma plan_chain (fuel : nat) (m M i : num) (ts : list num) :
  planThresholds fuel m M i = Done ts →
  Forall (λ t, nleb t (thresholdEnd M i) = true) ts
  ∧ head ts
    = (if nleb (binary64 (nadd (thresholdStart m i) i)) (thresholdEnd M i)
       then Some (binary64 (nadd (thresholdStart m i) i)) else None)
  ∧ (∀ (k : nat) (t t' : num),
       ts !! k = Some t → ts !! S k = Some t' → t' = binary64 (nadd t i))
  ∧ (∀ t : num,
       last ts = Some t → nleb (binary64 (nadd t i)) (thresholdEnd M i) = false).
Proof.
  unfold planThresholds.
  intros (l & -> & Hall & Hhead & Hstep & Hlast)%push_loop. done.
Qed.

End ThresholdFacts.

(** ** C7: the Terrarium decoding law *)

Lemma channel_byte (png : PNG) (k : Z) (c : Byte.byte) :
  data png k = Some c → channel png (ofZ k) = ofZ (Z.of_N (Byte.to_N c)).
Proof. intros Hc. unfold channel. by rewrite asInteger_ofZ, Hc. Qed.

(** C7. For every triple of channel bytes the decoder returns exactly
    [c0*256 + c1 + c2/256 - 32768]: the same rational, which is
    [(65536*c0 + 256*c1 + c2 - 8388608) / 256]; and this is what the stitcher
    decodes from three consecutive bytes of a tile buffer. *)
Theorem decodeTerrarium_law (c0 c1 c2 : Byte.byte) :
  let r := Z.of_N (Byte.to_N c0) in
  let g := Z.of_N (Byte.to_N c1) in
  let b := Z.of_N (Byte.to_N c2) in
  decodeTerrarium (ofZ r) (ofZ g) (ofZ b)
    = Fin (Qc_of_Z r * Qc_of_Z 256 + Qc_of_Z g + Qc_of_Z b / Qc_of_Z 256
           - Qc_of_Z 32768)%Qc
  ∧ decodeTerrarium (ofZ r) (ofZ g) (ofZ b)
    = ratio (65536 * r + 256 * g + b - 8388608) 256
  ∧ ∀ (png : PNG) (si : Z),
      data png si = Some c0 → data png (si + 1) = Some c1 →
      data png (si + 2) = Some c2 →
      decodeTerrarium (channel png (ofZ si)) (channel png (nadd (ofZ si) (ofZ 1)))
                      (channel png (nadd (ofZ si) (ofZ 2)))
      = ratio (65536 * r + 256 * g + b - 8388608) 256.
Proof.
  intros r g b.
  assert (Qc_of_Z 256 ≠ 0%Qc) as H256 by (by apply Qc_of_Z_nonzero).
  assert (decodeTerrarium (ofZ r) (ofZ g) (ofZ b)
          = Fin (Qc_of_Z r * Qc_of_Z 256 + Qc_of_Z g + Qc_of_Z b / Qc_of_Z 256
                 - Qc_of_Z 32768)%Qc) as Hlaw.
  { unfold decodeTerrarium, ofZ, ndiv. rewrite decide_False by done. reflexivity. }
  assert (decodeTerrarium (ofZ r) (ofZ g) (ofZ b)
          = ratio (65536 * r + 256 * g + b - 8388608) 256) as Hratio.
  { rewrite Hlaw, ratio_div. unfold ofZ, ndiv. rewrite decide_False by done.
    f_equal. rewrite Z2Qc_inj_sub, !Z2Qc_inj_add, !Z2Qc_inj_mul.
    change 8388608%Z with (32768 * 256)%Z. change 65536%Z with (256 * 256)%Z.
    rewrite !Z2Qc_inj_mul. field. done. }
  split; [done|]. split; [done|].
  intros png si H0 H1 H2. rewrite !nadd_ofZ.
  by rewrite (channel_byte _ _ _ H0), (channel_byte _ _ _ H1), (channel_byte _ _ _ H2).
Qed.

(** ** C1 and C2: the threshold plan *)

Lemma thresholdsFormula_le_end (m M i : Qc) :
  (0 < i)%Qc →
  Forall (λ t, nleb t (endFormula (Fin M) (Fin i)) = true)
    (thresholdsFormula (Fin m) (Fin i) (thresholdCount m M i)).
Proof.
  intros Hi. assert (i ≠ 0%Qc) as Hi0 by (by apply not_symmetry, Qclt_not_eq).
  rewrite thresholdsFormula_Fin, endFormula_Fin by done.
  apply Forall_map, Forall_forall. intros j [_ Hj]%elem_of_seq. simpl in Hj.
  apply nleb_Fin. apply Qcmult_le_mono_pos_r; [done|].
  rewrite <-Z2Qc_inj_le. unfold thresholdCount in Hj. lia.
Qed.

Lemma thresholds_next_beyond_end (m M i : Qc) :
  (0 < i)%Qc →
  nleb (nadd (nmul (Math_floor (ndiv (Fin m) (Fin i))) (Fin i))
             (nmul (ofZ (Z.of_nat (thresholdCount m M i) + 1)) (Fin i)))
       (endFormula (Fin M) (Fin i)) = false.
Proof.
  intros Hi. assert (i ≠ 0%Qc) as Hi0 by (by apply not_symmetry, Qclt_not_eq).
  rewrite endFormula_Fin by done. unfold ndiv. rewrite decide_False by done.
  unfold Math_floor, ofZ, nmul, nadd. apply nleb_Fin_false.
  rewrite <-Qcmult_plus_distr_l, <-Z2Qc_inj_add.
  apply Qcmult_lt_mono_pos_r; [done|].
  rewrite <-Z2Qc_inj_lt. unfold thresholdCount. lia.
Qed.

Lemma terrariumLevel_ofZ (z : Z) : Z.abs z ≤ 2 ^ 15 → terrariumLevel (Qc_of_Z z).
Proof.
  intros Hz. exists (z * 256). split; [lia|].
  apply Qc_is_canon. simpl. rewrite Qred_correct. unfold Qeq; simpl. lia.
Qed.

Lemma wholeInterval_ofZ (n : Z) : 1 ≤ n ≤ 2 ^ 16 → wholeInterval (Qc_of_Z n).
Proof. intros Hn. by exists n. Qed.

Lemma plan_105_242_30 (fuel : nat) :
  (6 ≤ fuel)%nat →
  planThresholds fuel (ofZ 105) (ofZ 242) (ofZ 30)
  = Done [ofZ 120; ofZ 150; ofZ 180; ofZ 210; ofZ 240; ofZ 270].
Proof.
  intros Hfuel. unfold ofZ at 1 2 3.
  rewrite (proj1 (planThresholds_exact fuel _ _ _
                    (terrariumLevel_ofZ 105 ltac:(lia))
                    (terrariumLevel_ofZ 242 ltac:(lia))
                    (wholeInterval_ofZ 30 ltac:(lia))
                    ltac:(by vm_compute))).
  f_equal. compute_done.
Qed.

Lemma plan_100_110_50 (fuel : nat) :
  (1 ≤ fuel)%nat →
  planThresholds fuel (ofZ 100) (ofZ 110) (ofZ 50) = Done [ofZ 150].
Proof.
  intros Hfuel. unfold ofZ at 1 2 3.
  rewrite (proj1 (planThresholds_exact fuel _ _ _
                    (terrariumLevel_ofZ 100 ltac:(lia))
                    (terrariumLevel_ofZ 110 ltac:(lia))
                    (wholeInterval_ofZ 50 ltac:(lia))
                    ltac:(by vm_compute))).
  f_equal. compute_done.
Qed.

(** Where a step rounds the plan is not the closed form.  With the
    interval 0.1 (as a binary64 number) over 0 to 1.5 the sums fall short of
    the multiples and the fifteenth threshold, 1.5, is not planned. *)
Lemma plan_rounded_sums :
  ∃ ts : list num,
    planThresholds 15 (ofZ 0) (ratio 3 2) (binary64 (ratio 1 10)) = Done ts
    ∧ length ts = 14%nat
    ∧ length (thresholdsFormula (ofZ 0) (binary64 (ratio 1 10)) 15) = 15%nat
    ∧ Forall (λ t, nleb t (endFormula (ratio 3 2) (binary64 (ratio 1 10))) = true)
        (thresholdsFormula (ofZ 0) (binary64 (ratio 1 10)) 15).
Proof.
  eexists. split; [vm_compute; reflexivity|].
  split; [reflexivity|]. split; [reflexivity|].
  apply Forall_forall. intros t Ht.
  repeat (apply elem_of_cons in Ht as [->|Ht]; [vm_compute; reflexivity|]).
  by apply elem_of_nil in Ht.
Qed.

(** With the interval 30.48 over 336 to 365 the first sum exceeds [end] by
    rounding and nothing is planned. *)
Lemma plan_rounded_empty (fuel : nat) :
  planThresholds fuel (ofZ 336) (ofZ 365) (binary64 (ratio 762 25)) = Done [].
Proof. unfold planThresholds. apply forLoop_exit. vm_compute. reflexivity. Qed.

(** With an interval too small to change the sum the loop does not end. *)
Lemma plan_does_not_advance (fuel : nat) :
  ∃ ts : list num,
    planThresholds fuel (ofZ 16384) (ofZ 16385) (binary64 (ratio 1 10000000000000))
    = Hang ts.
Proof.
  unfold planThresholds. apply forLoop_stuck.
  - vm_compute. reflexivity.
  - vm_compute. reflexivity.
  - intros s. by eexists.
Qed.

(** C1 (amended). The planner computes [start], [end] and the sums in
    binary64.  For elevations a Terrarium tile can encode and a whole
    interval from 1 to 65536 no step rounds, and the planner returns
    [start + k * interval] for [k = 1, 2, ...] while [<= end], with
    [start = floor(min/interval) * interval] and
    [end = ceil(max/interval) * interval]: every planned value is [<= end]
    and the next multiple is not.  For min 105, max 242, interval 30 these are
    the six thresholds 120, 150, 180, 210, 240, 270: the multiple equal to
    [end] is included.  For any range and interval a completed plan is the
    chain of the rounded sums: it starts at [start + interval], each
    threshold is the one before plus the interval, all are [<= end] and the
    sum after the last is not. *)
Theorem threshold_plan_formula (fuel : nat) (m M i : Qc) :
  terrariumLevel m → terrariumLevel M → wholeInterval i →
  (thresholdCount m M i ≤ fuel)%nat →
  planThresholds fuel (Fin m) (Fin M) (Fin i)
    = Done (thresholdsFormula (Fin m) (Fin i) (thresholdCount m M i))
  ∧ thresholdEnd (Fin M) (Fin i) = endFormula (Fin M) (Fin i)
  ∧ Forall (λ t, nleb t (endFormula (Fin M) (Fin i)) = true)
      (thresholdsFormula (Fin m) (Fin i) (thresholdCount m M i))
  ∧ nleb (nadd (nmul (Math_floor (ndiv (Fin m) (Fin i))) (Fin i))
               (nmul (ofZ (Z.of_nat (thresholdCount m M i) + 1)) (Fin i)))
         (endFormula (Fin M) (Fin i)) = false
  ∧ (∀ fuel', (6 ≤ fuel')%nat →
       planThresholds fuel' (ofZ 105) (ofZ 242) (ofZ 30)
       = Done [ofZ 120; ofZ 150; ofZ 180; ofZ 210; ofZ 240; ofZ 270])
  ∧ ∀ (fuel' : nat) (minE maxE intervalM : num) (ts : list num),
      planThresholds fuel' minE maxE intervalM = Done ts →
      Forall (λ t, nleb t (thresholdEnd maxE intervalM) = true) ts
      ∧ head ts
        = (if nleb (binary64 (nadd (thresholdStart minE intervalM) intervalM))
                   (thresholdEnd maxE intervalM)
           then Some (binary64 (nadd (thresholdStart minE intervalM) intervalM))
           else None)
      ∧ (∀ (k : nat) (t t' : num),
           ts !! k = Some t → ts !! S k = Some t' → t' = binary64 (nadd t intervalM))
      ∧ (∀ t : num,
           last ts = Some t →
           nleb (binary64 (nadd t intervalM)) (thresholdEnd maxE intervalM) = false).
Proof.
  intros Hm HM Hi Hfuel.
  destruct (planThresholds_exact fuel m M i Hm HM Hi Hfuel) as (Hplan & _ & Hend).
  pose proof (wholeInterval_pos i Hi) as Hpos.
  split; [done|]. split; [done|].
  split; [by apply thresholdsFormula_le_end|].
  split; [by apply thresholds_next_beyond_end|].
  split; [apply plan_105_242_30|].
  intros fuel' minE maxE intervalM ts. apply plan_chain.
Qed.

Lemma threshold_plan_formula_witness :
  planThresholds 6 (ofZ 105) (ofZ 242) (ofZ 30)
  = Done (thresholdsFormula (ofZ 105) (ofZ 30) 6).
Proof.
  refine (proj1 (threshold_plan_formula 6 (Qc_of_Z 105) (Qc_of_Z 242) (Qc_of_Z 30)
                   _ _ _ _)).
  - exists 26880. split; [vm_compute; discriminate|]. apply Qc_is_canon. reflexivity.
  - exists 61952. split; [vm_compute; discriminate|]. apply Qc_is_canon. reflexivity.
  - exists 30. split; [lia|reflexivity].
  - vm_compute. lia.
Defined.

(** C1 as stated fails: for 105, 242, 30 the planner returns six thresholds,
    not the five [120, 150, 180, 210, 240]. *)
Lemma threshold_plan_not_five :
  planThresholds 6 (ofZ 105) (ofZ 242) (ofZ 30)
    = Done [ofZ 120; ofZ 150; ofZ 180; ofZ 210; ofZ 240; ofZ 270]
  ∧ planThresholds 6 (ofZ 105) (ofZ 242) (ofZ 30)
    ≠ Done [ofZ 120; ofZ 150; ofZ 180; ofZ 210; ofZ 240].
Proof.
  rewrite plan_105_242_30 by lia. split; [done|]. intros [=].
Qed.

Section PlanAndLayers.
Context `{Platform}.

(** The check of line 166: an empty plan is answered with the no-layers
    response, and only an empty plan is. *)
Lemma layerStage_empty fuel body reqs s :
  planThresholds fuel (minE s) (maxE s) (intervalM body) = Done [] →
  layerStage fuel body reqs s = respond reqs NoLayersProduced.
Proof. intros E. unfold layerStage. by rewrite E. Qed.

Lemma layerStage_nonempty fuel body reqs s t ts :
  planThresholds fuel (minE s) (maxE s) (intervalM body) = Done (t :: ts) →
  response (layerStage fuel body reqs s) ≠ Some NoLayersProduced.
Proof.
  intros E. unfold layerStage. rewrite E.
  rewrite decide_False by done.
  by destruct (d3Contours _ _ _).
Qed.

End PlanAndLayers.

(** C2 (the claim fails on the code).  An empty plan is answered with the
    no-layers response.  But for a range of 100 to 110 m and an interval of
    50 m the plan is not empty: [end = ceil(110/50) * 50 = 150] and the loop
    runs while [t <= end], so 150 is planned.  No sample reaches 150, no
    layer is written, and the request over a tile of 100 m and 110 m is
    answered with a download that holds only README.txt, reporting 0 layers,
    where the claim requires the no-layers failure. *)
Theorem flat_relief_not_rejected :
  (∀ (P : Platform) (fuel : nat) (body : Body) (reqs : list (num * num)) (s : Sampling),
     planThresholds fuel (minE s) (maxE s) (intervalM body) = Done [] →
     @layerStage P fuel body reqs s = respond reqs NoLayersProduced)
  ∧ (∀ fuel : nat,
       planThresholds (S fuel) (ofZ 100) (ofZ 110) (ofZ 50) = Done [ofZ 150])
  ∧ @POST (demoPlatform stepTile) 256 (demoBody (ofZ 50))
    = {| fetched := [(ofZ 2048, ofZ 2048)]; response := Some (ZipDownload emptyZip) |}
  ∧ emptyZip
    = [ ("README.txt"%string,
         ReadmeFile {| readme_min := ofZ 100; readme_max := ofZ 110;
                       readme_interval := ofZ 50; readme_grid := ofZ 64;
                       readme_written := 0 |}) ].
Proof.
  split; [intros P fuel body reqs s; apply layerStage_empty|].
  split; [intros fuel; apply plan_100_110_50; lia|].
  split; [compute_done|reflexivity].
Qed.

(** ** C4: the tile range *)

Section TileRangeFacts.
Local Open Scope Qc_scope.

Lemma Math_min_Fin (a c : Qc) :
  ∃ m, Math_min (Fin a) (Fin c) = Fin m ∧ m ≤ a ∧ m ≤ c ∧ (m = a ∨ m = c).
Proof.
  unfold Math_min. destruct (nltb (Fin c) (Fin a)) eqn:E.
  - apply nltb_Fin in E. exists c. repeat split; auto using Qclt_le_weak.
  - apply nltb_Fin_false in E. exists a. repeat split; auto.
Qed.

Lemma Math_max_Fin (a c : Qc) :
  ∃ m, Math_max (Fin a) (Fin c) = Fin m ∧ a ≤ m ∧ c ≤ m ∧ (m = a ∨ m = c).
Proof.
  unfold Math_max. destruct (nltb (Fin a) (Fin c)) eqn:E.
  - apply nltb_Fin in E. exists c. repeat split; auto using Qclt_le_weak.
  - apply nltb_Fin_false in E. exists a. repeat split; auto.
Qed.

(** On one axis, two finite coordinates give integer indices
    [x0 = floor (min a c) <= x1 = floor (max a c)]; both coordinates lie in
    the tiles [x0 .. x1]. *)
Lemma axis_indices (a c : Qc) :
  ∃ x0 x1 : Z,
    Math_floor (Math_min (Fin a) (Fin c)) = ofZ x0
    ∧ Math_floor (Math_max (Fin a) (Fin c)) = ofZ x1
    ∧ (x0 ≤ x1)%Z
    ∧ Qc_of_Z x0 ≤ a ∧ a < Qc_of_Z (x1 + 1)
    ∧ Qc_of_Z x0 ≤ c ∧ c < Qc_of_Z (x1 + 1)
    ∧ (a < Qc_of_Z (x0 + 1) ∨ c < Qc_of_Z (x0 + 1))
    ∧ (Qc_of_Z x1 ≤ a ∨ Qc_of_Z x1 ≤ c).
Proof.
  destruct (Math_min_Fin a c) as (lo & -> & Hloa & Hloc & Hlo).
  destruct (Math_max_Fin a c) as (hi & -> & Hahi & Hchi & Hhi).
  exists (Qfloor lo), (Qfloor hi). simpl.
  assert (lo ≤ hi) by (by etrans).
  pose proof (Qc_floor_le lo). pose proof (Qc_lt_floor lo).
  pose proof (Qc_floor_le hi). pose proof (Qc_lt_floor hi).
  repeat split; try done.
  - by apply Qc_floor_mono.
  - by etrans.
  - by eapply Qcle_lt_trans.
  - by etrans.
  - by eapply Qcle_lt_trans.
  - destruct Hlo as [<-| <-]; auto.
  - destruct Hhi as [<-| <-]; auto.
Qed.

(** The extent of an axis is a count of at least one tile when both
    coordinates are finite, and [NaN] or [+Infinity] otherwise. *)
Lemma axisExtent_cases (u v : num) :
  (∃ (a c : Qc) (x0 x1 : Z),
      u = Fin a ∧ v = Fin c
      ∧ Math_floor (Math_min u v) = ofZ x0 ∧ Math_floor (Math_max u v) = ofZ x1
      ∧ (x0 ≤ x1)%Z ∧ axisExtent u v = ofZ (x1 - x0 + 1))
  ∨ axisExtent u v = NaN ∨ axisExtent u v = PInf.
Proof.
  destruct u as [| | |a], v as [| | |c]; try (right; by auto).
  left. destruct (axis_indices a c) as (x0 & x1 & E0 & E1 & Hle & _).
  exists a, c, x0, x1. repeat split; try done.
  unfold axisExtent. by rewrite E0, E1, nsub_ofZ, nadd_ofZ.
Qed.

Lemma tileCountOf_axes (tl br : Point) :
  tileCountOf (tileRange tl br)
  = nmul (axisExtent (pt_x tl) (pt_x br)) (axisExtent (pt_y tl) (pt_y br)).
Proof. reflexivity. Qed.

(** A tile count that compares below 64 comes from four finite coordinates:
    the range is an integer rectangle of at most 64 tiles. *)
Lemma tileCount_le_64 (tl br : Point) :
  nleb (tileCountOf (tileRange tl br)) (ofZ 64) = true →
  ∃ x0 x1 y0 y1 : Z,
    tileRange tl br = {| xMin := ofZ x0; xMax := ofZ x1; yMin := ofZ y0; yMax := ofZ y1 |}
    ∧ (x0 ≤ x1)%Z ∧ (y0 ≤ y1)%Z
    ∧ ((x1 - x0 + 1) * (y1 - y0 + 1) ≤ 64)%Z
    ∧ isFinite (pt_x tl) = true ∧ isFinite (pt_x br) = true
    ∧ isFinite (pt_y tl) = true ∧ isFinite (pt_y br) = true.
Proof.
  rewrite tileCountOf_axes.
  destruct (axisExtent_cases (pt_x tl) (pt_x br))
    as [(a & c & x0 & x1 & Ea & Ec & E0 & E1 & Hx & ->)|[-> | ->]];
  destruct (axisExtent_cases (pt_y tl) (pt_y br))
    as [(b & d & y0 & y1 & Eb & Ed & F0 & F1 & Hy & ->)|[-> | ->]];
    try done.
  - rewrite nmul_ofZ, nleb_ofZ. intros Hc%bool_decide_eq_true.
    exists x0, x1, y0, y1. unfold tileRange. rewrite E0, E1, F0, F1.
    rewrite Ea, Ec, Eb, Ed. done.
  - unfold ofZ, nmul. intros Hc. exfalso.
    assert (Qc_of_Z (x1 - x0 + 1) > 0) as Hpos by (apply (proj1 (Qc_of_Z_pos _)); lia).
    apply Qcgt_alt in Hpos. by rewrite Hpos in Hc.
  - unfold ofZ, nmul. intros Hc. exfalso.
    assert (Qc_of_Z (y1 - y0 + 1) > 0) as Hpos by (apply (proj1 (Qc_of_Z_pos _)); lia).
    apply Qcgt_alt in Hpos. by rewrite Hpos in Hc.
Qed.

End TileRangeFacts.




(** ** C3: the tile-count guard *)

Section StageFacts.
Context `{Platform}.

Lemma fetched_layerStage fuel body reqs s :
  fetched (layerStage fuel body reqs s) = reqs.
Proof.
  unfold layerStage. destruct (planThresholds _ _ _ _) as [ts| |]; try done.
  destruct (decide _); [done|]. by destruct (d3Contours _ _ _).
Qed.

Lemma fetched_sampleStage fuel body tl br g W H' st :
  fetched (sampleStage fuel body tl br g W H' st) = requests st.
Proof.
  unfold sampleStage. destruct (newFloat32Array _); [|done].
  destruct (sampleGrid _ _ _ _ _ _ _) as [s| |]; try done.
  destruct (degenerate _ _); [done|apply fetched_layerStage].
Qed.

Lemma afterGuard_layerStage fuel body reqs s :
  afterGuard (response (layerStage fuel body reqs s)).
Proof.
  unfold layerStage. destruct (planThresholds _ _ _ _) as [ts| |]; try done.
  destruct (decide _); [done|]. by destruct (d3Contours _ _ _).
Qed.

Lemma afterGuard_sampleStage fuel body tl br g W H' st :
  afterGuard (response (sampleStage fuel body tl br g W H' st)).
Proof.
  unfold sampleStage. destruct (newFloat32Array _); [|done].
  destruct (sampleGrid _ _ _ _ _ _ _) as [s| |]; try done.
  destruct (degenerate _ _); [done|apply afterGuard_layerStage].
Qed.

Lemma afterGuard_stitchStage fuel body z tl br g :
  afterGuard (response (stitchStage fuel body z tl br g)).
Proof.
  unfold stitchStage. destruct (newFloat32Array _); [|done].
  destruct (stitchTiles _ _ _ _ _) as [s| |]; try done.
  apply afterGuard_sampleStage.
Qed.

(** Requests are only ever added, at the end of the log. *)
Lemma copyTile_requests fuel png g W tx ty st :
  requests (res_state (copyTile fuel png g W tx ty st)) = requests st.
Proof.
  unfold copyTile.
  apply (forLoop_preserved (λ s s', requests s' = requests s)); [done|congruence|].
  intros py s.
  apply (forLoop_preserved (λ s s', requests s' = requests s)); [done|congruence|].
  done.
Qed.

Lemma stitchTile_requests fuel z g W ty tx st :
  requests (res_state (stitchTile fuel z g W ty tx st)) = requests st ++ [(tx, ty)].
Proof.
  unfold stitchTile. destruct (fetchPng z tx ty); [|done].
  by rewrite copyTile_requests.
Qed.





Lemma newFloat32Array_ofZ (k : Z) :
  (0 ≤ k ≤ 2 ^ 53 - 1)%Z →
  newFloat32Array (ofZ k) = Some {| ta_length := k; ta_cells := ∅ |}.
Proof.
  intros Hk. unfold newFloat32Array, ofZ.
  assert (0 ≤ Qc_of_Z k)%Qc as Hpos by (apply (proj1 (Z2Qc_inj_le 0 k)); lia).
  rewrite (decide_True _ _ Hpos), Qfloor_of_Z. by rewrite decide_True.
Qed.



End StageFacts.


(** ** C10: nearest-neighbour reads stay inside the raster *)

Section NearestSampleFacts.

Lemma Math_min_ofZ (a b : Z) : Math_min (ofZ a) (ofZ b) = ofZ (Z.min a b).
Proof.
  unfold Math_min. change (nltb (ofZ b) (ofZ a)) with (nltb (ofZ b) (ofZ a)).
  unfold ofZ at 1 2. cbv beta iota. fold (ofZ a) (ofZ b). rewrite nltb_ofZ.
  case_bool_decide; f_equal; lia.
Qed.

Lemma Math_max_ofZ (a b : Z) : Math_max (ofZ a) (ofZ b) = ofZ (Z.max a b).
Proof.
  unfold Math_max. unfold ofZ at 1 2. cbv beta iota. fold (ofZ a) (ofZ b).
  rewrite nltb_ofZ. case_bool_decide; f_equal; lia.
Qed.

Lemma clamp_ofZ (n a b : Z) :
  clamp (ofZ n) (ofZ a) (ofZ b) = ofZ (Z.max a (Z.min b n)).
Proof. unfold clamp. by rewrite Math_min_ofZ, Math_max_ofZ. Qed.

Lemma Math_round_Fin (x : Qc) :
  Math_round (Fin x) = ofZ (Qfloor (x + Q2Qc (1 # 2))%Qc).
Proof. reflexivity. Qed.

Lemma ta_index_ofZ (a : Float32Array) (k : Z) :
  (0 ≤ k < ta_length a)%Z → ta_index a (ofZ k) = Some k.
Proof. intros Hk. unfold ta_index. rewrite asInteger_ofZ. by rewrite decide_True. Qed.

Lemma ta_get_ofZ (a : Float32Array) (k : Z) :
  (0 ≤ k < ta_length a)%Z →
  ta_get a (ofZ k) = Some (default (ofZ 0) (ta_cells a !! k)).
Proof. intros Hk. unfold ta_get. by rewrite ta_index_ofZ. Qed.

(** The clamped, rounded coordinates of a finite sample point are integer
    indices inside a [w] x [h] raster, and the read finds a cell. *)
Lemma nearestSample_cell (src : Float32Array) (w h : Z) (x y : Qc) :
  (1 ≤ w)%Z → (1 ≤ h)%Z → ta_length src = (w * h)%Z →
  ∃ i j : Z,
    clamp (Math_round (Fin x)) (ofZ 0) (nsub (ofZ w) (ofZ 1)) = ofZ i
    ∧ clamp (Math_round (Fin y)) (ofZ 0) (nsub (ofZ h) (ofZ 1)) = ofZ j
    ∧ (0 ≤ i ≤ w - 1)%Z ∧ (0 ≤ j ≤ h - 1)%Z
    ∧ (0 ≤ j * w + i < ta_length src)%Z
    ∧ ta_index src (nadd (nmul (ofZ j) (ofZ w)) (ofZ i)) = Some (j * w + i)%Z
    ∧ nearestSample src (ofZ w) (ofZ h) (Fin x) (Fin y)
      = Some (default (ofZ 0) (ta_cells src !! (j * w + i)%Z)).
Proof.
  intros Hw Hh Hlen.
  set (i := Z.max 0 (Z.min (w - 1) (Qfloor (x + Q2Qc (1 # 2))%Qc))).
  set (j := Z.max 0 (Z.min (h - 1) (Qfloor (y + Q2Qc (1 # 2))%Qc))).
  assert (clamp (Math_round (Fin x)) (ofZ 0) (nsub (ofZ w) (ofZ 1)) = ofZ i) as Ei.
  { by rewrite Math_round_Fin, nsub_ofZ, clamp_ofZ. }
  assert (clamp (Math_round (Fin y)) (ofZ 0) (nsub (ofZ h) (ofZ 1)) = ofZ j) as Ej.
  { by rewrite Math_round_Fin, nsub_ofZ, clamp_ofZ. }
  assert (0 ≤ i ≤ w - 1)%Z as Hi by (subst i; lia).
  assert (0 ≤ j ≤ h - 1)%Z as Hj by (subst j; lia).
  assert (0 ≤ j * w + i < ta_length src)%Z as Hidx by (rewrite Hlen; nia).
  exists i, j. repeat split; try done; try lia.
  - rewrite nmul_ofZ, nadd_ofZ. by apply ta_index_ofZ.
  - unfold nearestSample. rewrite Ei, Ej, nmul_ofZ, nadd_ofZ. by apply ta_get_ofZ.
Qed.

(** Sample coordinates are finite when the pixel rectangle is finite and the
    grid size is a finite number other than 1. *)
Lemma sampleX_finite (rect : PixelRect) (n : Qc) (i : Z) :
  isFinite (pxWest rect) = true → isFinite (pxEast rect) = true →
  n ≠ 1%Qc → isFinite (sampleX rect (Fin n) (ofZ i)) = true.
Proof.
  intros Hw He Hn. unfold sampleX.
  destruct (pxWest rect), (pxEast rect); try done.
  unfold ofZ, nsub, nadd, nneg, ndiv.
  rewrite decide_False; [done|].
  intros E. apply Hn. rewrite <-(Qcplus_0_l 1), <-E, <-Z2Qc_inj_1. ring.
Qed.

Lemma sampleY_finite (rect : PixelRect) (n : Qc) (j : Z) :
  isFinite (pxNorth rect) = true → isFinite (pxSouth rect) = true →
  n ≠ 1%Qc → isFinite (sampleY rect (Fin n) (ofZ j)) = true.
Proof.
  intros Hw He Hn. unfold sampleY.
  destruct (pxNorth rect), (pxSouth rect); try done.
  unfold ofZ, nsub, nadd, nneg, ndiv.
  rewrite decide_False; [done|].
  intros E. apply Hn. rewrite <-(Qcplus_0_l 1), <-E, <-Z2Qc_inj_1. ring.
Qed.

Lemma isFinite_Fin (a : num) : isFinite a = true → ∃ q, a = Fin q.
Proof. destruct a; try done. eauto. Qed.

(** C10. For a raster of width [w >= 1] and height [h >= 1] and any finite
    sample coordinate, however far outside, [nearestSample] clamps the rounded
    indices into [0, w-1] x [0, h-1] and reads an existing element of the
    array.  In the resampling pass the coordinates are finite (finite pixel
    rectangle, finite grid size other than 1), so the read of every grid cell
    [(i, j)] is in bounds. *)
Theorem nearestSample_in_bounds (src : Float32Array) (w h : Z) :
  (1 ≤ w)%Z → (1 ≤ h)%Z → ta_length src = (w * h)%Z →
  (∀ x y : Qc,
     ∃ i j : Z,
       clamp (Math_round (Fin x)) (ofZ 0) (nsub (ofZ w) (ofZ 1)) = ofZ i
       ∧ clamp (Math_round (Fin y)) (ofZ 0) (nsub (ofZ h) (ofZ 1)) = ofZ j
       ∧ (0 ≤ i ≤ w - 1)%Z ∧ (0 ≤ j ≤ h - 1)%Z
       ∧ (0 ≤ j * w + i < ta_length src)%Z
       ∧ ta_index src (nadd (nmul (ofZ j) (ofZ w)) (ofZ i)) = Some (j * w + i)%Z
       ∧ nearestSample src (ofZ w) (ofZ h) (Fin x) (Fin y)
         = Some (default (ofZ 0) (ta_cells src !! (j * w + i)%Z)))
  ∧ (∀ (rect : PixelRect) (n : Qc) (i j : Z),
       isFinite (pxWest rect) = true → isFinite (pxEast rect) = true →
       isFinite (pxNorth rect) = true → isFinite (pxSouth rect) = true →
       n ≠ 1%Qc →
       is_Some (nearestSample src (ofZ w) (ofZ h)
                  (sampleX rect (Fin n) (ofZ i)) (sampleY rect (Fin n) (ofZ j)))).
Proof.
  intros Hw Hh Hlen. split.
  - intros x y. by apply nearestSample_cell.
  - intros rect n i j HW HE HN HS Hn.
    destruct (isFinite_Fin _ (sampleX_finite rect n i HW HE Hn)) as [x ->].
    destruct (isFinite_Fin _ (sampleY_finite rect n j HN HS Hn)) as [y ->].
    destruct (nearestSample_cell src w h x y Hw Hh Hlen) as (? & ? & _ & _ & _ & _ & _ & _ & ->).
    by eexists.
Qed.

End NearestSampleFacts.

Lemma nearestSample_in_bounds_witness :
  ∃ i j : Z,
    clamp (Math_round (ofZ 1000)) (ofZ 0) (nsub (ofZ 2) (ofZ 1)) = ofZ i
    ∧ clamp (Math_round (ofZ (-5))) (ofZ 0) (nsub (ofZ 2) (ofZ 1)) = ofZ j
    ∧ (0 ≤ i ≤ 2 - 1)%Z ∧ (0 ≤ j ≤ 2 - 1)%Z
    ∧ (0 ≤ j * 2 + i < ta_length tinyRaster)%Z
    ∧ ta_index tinyRaster (nadd (nmul (ofZ j) (ofZ 2)) (ofZ i)) = Some (j * 2 + i)%Z
    ∧ nearestSample tinyRaster (ofZ 2) (ofZ 2) (ofZ 1000) (ofZ (-5))
      = Some (default (ofZ 0) (ta_cells tinyRaster !! (j * 2 + i)%Z)).
Proof.
  exact (proj1 (nearestSample_in_bounds tinyRaster 2 2
                  ltac:(lia) ltac:(lia) ltac:(reflexivity))
           (Qc_of_Z 1000) (Qc_of_Z (-5))).
Defined.

(** ** C5: the check of the elevation range *)

Section SamplingFacts.

Lemma degenerate_false_iff (lo hi : num) :
  degenerate lo hi = false ↔ ∃ a b : Qc, lo = Fin a ∧ hi = Fin b ∧ (a < b)%Qc.
Proof.
  unfold degenerate. split.
  - destruct lo as [| | |a], hi as [| | |b]; simpl; try done.
    intros Hle. exists a, b. repeat split. apply Qclt_nge.
    by apply bool_decide_eq_false in Hle.
  - intros (a & b & -> & -> & Hlt). simpl. apply bool_decide_eq_false.
    by apply Qclt_nge.
Qed.

Lemma degenerate_flatRange (c : num) :
  degenerate (flatRange c).1 (flatRange c).2 = true.
Proof.
  destruct c as [| | |q]; try done. unfold flatRange, degenerate. simpl.
  by apply bool_decide_eq_true.
Qed.

(** One more sample equal to [c] leaves the range at [flatRange c]. *)
Lemma sampleCell_flat src srcW srcH rect grid sy j i s c :
  nearestSample src srcW srcH (sampleX rect grid i) sy = Some c →
  (minE s, maxE s) = (PInf, NInf) ∨ (minE s, maxE s) = flatRange c →
  let s' := sampleCell src srcW srcH rect grid sy j i s in
  (minE s', maxE s') = flatRange c.
Proof.
  intros Hv Hs. unfold sampleCell. rewrite Hv. simpl.
  destruct Hs as [[= -> ->]|[= -> ->]]; [done|].
  destruct c as [| | |q]; try done. unfold flatRange, ngtb. simpl.
  assert (bool_decide (q < q)%Qc = false) as ->; [|done].
  apply bool_decide_eq_false. apply Qcle_not_lt, Qcle_refl.
Qed.

Lemma grid_cond_true (n : Qc) (k : Z) :
  (k < Qceiling n)%Z → nltb (ofZ k) (Fin n) = true.
Proof.
  intros Hk. apply nltb_Fin. eapply Qcle_lt_trans; [|apply Qc_ceiling_lt].
  rewrite <-Z2Qc_inj_le. lia.
Qed.

Lemma grid_cond_false (n : Qc) : nltb (ofZ (Qceiling n)) (Fin n) = false.
Proof. apply nltb_Fin_false, Qc_le_ceiling. Qed.

Lemma grid_ceiling_pos (n : Qc) : (1 < n)%Qc → (1 ≤ Qceiling n)%Z.
Proof.
  intros Hn. assert (0 < Qceiling n)%Z; [|lia].
  apply Qc_ceiling_lb. etrans; [|exact Hn]. done.
Qed.

(** Sampling a raster whose cells all hold [c]: the pass completes and the
    range is [flatRange c]. *)
Lemma sampleGrid_flat (src : Float32Array) (w h : Z) (rect : PixelRect)
    (n : Qc) (c : num) (fuel : nat) (s0 : Sampling) :
  (1 ≤ w)%Z → (1 ≤ h)%Z → ta_length src = (w * h)%Z →
  (∀ k, (0 ≤ k < ta_length src)%Z → ta_get src (ofZ k) = Some c) →
  isFinite (pxWest rect) = true → isFinite (pxEast rect) = true →
  isFinite (pxNorth rect) = true → isFinite (pxSouth rect) = true →
  (1 < n)%Qc → (Z.to_nat (Qceiling n) ≤ fuel)%nat →
  minE s0 = PInf → maxE s0 = NInf →
  ∃ s, sampleGrid fuel src (ofZ w) (ofZ h) rect (Fin n) s0 = Done s
       ∧ (minE s, maxE s) = flatRange c.
Proof.
  intros Hw Hh Hlen Hcells HW HE HN HS Hn Hfuel Hmin Hmax.
  assert (n ≠ 1%Qc) as Hn1 by (by apply not_symmetry, Qclt_not_eq).
  pose proof (grid_ceiling_pos n Hn) as Hceil.
  assert (∀ i j : Z,
            nearestSample src (ofZ w) (ofZ h)
              (sampleX rect (Fin n) (ofZ i)) (sampleY rect (Fin n) (ofZ j)) = Some c)
    as Hread.
  { intros i j.
    destruct (isFinite_Fin _ (sampleX_finite rect n i HW HE Hn1)) as [x ->].
    destruct (isFinite_Fin _ (sampleY_finite rect n j HN HS Hn1)) as [y ->].
    destruct (nearestSample_cell src w h x y Hw Hh Hlen)
      as (i' & j' & _ & _ & _ & _ & Hidx & _ & ->).
    rewrite <-ta_get_ofZ by done. by apply Hcells. }
  set (Inv := λ (k : Z) (s : Sampling),
         (k = 0%Z ∧ (minE s, maxE s) = (PInf, NInf)) ∨ (minE s, maxE s) = flatRange c).
  assert (∀ (j : Z) (s : Sampling),
            (minE s, maxE s) = (PInf, NInf) ∨ (minE s, maxE s) = flatRange c →
            ∃ s', forLoop fuel (λ i, nltb i (Fin n)) incr
                    (λ i s, Done (sampleCell src (ofZ w) (ofZ h) rect (Fin n)
                                    (sampleY rect (Fin n) (ofZ j)) (ofZ j) i s))
                    (ofZ 0) s = Done s'
                  ∧ (minE s', maxE s') = flatRange c) as Hrow.
  { intros j s Hs.
    destruct (forLoop_counted Inv fuel (λ i, nltb i (Fin n))
                (λ i s, Done (sampleCell src (ofZ w) (ofZ h) rect (Fin n)
                                (sampleY rect (Fin n) (ofZ j)) (ofZ j) i s))
                0 (Qceiling n) s) as (s' & Hs' & Hinv); try lia.
    - intros k Hk. apply grid_cond_true. lia.
    - apply grid_cond_false.
    - destruct Hs; [by left|by right].
    - intros k s1 Hk Hinv. eexists. split; [done|]. right.
      apply sampleCell_flat; [apply Hread|]. destruct Hinv as [[_ ?]|?]; auto.
    - exists s'. split; [done|]. destruct Hinv as [[? _]|?]; [lia|done]. }
  unfold sampleGrid.
  destruct (forLoop_counted Inv fuel (λ j, nltb j (Fin n))
              (λ j, forLoop fuel (λ i, nltb i (Fin n)) incr
                      (λ i s, Done (sampleCell src (ofZ w) (ofZ h) rect (Fin n)
                                      (sampleY rect (Fin n) j) j i s))
                      (ofZ 0))
              0 (Qceiling n) s0) as (s' & Hs' & Hinv); try lia.
  - intros k Hk. apply grid_cond_true. lia.
  - apply grid_cond_false.
  - left. by rewrite Hmin, Hmax.
  - intros k s1 Hk Hinv.
    destruct (Hrow k s1) as (s2 & Hs2 & Hr2); [destruct Hinv as [[_ ?]|?]; auto|].
    exists s2. split; [done|by right].
  - exists s'. split; [done|]. destruct Hinv as [[? _]|?]; [lia|done].
Qed.

End SamplingFacts.

Section RangeCheck.
Context `{Platform}.

Lemma is_done_state {St : Type} (r : res St) : is_done r = true → r = Done (res_state r).
Proof. by destruct r. Qed.

(** [POST] is its sampling stage once stitching has completed. *)
Lemma POST_sampleStage fuel body b st :
  stitchedOk fuel body b st →
  let g := tileRange (topLeft b) (bottomRight b) in
  POST fuel body
  = sampleStage fuel body (topLeft b) (bottomRight b) g
      (stitchedWidth g) (stitchedHeight g) st.
Proof.
  intros (Hb & Hvalid & Hguard & blank & Hblank & Hst) g. subst g.
  unfold POST. rewrite Hb, Hvalid. cbv zeta.
  change (lonLatToTile (west b) (north b) 12) with (topLeft b).
  change (lonLatToTile (east b) (south b) 12) with (bottomRight b).
  rewrite Hguard.
  unfold stitchStage. cbv zeta.
  fold (stitchedWidth (tileRange (topLeft b) (bottomRight b))).
  fold (stitchedHeight (tileRange (topLeft b) (bottomRight b))).
  by rewrite Hblank, Hst.
Qed.

Lemma sampleStage_checked fuel body tl br g W H' st s blank :
  newFloat32Array (nmul (grid body) (grid body)) = Some blank →
  sampleGrid fuel (stitched st) W H' (pixelRect tl br g) (grid body)
    {| values := blank; minE := PInf; maxE := NInf |} = Done s →
  sampleStage fuel body tl br g W H' st
  = if degenerate (minE s) (maxE s)
    then respond (requests st) ElevationInvalid
    else layerStage fuel body (requests st) s.
Proof. intros Hblank Hs. unfold sampleStage. by rewrite Hblank, Hs. Qed.

(** Stitching writes cells; the raster keeps its length. *)
Lemma ta_set_length (a : Float32Array) (i v : num) :
  ta_length (ta_set a i v) = ta_length a.
Proof. unfold ta_set. by destruct (ta_index a i). Qed.

Lemma copyTile_length fuel png g W tx ty st :
  ta_length (stitched (res_state (copyTile fuel png g W tx ty st)))
  = ta_length (stitched st).
Proof.
  unfold copyTile.
  apply (forLoop_preserved
           (λ s s', ta_length (stitched s') = ta_length (stitched s)));
    [done|congruence|].
  intros py s.
  apply (forLoop_preserved
           (λ s s', ta_length (stitched s') = ta_length (stitched s)));
    [done|congruence|].
  intros px s'. simpl. apply ta_set_length.
Qed.

Lemma stitchTiles_length fuel z g W st :
  ta_length (stitched (res_state (stitchTiles fuel z g W st)))
  = ta_length (stitched st).
Proof.
  unfold stitchTiles.
  apply (forLoop_preserved
           (λ s s', ta_length (stitched s') = ta_length (stitched s)));
    [done|congruence|].
  intros ty s.
  apply (forLoop_preserved
           (λ s s', ta_length (stitched s') = ta_length (stitched s)));
    [done|congruence|].
  intros tx s'. unfold stitchTile. destruct (fetchPng z tx ty); [|done].
  by rewrite copyTile_length.
Qed.

Lemma newFloat32Array_ofZ_length (k : Z) (a : Float32Array) :
  (0 ≤ k)%Z → newFloat32Array (ofZ k) = Some a → ta_length a = k.
Proof.
  intros Hk. unfold newFloat32Array, ofZ.
  assert (0 ≤ Qc_of_Z k)%Qc as Hpos by (apply (proj1 (Z2Qc_inj_le 0 k)); lia).
  rewrite (decide_True _ _ Hpos), Qfloor_of_Z.
  case_decide; [|done]. by intros [= <-].
Qed.

(** With finite corner projections the range is an integer rectangle, the
    pixel rectangle is finite and the raster is [w] x [h] with [w, h >= 256]. *)
Lemma finite_corners (tl br : Point) :
  isFinite (pt_x tl) = true → isFinite (pt_x br) = true →
  isFinite (pt_y tl) = true → isFinite (pt_y br) = true →
  let g := tileRange tl br in
  ∃ w h : Z,
    (1 ≤ w)%Z ∧ (1 ≤ h)%Z
    ∧ stitchedWidth g = ofZ w ∧ stitchedHeight g = ofZ h
    ∧ isFinite (pxWest (pixelRect tl br g)) = true
    ∧ isFinite (pxEast (pixelRect tl br g)) = true
    ∧ isFinite (pxNorth (pixelRect tl br g)) = true
    ∧ isFinite (pxSouth (pixelRect tl br g)) = true.
Proof.
  destruct tl as [[| | |a] [| | |b]], br as [[| | |c] [| | |d]]; try done.
  intros _ _ _ _ g. subst g. unfold tileRange, stitchedWidth, stitchedHeight, pixelRect.
  cbn [pt_x pt_y xMin xMax yMin yMax pxWest pxEast pxNorth pxSouth].
  destruct (axis_indices a c) as (x0 & x1 & -> & -> & Hx & _).
  destruct (axis_indices b d) as (y0 & y1 & -> & -> & Hy & _).
  destruct (Math_min_Fin a c) as (? & -> & _), (Math_max_Fin a c) as (? & -> & _).
  destruct (Math_min_Fin b d) as (? & -> & _), (Math_max_Fin b d) as (? & -> & _).
  unfold tileSize. rewrite !nsub_ofZ, !nadd_ofZ, !nmul_ofZ.
  exists ((x1 - x0 + 1) * 256)%Z, ((y1 - y0 + 1) * 256)%Z.
  repeat split; try done; lia.
Qed.

(** C5. Once the sample grid is filled, a range whose maximum is not above
    its minimum, or with a non-finite extreme, is answered with the
    invalid-elevation response and nothing is exported; any other range (two
    finite extremes, minimum below maximum) continues with the layer stage.
    A raster whose cells all hold one value - finite (perfectly flat), [NaN]
    or infinite - is sampled to completion and rejected in this way. *)
Theorem degenerate_range_rejected (fuel : nat) (body : Body) (b : Bounds)
    (st : Stitching) :
  stitchedOk fuel body b st →
  (∀ s : Sampling,
     sampledOk fuel body b st s →
     (degenerate (minE s) (maxE s) = true →
      POST fuel body = respond (requests st) ElevationInvalid)
     ∧ (degenerate (minE s) (maxE s) = false →
        POST fuel body = layerStage fuel body (requests st) s)
     ∧ (degenerate (minE s) (maxE s) = false
        ↔ ∃ lo hi : Qc, minE s = Fin lo ∧ maxE s = Fin hi ∧ (lo < hi)%Qc))
  ∧ (∀ (c : num) (n : Qc) (blank : Float32Array),
       isFinite (pt_x (topLeft b)) = true → isFinite (pt_x (bottomRight b)) = true →
       isFinite (pt_y (topLeft b)) = true → isFinite (pt_y (bottomRight b)) = true →
       grid body = Fin n →
       newFloat32Array (nmul (grid body) (grid body)) = Some blank →
       (∀ k, (0 ≤ k < ta_length (stitched st))%Z →
             ta_get (stitched st) (ofZ k) = Some c) →
       (Z.to_nat (Qceiling n) ≤ fuel)%nat →
       POST fuel body = respond (requests st) ElevationInvalid).
Proof.
  intros Hok. pose proof (POST_sampleStage fuel body b st Hok) as HPOST.
  cbv zeta in HPOST. split.
  - intros s (blank & Hblank & Hs).
    rewrite HPOST, (sampleStage_checked _ _ _ _ _ _ _ _ _ _ Hblank Hs).
    split; [by intros ->|]. split; [by intros ->|]. apply degenerate_false_iff.
  - intros c n blank Hx1 Hx2 Hy1 Hy2 Hgrid Hblank Hcells Hfuel.
    destruct Hok as (Hb & Hvalid & Hguard & blank0 & Hblank0 & Hst).
    destruct (finite_corners _ _ Hx1 Hx2 Hy1 Hy2)
      as (w & h & Hw & Hh & HW & HH & HpW & HpE & HpN & HpS).
    assert (ta_length (stitched st) = (w * h)%Z) as Hlen.
    { pose proof (stitchTiles_length fuel 12
                    (tileRange (topLeft b) (bottomRight b))
                    (stitchedWidth (tileRange (topLeft b) (bottomRight b)))
                    {| stitched := blank0; requests := [] |}) as Hl.
      rewrite Hst in Hl. simpl in Hl. rewrite Hl.
      rewrite HW, HH, nmul_ofZ in Hblank0.
      apply newFloat32Array_ofZ_length in Hblank0; [done|nia]. }
    assert (1 < n)%Qc as Hn.
    { unfold invalidConfig in Hvalid. rewrite Hgrid in Hvalid.
      apply orb_false_elim in Hvalid as [_ Hg]. apply nltb_Fin_false in Hg.
      eapply Qclt_le_trans; [|exact Hg]. done. }
    destruct (sampleGrid_flat (stitched st) w h _ n c fuel
                {| values := blank; minE := PInf; maxE := NInf |}
                Hw Hh Hlen Hcells HpW HpE HpN HpS Hn Hfuel eq_refl eq_refl)
      as (s & Hs & Hrange).
    rewrite <-Hgrid, <-HW, <-HH in Hs.
    rewrite HPOST, (sampleStage_checked _ _ _ _ _ _ _ _ _ _ Hblank Hs).
    pose proof (degenerate_flatRange c) as Hd. rewrite <-Hrange in Hd.
    cbn [fst snd] in Hd. by rewrite Hd.
Qed.

End RangeCheck.

(** ** C8 and C9: the layer files *)

Section LayerFacts.
Context `{Platform}.

Lemma elem_of_zip_file (name : string) (c : FileContent) (z : Zip) (e : string * FileContent) :
  e ∈ zip_file name c z → e = (name, c) ∨ e ∈ z.
Proof.
  induction z as [|[n c0] z IH]; simpl.
  - intros ->%list_elem_of_singleton. by left.
  - case_decide.
    + intros [->|?]%elem_of_cons; [by left|right; by apply elem_of_cons; right].
    + intros [->|He]%elem_of_cons; [right; by apply elem_of_cons; left|].
      destruct (IH He) as [->|?]; [by left|right; by apply elem_of_cons; right].
Qed.

(** [written] counts the features that gave a file. *)
Lemma writeLayers_written body holes sx sy idx fs a :
  written (writeLayers body holes sx sy idx fs a)
  = (written a + length (filter emitted fs))%nat.
Proof.
  revert idx a. induction fs as [|f fs IH]; intros idx a; simpl; [lia|].
  rewrite filter_cons.
  destruct (decide (emitted f)) as [Hem|Hem]; unfold emitted in Hem.
  - rewrite Hem, IH. simpl. lia.
  - apply not_false_is_true in Hem. rewrite Hem. apply IH.
Qed.

(** Every entry of the archive was there before or is the file of an
    emitted feature, named after the position and value of the feature. *)
Lemma writeLayers_entries body holes sx sy idx fs a e :
  e ∈ zip (writeLayers body holes sx sy idx fs a) →
  e ∈ zip a
  ∨ ∃ (k : nat) (f : Feature) (d : string),
      fs !! k = Some f ∧ pathGen f = Some d ∧ emitted f
      ∧ e = (layerName (idx + k) (value f), SvgFile (layerSvg body holes sx sy d)).
Proof.
  revert idx a. induction fs as [|f fs IH]; intros idx a; simpl; [by left|].
  destruct (falsy (pathGen f)) eqn:E.
  - intros He. destruct (IH _ _ He) as [?|(k & f' & d & Hk & Hd & Hem & ->)]; [by left|].
    right. exists (S k), f', d. repeat split; try done.
    by replace (idx + S k)%nat with (S idx + k)%nat by lia.
  - intros He. destruct (IH _ _ He) as [Hin|(k & f' & d & Hk & Hd & Hem & ->)].
    + simpl in Hin. apply elem_of_zip_file in Hin as [->|?]; [|by left].
      right. destruct (pathGen f) as [d|] eqn:Hd; [|done].
      exists 0%nat, f, d. repeat split; try done.
      * unfold emitted. by rewrite Hd.
      * by rewrite Nat.add_0_r.
    + right. exists (S k), f', d. repeat split; try done.
      by replace (idx + S k)%nat with (S idx + k)%nat by lia.
Qed.

(** A downloaded archive comes out of the layer stage. *)
Lemma POST_zip_inv fuel body z :
  response (POST fuel body) = Some (ZipDownload z) →
  ∃ reqs s, response (layerStage fuel body reqs s) = Some (ZipDownload z).
Proof.
  unfold POST. destruct (bounds body) as [b|]; [|done].
  destruct (invalidConfig body); [done|]. cbv zeta.
  destruct (ngtb _ _); [done|].
  unfold stitchStage. destruct (newFloat32Array _); [|done].
  destruct (stitchTiles _ _ _ _ _) as [st| |]; [|done..].
  unfold sampleStage. destruct (newFloat32Array _); [|done].
  destruct (sampleGrid _ _ _ _ _ _ _) as [s| |]; [|done..].
  destruct (degenerate _ _); [done|]. eauto.
Qed.

Lemma layerStage_zip_inv fuel body reqs s z :
  response (layerStage fuel body reqs s) = Some (ZipDownload z) →
  ∃ ts fs,
    planThresholds fuel (minE s) (maxE s) (intervalM body) = Done ts
    ∧ ts ≠ []
    ∧ d3Contours (grid body) ts (values s) = Some fs
    ∧ z = zip_file "README.txt"
            (ReadmeFile (readme body s (written (layersOf body fs))))
            (zip (layersOf body fs)).
Proof.
  unfold layerStage.
  destruct (planThresholds _ _ _ _) as [ts| |] eqn:Hts; [|done..].
  destruct (decide (ts = [])); [done|].
  destruct (d3Contours _ _ _) as [fs|] eqn:Hfs; [|done].
  intros [= <-]. exists ts, fs. repeat split; done.
Qed.




End LayerFacts.

(** ** Runs of the demo request *)

Lemma forLoop_ext {St : Type} fuel cond step (body1 body2 : num → St → res St) v s :
  (∀ v s, body1 v s = body2 v s) →
  forLoop fuel cond step body1 v s = forLoop fuel cond step body2 v s.
Proof.
  intros Hext. revert v s. induction fuel as [|fuel IH]; intros v s; simpl; [done|].
  destruct (cond v); [|done]. rewrite Hext.
  destruct (body2 v s); [apply IH|done..].
Qed.

(** Stitching depends on the platform through [fetchPng] only. *)
Lemma stitchTiles_ext (P1 P2 : Platform) fuel z g W st :
  (∀ z tx ty, @fetchPng P1 z tx ty = @fetchPng P2 z tx ty) →
  @stitchTiles P1 fuel z g W st = @stitchTiles P2 fuel z g W st.
Proof.
  intros Hf. unfold stitchTiles. apply forLoop_ext. intros ty s.
  apply forLoop_ext. intros tx s'. unfold stitchTile. by rewrite Hf.
Qed.

(** On a platform with the demo projection and tile source, a valid demo
    request asks for the one tile, stitches it, fills the sample grid
    [demoSampling] and comes to the layer stage.  The stitching and the
    sampling are evaluated once, here. *)
Lemma demo_reaches_layers (P : Platform) (interval : num) :
  @topLeft P demoBounds = @topLeft (demoPlatform rampTile) demoBounds →
  @bottomRight P demoBounds = @bottomRight (demoPlatform rampTile) demoBounds →
  (∀ z tx ty, @fetchPng P z tx ty = @fetchPng (demoPlatform rampTile) z tx ty) →
  invalidConfig (demoBody interval) = false →
  ∃ st : Stitching,
    @stitchedOk P 256 (demoBody interval) demoBounds st
    ∧ @sampledOk P 256 (demoBody interval) demoBounds st demoSampling
    ∧ requests st = [(ofZ 2048, ofZ 2048)]
    ∧ @POST P 256 (demoBody interval)
      = @layerStage P 256 (demoBody interval) [(ofZ 2048, ofZ 2048)] demoSampling.
Proof.
  intros Htl Hbr Hf Hvalid.
  assert ((let g := tileRange (@topLeft (demoPlatform rampTile) demoBounds)
                      (@bottomRight (demoPlatform rampTile) demoBounds) in
           let r := @stitchTiles (demoPlatform rampTile) 256 12 g (stitchedWidth g)
                      {| stitched := {| ta_length := 65536; ta_cells := ∅ |};
                         requests := [] |} in
           is_done r
           && bool_decide (requests (res_state r) = [(ofZ 2048, ofZ 2048)])
           && bool_decide
                (sampleGrid 256 (stitched (res_state r)) (stitchedWidth g)
                   (stitchedHeight g)
                   (pixelRect (@topLeft (demoPlatform rampTile) demoBounds)
                      (@bottomRight (demoPlatform rampTile) demoBounds) g) (ofZ 64)
                   {| values := {| ta_length := 4096; ta_cells := ∅ |};
                      minE := PInf; maxE := NInf |}
                 = Done demoSampling)) = true) as Hcheck
    by (vm_compute; reflexivity).
  cbv zeta in Hcheck.
  assert (ngtb (tileCountOf (tileRange (@topLeft (demoPlatform rampTile) demoBounds)
                               (@bottomRight (demoPlatform rampTile) demoBounds)))
               (ofZ 64) = false) as Hguard by (vm_compute; reflexivity).
  assert (newFloat32Array
            (nmul (stitchedWidth (tileRange (@topLeft (demoPlatform rampTile) demoBounds)
                                    (@bottomRight (demoPlatform rampTile) demoBounds)))
                  (stitchedHeight (tileRange (@topLeft (demoPlatform rampTile) demoBounds)
                                     (@bottomRight (demoPlatform rampTile) demoBounds))))
          = Some {| ta_length := 65536; ta_cells := ∅ |}) as Hraster
    by (vm_compute; reflexivity).
  assert (newFloat32Array (nmul (grid (demoBody interval)) (grid (demoBody interval)))
          = Some {| ta_length := 4096; ta_cells := ∅ |}) as Hgrid
    by (vm_compute; reflexivity).
  assert (degenerate (minE demoSampling) (maxE demoSampling) = false) as Hrange
    by (vm_compute; reflexivity).
  remember (@stitchTiles (demoPlatform rampTile) 256 12
              (tileRange (@topLeft (demoPlatform rampTile) demoBounds)
                 (@bottomRight (demoPlatform rampTile) demoBounds))
              (stitchedWidth
                 (tileRange (@topLeft (demoPlatform rampTile) demoBounds)
                    (@bottomRight (demoPlatform rampTile) demoBounds)))
              {| stitched := {| ta_length := 65536; ta_cells := ∅ |}; requests := [] |})
    as run eqn:Erun.
  apply andb_true_iff in Hcheck as [Hcheck Hsample].
  apply andb_true_iff in Hcheck as [Hdone Hreq].
  apply bool_decide_eq_true in Hreq. apply bool_decide_eq_true in Hsample.
  apply is_done_state in Hdone.
  assert (@stitchedOk P 256 (demoBody interval) demoBounds (res_state run)) as Hok.
  { unfold stitchedOk. cbv zeta. rewrite Htl, Hbr.
    split; [reflexivity|]. split; [exact Hvalid|]. split; [exact Hguard|].
    eexists. split; [exact Hraster|].
    rewrite (stitchTiles_ext P (demoPlatform rampTile)) by exact Hf.
    rewrite <-Erun. exact Hdone. }
  assert (@sampledOk P 256 (demoBody interval) demoBounds (res_state run) demoSampling)
    as Hsam.
  { unfold sampledOk. cbv zeta. rewrite Htl, Hbr.
    eexists. split; [exact Hgrid|exact Hsample]. }
  exists (res_state run).
  split; [exact Hok|]. split; [exact Hsam|]. split; [exact Hreq|].
  rewrite (POST_sampleStage 256 _ demoBounds (res_state run) Hok).
  destruct Hsam as (blank & Hblank & Hs).
  rewrite (sampleStage_checked _ _ _ _ _ _ _ _ _ _ Hblank Hs).
  rewrite Hrange, Hreq. reflexivity.
Qed.

Lemma demo_export :
  @POST (demoPlatform rampTile) 256 (demoBody (ofZ 30))
  = {| fetched := [(ofZ 2048, ofZ 2048)]; response := Some (ZipDownload demoZip) |}.
Proof.
  destruct (demo_reaches_layers (demoPlatform rampTile) (ofZ 30))
    as (st & _ & _ & _ & ->);
    [reflexivity|reflexivity|intros; reflexivity|vm_compute; reflexivity|].
  compute_done.
Qed.

Lemma degenerate_range_rejected_witness :
  ∃ st : Stitching,
    @stitchedOk (demoPlatform rampTile) 256 (demoBody (ofZ 30)) demoBounds st
    ∧ ∀ s : Sampling,
        @sampledOk (demoPlatform rampTile) 256 (demoBody (ofZ 30)) demoBounds st s →
        degenerate (minE s) (maxE s) = false →
        @POST (demoPlatform rampTile) 256 (demoBody (ofZ 30))
        = @layerStage (demoPlatform rampTile) 256 (demoBody (ofZ 30)) (requests st) s.
Proof.
  destruct (demo_reaches_layers (demoPlatform rampTile) (ofZ 30))
    as (st & Hok & _);
    [reflexivity|reflexivity|intros; reflexivity|vm_compute; reflexivity|].
  exists st. split; [exact Hok|].
  intros s Hs.
  exact (proj1 (proj2 (proj1 (@degenerate_range_rejected (demoPlatform rampTile) 256%nat
                                (demoBody (ofZ 30)) demoBounds st Hok) s Hs))).
Defined.


(** ** C6: validation of the contour interval *)

Section IntervalValidation.
Context `{Platform}.

(** What the validation does reject: an interval that compares [<= 0]
    (zero, a negative number, [-Infinity]) is answered with the bad-request
    response before any tile is asked for. *)
Lemma nonpositive_interval_rejected (fuel : nat) (body : Body) :
  nleb (intervalM body) (ofZ 0) = true →
  POST fuel body = {| fetched := []; response := Some BadRequest |}.
Proof.
  intros Hi. unfold POST, invalidConfig. rewrite Hi.
  destruct (bounds body); [|done].
  by rewrite !orb_true_r.
Qed.

(** What it lets through: [NaN <= 0] and [Infinity <= 0] are false, so an
    interval that is [NaN] or [+Infinity] does not make the configuration
    invalid. *)
Lemma nonfinite_interval_accepted (body : Body) :
  intervalM body = NaN ∨ intervalM body = PInf →
  invalidConfig body
  = nleb (widthIn body) (ofZ 0) || nleb (heightIn body) (ofZ 0)
    || nltb (grid body) (ofZ 64).
Proof.
  intros [E|E]; unfold invalidConfig; rewrite E; simpl; by rewrite orb_false_r.
Qed.

End IntervalValidation.

(** C6 (the claim fails on the code). An interval that is [NaN] (say
    [intervalM: "abc"]) or [+Infinity] ([intervalM: 1e999]) is not answered
    with the validation response before tile work: the demo request with
    such an interval asks for its tile, stitches and samples it, and only
    then fails, with the no-layers response. *)
Theorem nonfinite_interval_reaches_tiles :
  @POST (demoPlatform rampTile) 256 (demoBody NaN)
  = {| fetched := [(ofZ 2048, ofZ 2048)]; response := Some NoLayersProduced |}
  ∧ @POST (demoPlatform rampTile) 256 (demoBody PInf)
    = {| fetched := [(ofZ 2048, ofZ 2048)]; response := Some NoLayersProduced |}.
Proof.
  split.
  - destruct (demo_reaches_layers (demoPlatform rampTile) NaN)
      as (st & _ & _ & _ & ->);
      [reflexivity|reflexivity|intros; reflexivity|vm_compute; reflexivity|].
    apply layerStage_empty, planThresholds_NaN.
  - destruct (demo_reaches_layers (demoPlatform rampTile) PInf)
      as (st & _ & _ & _ & ->);
      [reflexivity|reflexivity|intros; reflexivity|vm_compute; reflexivity|].
    apply layerStage_empty, planThresholds_PInf.
Qed.

(** * Further facts about the helpers of the route *)

(** ** Order reasoning on numbers *)

Lemma Qc_eq_Qeq (x y : Qc) : x = y → (this x == this y)%Q.
Proof. by intros ->. Qed.

(** Linear arithmetic on canonical rationals, by way of [Q]. *)
Ltac qc_lra :=
  repeat match goal with
  | H : @eq Qc _ _ |- _ => apply Qc_eq_Qeq in H
  | H : ¬ @eq Qc _ _ |- _ => revert H
  | |- @eq Qc _ _ => apply Qc_is_canon
  | |- ¬ @eq Qc _ _ => let E := fresh in intros E; apply Qc_eq_Qeq in E; revert E
  end;
  unfold Qcle, Qclt, Qcdiv, Qcminus, Qcplus, Qcmult, Qcopp, Qcinv, Qc_of_Z, Q2Qc in *;
  simpl in *; repeat rewrite Qred_correct in *; simpl in *; unfold inject_Z in *;
  unfold Qinv in *; simpl in *; intros; lra.

(** Case analysis on the comparisons of finite numbers. *)
Ltac num_cases :=
  repeat match goal with
  | H : context [bool_decide ?P] |- _ => destruct (bool_decide_reflect P)
  | |- context [bool_decide ?P] => destruct (bool_decide_reflect P)
  end.

Section ClampFacts.
Local Open Scope Qc_scope.

Lemma nleb_refl (a : num) : a ≠ NaN → nleb a a = true.
Proof. destruct a; try done. intros _. apply nleb_Fin. apply Qcle_refl. Qed.

Lemma nltb_nleb (a b : num) : nltb a b = true → nleb a b = true.
Proof.
  destruct a, b; simpl; try done. intros Hab%bool_decide_eq_true.
  apply bool_decide_eq_true. by apply Qclt_le_weak.
Qed.

Lemma nltb_false_nleb (a b : num) :
  a ≠ NaN → b ≠ NaN → nltb a b = false → nleb b a = true.
Proof.
  destruct a, b; simpl; try done. intros _ _ Hab%bool_decide_eq_false.
  apply bool_decide_eq_true. by apply Qcnot_lt_le.
Qed.

Lemma nleb_trans (a b c : num) : nleb a b = true → nleb b c = true → nleb a c = true.
Proof.
  destruct a, b, c; simpl; try done.
  intros H1%bool_decide_eq_true H2%bool_decide_eq_true.
  apply bool_decide_eq_true. by etrans.
Qed.

Lemma nleb_antisym (a b : num) : nleb a b = true → nleb b a = true → a = b.
Proof.
  destruct a, b; simpl; try done.
  intros H1%bool_decide_eq_true H2%bool_decide_eq_true.
  f_equal. by apply Qcle_antisym.
Qed.

Lemma nltb_nleb_false (a b : num) : nltb a b = true → nleb b a = false.
Proof.
  destruct a, b; simpl; try done. intros Hab%bool_decide_eq_true.
  apply bool_decide_eq_false. by apply Qclt_not_le.
Qed.

(** X1. [clamp n a b] with ordered bounds [a <= b] and a number [n] that is
    not [NaN] lies between the bounds; it is [n] itself when [n] already
    does, the lower bound when [n] is below and the upper bound when [n] is
    above. *)
Theorem clamp_within (n a b : num) :
  nleb a b = true → n ≠ NaN →
  nleb a (clamp n a b) = true ∧ nleb (clamp n a b) b = true
  ∧ (nleb a n = true → nleb n b = true → clamp n a b = n)
  ∧ (nltb n a = true → clamp n a b = a)
  ∧ (nltb b n = true → clamp n a b = b).
Proof.
  intros Hab Hn. unfold clamp.
  destruct n as [| | |n], a as [| | |a], b as [| | |b]; simpl in *; try done;
    num_cases; simpl; num_cases;
    repeat split; intros; try done; try (f_equal; qc_lra);
    try (exfalso; qc_lra); try (apply bool_decide_eq_true; qc_lra).
Qed.

(** What [clamp] does outside that use: [NaN] stays [NaN], and with bounds
    in the wrong order ([b < a]) the result is the lower bound [a] whatever
    [n] is. *)
Lemma clamp_inverted (n a b : num) :
  clamp NaN a b = NaN
  ∧ (nltb b a = true → n ≠ NaN → clamp n a b = a).
Proof.
  split; [by destruct a, b|].
  intros Hba Hn. unfold clamp.
  destruct n as [| | |n], a as [| | |a], b as [| | |b]; simpl in *; try done;
    num_cases; simpl; num_cases; try done; try (f_equal; qc_lra);
    try (exfalso; qc_lra).
Qed.

End ClampFacts.

Lemma clamp_within_witness :
  nleb (ofZ 0) (clamp (ofZ 300) (ofZ 0) (ofZ 255)) = true
  ∧ nleb (clamp (ofZ 300) (ofZ 0) (ofZ 255)) (ofZ 255) = true.
Proof.
  pose proof (clamp_within (ofZ 300) (ofZ 0) (ofZ 255) eq_refl ltac:(done)) as H.
  split; [exact (proj1 H)|exact (proj1 (proj2 H))].
Defined.

(** ** [nearestSample] *)

Section NearestFacts.
Local Open Scope Qc_scope.

Lemma round_near (x : Qc) :
  x - Q2Qc (1 # 2) < Qc_of_Z (Qfloor (x + Q2Qc (1 # 2))%Qc)
  ∧ Qc_of_Z (Qfloor (x + Q2Qc (1 # 2))%Qc) ≤ x + Q2Qc (1 # 2).
Proof.
  pose proof (Qc_floor_le (x + Q2Qc (1 # 2))) as Hlo.
  pose proof (Qc_lt_floor (x + Q2Qc (1 # 2))) as Hhi.
  rewrite Qc_of_Z_succ in Hhi.
  split; [|exact Hlo].
  revert Hhi. generalize (Qc_of_Z (Qfloor (x + Q2Qc (1 # 2))%Qc)). intros k Hhi. qc_lra.
Qed.

Lemma round_index_inside (x : Qc) (w : Z) :
  0 ≤ x → x ≤ Qc_of_Z (w - 1) →
  (0 ≤ Qfloor (x + Q2Qc (1 # 2))%Qc ≤ w - 1)%Z.
Proof.
  intros H0 Hw. split.
  - apply Qc_floor_lb. qc_lra.
  - apply Z.lt_succ_r. apply Qc_floor_ub.
    rewrite <-Z.add_1_r, Qc_of_Z_succ. qc_lra.
Qed.

Lemma round_index_below (x : Qc) : x < 0 → (Qfloor (x + Q2Qc (1 # 2))%Qc ≤ 0)%Z.
Proof.
  intros Hx. apply Z.lt_succ_r. apply Qc_floor_ub.
  change (Z.succ 0) with 1%Z. qc_lra.
Qed.

Lemma round_index_above (x : Qc) (w : Z) :
  Qc_of_Z (w - 1) < x → (w - 1 ≤ Qfloor (x + Q2Qc (1 # 2))%Qc)%Z.
Proof. intros Hx. apply Qc_floor_lb. qc_lra. Qed.

(** The column (or row) [nearestSample] reads for a coordinate [x] on an
    axis of [w] pixels. *)
Lemma nearest_index (x : Qc) (w : Z) :
  clamp (Math_round (Fin x)) (ofZ 0) (nsub (ofZ w) (ofZ 1))
  = ofZ (Z.max 0 (Z.min (w - 1) (Qfloor (x + Q2Qc (1 # 2))%Qc))).
Proof. by rewrite Math_round_Fin, nsub_ofZ, clamp_ofZ. Qed.

(** X2. [nearestSample] reads the pixel nearest to the sample point: for a
    [w] x [h] raster the cell read is row [j], column [i], where [i] is
    within half a pixel of [x] when [x] lies on the raster ([0 <= x <= w-1]),
    the first column when [x] is left of it and the last column when [x] is
    right of it; likewise for the row. *)
Theorem nearestSample_nearest (src : Float32Array) (w h : Z) (x y : Qc) :
  (1 ≤ w)%Z → (1 ≤ h)%Z → ta_length src = (w * h)%Z →
  let i := Z.max 0 (Z.min (w - 1) (Qfloor (x + Q2Qc (1 # 2))%Qc)) in
  let j := Z.max 0 (Z.min (h - 1) (Qfloor (y + Q2Qc (1 # 2))%Qc)) in
  nearestSample src (ofZ w) (ofZ h) (Fin x) (Fin y)
  = Some (default (ofZ 0) (ta_cells src !! (j * w + i)%Z))
  ∧ (0 ≤ x → x ≤ Qc_of_Z (w - 1) →
     x - Q2Qc (1 # 2) < Qc_of_Z i ∧ Qc_of_Z i ≤ x + Q2Qc (1 # 2))
  ∧ (0 ≤ y → y ≤ Qc_of_Z (h - 1) →
     y - Q2Qc (1 # 2) < Qc_of_Z j ∧ Qc_of_Z j ≤ y + Q2Qc (1 # 2))
  ∧ (x < 0 → i = 0%Z) ∧ (Qc_of_Z (w - 1) < x → i = (w - 1)%Z)
  ∧ (y < 0 → j = 0%Z) ∧ (Qc_of_Z (h - 1) < y → j = (h - 1)%Z).
Proof.
  intros Hw Hh Hlen i j.
  split.
  - unfold nearestSample. rewrite !nearest_index. fold i j.
    rewrite nmul_ofZ, nadd_ofZ. apply ta_get_ofZ. rewrite Hlen. subst i j. nia.
  - repeat split.
    + pose proof (round_index_inside x w H H0). pose proof (round_near x) as [? _].
      subst i. by rewrite Z.min_r, Z.max_r by lia.
    + pose proof (round_index_inside x w H H0). pose proof (round_near x) as [_ ?].
      subst i. by rewrite Z.min_r, Z.max_r by lia.
    + pose proof (round_index_inside y h H H0). pose proof (round_near y) as [? _].
      subst j. by rewrite Z.min_r, Z.max_r by lia.
    + pose proof (round_index_inside y h H H0). pose proof (round_near y) as [_ ?].
      subst j. by rewrite Z.min_r, Z.max_r by lia.
    + intros Hx%round_index_below. subst i. lia.
    + intros Hx%round_index_above. subst i. lia.
    + intros Hy%round_index_below. subst j. lia.
    + intros Hy%round_index_above. subst j. lia.
Qed.

Lemma nearestSample_NaN (src : Float32Array) (srcW srcH x y : num) :
  x = NaN ∨ y = NaN → nearestSample src srcW srcH x y = None.
Proof.
  intros Hxy. unfold nearestSample, ta_get, ta_index.
  assert (asInteger
            (nadd (nmul (clamp (Math_round y) (ofZ 0) (nsub srcH (ofZ 1))) srcW)
                  (clamp (Math_round x) (ofZ 0) (nsub srcW (ofZ 1)))) = None) as ->;
    [|done].
  destruct Hxy as [-> | ->].
  - change (Math_round NaN) with NaN.
    rewrite (proj1 (clamp_inverted NaN _ _)). by destruct (nmul _ srcW).
  - change (Math_round NaN) with NaN.
    rewrite (proj1 (clamp_inverted NaN _ _)). by destruct srcW.
Qed.

Lemma nearestSample_empty (src : Float32Array) (srcW srcH x y : num) :
  ta_length src = 0%Z → nearestSample src srcW srcH x y = None.
Proof.
  intros Hlen. unfold nearestSample, ta_get, ta_index. rewrite Hlen.
  destruct (asInteger _); [|done]. rewrite decide_False by lia. done.
Qed.

(** X3. [nearestSample] gives [undefined] when a coordinate is [NaN], and on
    an empty raster whatever the coordinates are. *)
Theorem nearestSample_undefined (src : Float32Array) (srcW srcH x y : num) :
  (x = NaN ∨ y = NaN → nearestSample src srcW srcH x y = None)
  ∧ (ta_length src = 0%Z → nearestSample src srcW srcH x y = None).
Proof. split; [apply nearestSample_NaN|apply nearestSample_empty]. Qed.

End NearestFacts.

Lemma nearestSample_nearest_witness :
  nearestSample tinyRaster (ofZ 2) (ofZ 2) (Fin (Q2Qc (3 # 4))) (Fin (Q2Qc (1 # 4)))
  = Some (ofZ 7).
Proof.
  exact (proj1 (nearestSample_nearest tinyRaster 2 2 (Q2Qc (3 # 4)) (Q2Qc (1 # 4))
                  ltac:(lia) ltac:(lia) eq_refl)).
Defined.

(** ** [decodeTerrarium] *)

Section DecodeFacts.
Local Open Scope Qc_scope.

Lemma decodeTerrarium_ofZ (r g b : Z) :
  decodeTerrarium (ofZ r) (ofZ g) (ofZ b)
  = ratio (65536 * r + 256 * g + b - 8388608) 256.
Proof.
  assert (Qc_of_Z 256 ≠ 0) as H256 by (by apply Qc_of_Z_nonzero).
  rewrite ratio_div. unfold decodeTerrarium, ofZ, ndiv, nsub, nadd, nmul, nneg.
  rewrite !decide_False by done.
  f_equal. rewrite Z2Qc_inj_sub, !Z2Qc_inj_add, !Z2Qc_inj_mul.
  change 8388608%Z with (32768 * 256)%Z. change 65536%Z with (256 * 256)%Z.
  rewrite !Z2Qc_inj_mul. field. done.
Qed.

Lemma ratio_inj (n m : Z) (d : positive) : ratio n d = ratio m d → n = m.
Proof.
  unfold ratio. intros [=E].
  assert (n # d == m # d)%Q as E'
    by (rewrite <-(Qred_correct (n # d)), E, Qred_correct; reflexivity).
  unfold Qeq in E'. simpl in E'. nia.
Qed.

Lemma ratio_le (n m : Z) (d : positive) : nleb (ratio n d) (ratio m d) = true ↔ (n ≤ m)%Z.
Proof.
  unfold ratio. rewrite nleb_Fin. unfold Qcle. simpl. rewrite !Qred_correct.
  unfold Qle. simpl. nia.
Qed.

Lemma byte_range (c : Byte.byte) : (0 ≤ Z.of_N (Byte.to_N c) ≤ 255)%Z.
Proof. pose proof (Byte.to_N_bounded c). lia. Qed.

Lemma byte_inj (c d : Byte.byte) : Z.of_N (Byte.to_N c) = Z.of_N (Byte.to_N d) → c = d.
Proof.
  intros E%N2Z.inj. apply (f_equal Byte.of_N) in E.
  rewrite !Byte.of_to_N in E. congruence.
Qed.

(** X4. The decoded elevation of three channel bytes lies between -32768 m
    and 32768 - 1/256 m; byte triples that differ decode to elevations that
    differ; (128, 0, 0) is sea level. *)
Theorem decodeTerrarium_range (c0 c1 c2 d0 d1 d2 : Byte.byte) :
  let dec (r g b : Byte.byte) :=
    decodeTerrarium (ofZ (Z.of_N (Byte.to_N r))) (ofZ (Z.of_N (Byte.to_N g)))
                    (ofZ (Z.of_N (Byte.to_N b))) in
  nleb (ofZ (-32768)) (dec c0 c1 c2) = true
  ∧ nleb (dec c0 c1 c2) (ratio 8388607 256) = true
  ∧ (dec c0 c1 c2 = dec d0 d1 d2 → c0 = d0 ∧ c1 = d1 ∧ c2 = d2)
  ∧ dec Byte.x80 Byte.x00 Byte.x00 = ofZ 0
  ∧ dec Byte.x00 Byte.x00 Byte.x00 = ofZ (-32768)
  ∧ dec Byte.xff Byte.xff Byte.xff = ratio 8388607 256.
Proof.
  intros dec. subst dec. cbv beta.
  pose proof (byte_range c0). pose proof (byte_range c1). pose proof (byte_range c2).
  pose proof (byte_range d0). pose proof (byte_range d1). pose proof (byte_range d2).
  rewrite !decodeTerrarium_ofZ.
  assert (ofZ (-32768) = ratio (-8388608) 256) as -> by compute_done.
  assert (ofZ 0 = ratio 0 256) as -> by compute_done.
  rewrite !ratio_le.
  split; [lia|]. split; [lia|]. split; [|by repeat split].
  intros E%ratio_inj. repeat split; apply byte_inj; lia.
Qed.

End DecodeFacts.

(** ** [lonLatToTile] *)

Section ProjectionFacts.
Context `{Platform}.
Local Open Scope Qc_scope.

Lemma pow2_ofZ (z : Z) : (0 ≤ z)%Z → pow2 z = ofZ (2 ^ z).
Proof.
  intros Hz. unfold pow2, ofZ. f_equal. apply Qc_is_canon. simpl.
  rewrite !Qred_correct. symmetry. by apply Zpower_Qpower.
Qed.

Lemma lonLatToTile_x (lon : Qc) (lat : num) (z : Z) :
  (0 ≤ z)%Z →
  pt_x (lonLatToTile (Fin lon) lat z)
  = Fin ((lon + Qc_of_Z 180) / Qc_of_Z 360 * Qc_of_Z (2 ^ z)).
Proof.
  intros Hz. unfold lonLatToTile. cbn [pt_x]. rewrite pow2_ofZ by done.
  unfold ofZ, nadd, ndiv, nmul.
  rewrite decide_False by (by apply Qc_of_Z_nonzero). done.
Qed.

(** Order is kept by adding a number, and by dividing and multiplying by a
    positive one. *)
Lemma nadd_mono_r (a b : num) (c : Qc) :
  nleb a b = true → nleb (nadd a (Fin c)) (nadd b (Fin c)) = true.
Proof.
  destruct a as [| | |x], b as [| | |y]; simpl; try done.
  intros Hxy%bool_decide_eq_true. apply bool_decide_eq_true.
  by apply Qcplus_le_mono_r.
Qed.

Lemma ndiv_mono_pos (a b : num) (c : Qc) :
  0 < c → nleb a b = true → nleb (ndiv a (Fin c)) (ndiv b (Fin c)) = true.
Proof.
  intros Hc. assert (c ≠ 0) as Hc0 by (by apply not_symmetry, Qclt_not_eq).
  assert (¬ c < 0) as Hneg by (by apply Qcle_not_lt, Qclt_le_weak).
  destruct a as [| | |x], b as [| | |y]; simpl;
    rewrite ?decide_False by done; try done.
  intros Hxy%bool_decide_eq_true. apply bool_decide_eq_true.
  unfold Qcdiv. apply Qcmult_le_compat_r; [done|].
  apply Qclt_le_weak. by apply Qcinv_pos.
Qed.

Lemma nmul_mono_pos (a b : num) (c : Qc) :
  0 < c → nleb a b = true → nleb (nmul a (Fin c)) (nmul b (Fin c)) = true.
Proof.
  intros Hc.
  assert ((c ?= 0) = Gt) as E1 by (by apply Qcgt_alt).
  assert ((0 ?= c) = Lt) as E2 by (by apply Qclt_alt).
  destruct a as [| | |x], b as [| | |y]; simpl; rewrite ?E1, ?E2; simpl; try done.
  intros Hxy%bool_decide_eq_true. apply bool_decide_eq_true.
  apply Qcmult_le_compat_r; [done|]. by apply Qclt_le_weak.
Qed.

Lemma tileColumn_mono (a b : num) (z : Z) :
  (0 ≤ z)%Z → nleb a b = true → nleb (tileColumn a z) (tileColumn b z) = true.
Proof.
  intros Hz Hab. unfold tileColumn. rewrite pow2_ofZ by done.
  assert (0 < Qc_of_Z (2 ^ z)) as Hpos
    by (apply (proj1 (Qc_of_Z_pos _)); apply Z.pow_pos_nonneg; lia).
  apply binary64_mono, nmul_mono_pos; [done|].
  apply binary64_mono, ndiv_mono_pos; [done|].
  by apply binary64_mono, nadd_mono_r.
Qed.

(** X5. The tile column as the code computes it, each operation rounded
    to binary64, at a zoom from 0 to 30.  It grows with the longitude; -180
    gives column 0 and 180 gives [2^z].  For a longitude from -180 up to
    [180 - 2^-44] the floor of the column is a column index in [0, 2^z).
    At the largest binary64 number below 180, [180 - 2^-45], the sum
    [lon + 180] rounds to 360 and the column is [2^z], one past the last
    index. *)
Theorem tileColumn_index (lon lon' : Qc) (z : Z) :
  (0 ≤ z ≤ 30)%Z →
  (Qc_of_Z (-180) ≤ lon → lon ≤ Q2Qc (3166593487994879 # 17592186044416) →
   ∃ k : Z, Math_floor (tileColumn (Fin lon) z) = ofZ k ∧ (0 ≤ k < 2 ^ z)%Z)
  ∧ (lon ≤ lon' → nleb (tileColumn (Fin lon) z) (tileColumn (Fin lon') z) = true)
  ∧ tileColumn (ofZ (-180)) z = ofZ 0
  ∧ tileColumn (ofZ 180) z = ofZ (2 ^ z)
  ∧ tileColumn (Fin (Q2Qc (6333186975989759 # 35184372088832))) z = ofZ (2 ^ z).
Proof.
  intros Hz.
  assert (0 < 2 ^ z ≤ 2 ^ 30)%Z as Hp.
  { split; [apply Z.pow_pos_nonneg; lia|apply Z.pow_le_mono_r; lia]. }
  assert (0 < Qc_of_Z (2 ^ z)) as Hpos by (apply (proj1 (Qc_of_Z_pos _)); lia).
  assert (binary64 (ofZ (2 ^ z)) = ofZ (2 ^ z)) as Hexact
    by (apply binary64_ofZ; lia).
  split; [|split; [|split; [|split]]].
  - intros Hlo Hhi. unfold tileColumn. rewrite pow2_ofZ by lia.
    destruct (binary64_between (Qc_of_Z 0) (Q2Qc (6333186975989759 # 17592186044416))
                (lon + Qc_of_Z 180)) as (r1 & E1 & L1 & U1).
    { apply (binary64_ofZ 0). lia. }
    { apply (binary64_ratio 6333186975989759 44); lia. }
    { clear Hpos. qc_lra. }
    { clear Hpos. qc_lra. }
    change (nadd (Fin lon) (ofZ 180)) with (Fin (lon + Qc_of_Z 180)).
    rewrite E1.
    destruct (binary64_between (Qc_of_Z 0) (Q2Qc (9007199254740991 # 9007199254740992))
                (r1 / Qc_of_Z 360)) as (r2 & E2 & L2 & U2).
    { apply (binary64_ofZ 0). lia. }
    { apply (binary64_ratio 9007199254740991 53); lia. }
    { clear Hpos. qc_lra. }
    { clear Hpos. qc_lra. }
    assert (ndiv (Fin r1) (ofZ 360) = Fin (r1 / Qc_of_Z 360)) as ->.
    { unfold ndiv, ofZ. by rewrite decide_False by (by apply Qc_of_Z_nonzero). }
    rewrite E2.
    destruct (binary64_between (Qc_of_Z 0) (Q2Qc ((9007199254740991 * 2 ^ z) # 9007199254740992))
                (r2 * Qc_of_Z (2 ^ z))) as (r3 & E3 & L3 & U3).
    { apply (binary64_ofZ 0). lia. }
    { apply (binary64_exact _ 9007199254740991 (z - 53)); [|lia|lia].
      simpl. rewrite Qred_correct, Qmake_Qdiv, inject_Z_mult.
      rewrite pow2_sub, <-!pow2_Z by lia. unfold Qdiv.
      change (inject_Z 9007199254740992) with ((2 ^ 53)%Q). ring. }
    { rewrite Z2Qc_inj_0 in *. rewrite <-(Qcmult_0_l (Qc_of_Z (2 ^ z))).
      apply Qcmult_le_compat_r; [done|by apply Qclt_le_weak]. }
    { assert (Q2Qc ((9007199254740991 * 2 ^ z) # 9007199254740992)
              = Q2Qc (9007199254740991 # 9007199254740992) * Qc_of_Z (2 ^ z)) as ->.
      { apply Qc_is_canon. simpl. rewrite !Qred_correct. unfold Qeq; simpl. lia. }
      apply Qcmult_le_compat_r; [done|]. by apply Qclt_le_weak. }
    change (nmul (Fin r2) (ofZ (2 ^ z))) with (Fin (r2 * Qc_of_Z (2 ^ z))).
    rewrite E3. exists (Qfloor r3). split; [done|]. split.
    + by apply Qc_floor_lb.
    + apply Qc_floor_ub. eapply Qcle_lt_trans; [exact U3|].
      unfold Qclt; simpl. rewrite Qred_correct. unfold Qlt; simpl. lia.
  - intros Hle. apply tileColumn_mono; [lia|]. by apply nleb_Fin.
  - unfold tileColumn. rewrite pow2_ofZ by lia.
    assert (binary64 (ndiv (binary64 (nadd (ofZ (-180)) (ofZ 180))) (ofZ 360)) = ofZ 0)
      as -> by compute_done.
    rewrite nmul_ofZ. apply binary64_ofZ. lia.
  - unfold tileColumn. rewrite pow2_ofZ by lia.
    assert (binary64 (ndiv (binary64 (nadd (ofZ 180) (ofZ 180))) (ofZ 360)) = ofZ 1)
      as -> by compute_done.
    rewrite nmul_ofZ, Z.mul_1_l. done.
  - unfold tileColumn. rewrite pow2_ofZ by lia.
    assert (binary64 (ndiv (binary64 (nadd (Fin (Q2Qc (6333186975989759 # 35184372088832)))
                                           (ofZ 180))) (ofZ 360)) = ofZ 1)
      as -> by compute_done.
    rewrite nmul_ofZ, Z.mul_1_l. done.
Qed.

(** X6. On a platform whose [Math.tan], [Math.cos] and [Math.log] are exact
    at 0, 0 and 1, the equator projects to the middle row of the tile grid:
    [y = 2^z / 2], whatever the longitude. *)
Theorem lonLatToTile_equator (lon : num) (z : Z) (pi : Qc) :
  (0 ≤ z)%Z → Math_PI = Fin pi → pi ≠ 0 →
  Math_tan (ofZ 0) = ofZ 0 → Math_cos (ofZ 0) = ofZ 1 → Math_log (ofZ 1) = ofZ 0 →
  pt_y (lonLatToTile lon (ofZ 0) z) = ndiv (ofZ (2 ^ z)) (ofZ 2).
Proof.
  intros Hz Hpi Hpi0 Htan Hcos Hlog. unfold lonLatToTile. cbn [pt_y].
  rewrite pow2_ofZ, Hpi by done.
  assert (ndiv (nmul (ofZ 0) (Fin pi)) (ofZ 180) = ofZ 0) as ->.
  { unfold ofZ, nmul, ndiv. rewrite decide_False by (by apply Qc_of_Z_nonzero).
    apply (f_equal Fin). rewrite Z2Qc_inj_0. field. by apply Qc_of_Z_nonzero. }
  rewrite Htan, Hcos.
  assert (nadd (ofZ 0) (ndiv (ofZ 1) (ofZ 1)) = ofZ 1) as -> by compute_done.
  rewrite Hlog.
  unfold ofZ, nmul, ndiv, nsub, nadd, nneg.
  rewrite !decide_False by (done || by apply Qc_of_Z_nonzero).
  apply (f_equal Fin). rewrite Z2Qc_inj_0, Z2Qc_inj_1. field.
  split; [by apply Qc_of_Z_nonzero|done].
Qed.

End ProjectionFacts.

Lemma tileColumn_index_witness :
  ∃ k : Z, Math_floor (tileColumn (Fin (Qc_of_Z 10)) 12) = ofZ k ∧ (0 ≤ k < 2 ^ 12)%Z.
Proof.
  exact (proj1 (tileColumn_index (Qc_of_Z 10) (Qc_of_Z 10) 12 ltac:(lia))
           (proj1 (nleb_Fin (Qc_of_Z (-180)) (Qc_of_Z 10)) eq_refl)
           (proj1 (nleb_Fin (Qc_of_Z 10) (Q2Qc (3166593487994879 # 17592186044416)))
              eq_refl)).
Defined.

Lemma lonLatToTile_equator_witness :
  pt_y (@lonLatToTile (demoPlatform rampTile) (ofZ 7) (ofZ 0) 12)
  = ndiv (ofZ (2 ^ 12)) (ofZ 2).
Proof.
  exact (@lonLatToTile_equator (demoPlatform rampTile) (ofZ 7) 12 (Q2Qc (355 # 113))
           ltac:(lia) eq_refl ltac:(discriminate)
           eq_refl eq_refl ltac:(compute_done)).
Defined.

(** ** [circlesForAlignment] *)

Section CircleFacts.
Local Open Scope Qc_scope.


End CircleFacts.


(** ** [padStart] and the layer numbers *)

Lemma string_length_app (s1 s2 : string) :
  String.length (s1 +:+ s2) = (String.length s1 + String.length s2)%nat.
Proof. induction s1 as [|c s1 IH]; simpl; [done|]. by f_equal. Qed.

Lemma zeros_length (k : nat) : String.length (zeros k) = k.
Proof. induction k as [|k IH]; simpl; [done|]. by f_equal. Qed.

(** X8. [padStart s len] pads on the left with zeros up to [len]
    characters and never truncates: its length is the larger of [len] and
    the length of [s], and a string already [len] long or longer is returned
    unchanged (a layer number above 999 keeps its four digits). *)
Theorem padStart_length (s : string) (len : nat) :
  String.length (padStart s len) = Nat.max len (String.length s)
  ∧ ((len ≤ String.length s)%nat → padStart s len = s).
Proof.
  unfold padStart. rewrite string_length_app, zeros_length.
  split; [lia|].
  intros Hlen. by replace (len - String.length s)%nat with 0%nat by lia.
Qed.

(** ** The archive: [zip.file] *)

Section ZipFacts.

Lemma zip_file_absent (name : string) (c : FileContent) (z : Zip) :
  name ∉ z.*1 → zip_file name c z = z ++ [(name, c)].
Proof.
  induction z as [|[n c0] z IH]; simpl; [done|].
  intros Hn. apply not_elem_of_cons in Hn as [Hne Hn].
  rewrite decide_False by done. by rewrite IH.
Qed.

Lemma zip_file_present (name : string) (c : FileContent) (z : Zip) :
  name ∈ z.*1 → (zip_file name c z).*1 = z.*1.
Proof.
  induction z as [|[n c0] z IH]; simpl.
  - by intros ?%elem_of_nil.
  - intros Hn. destruct (decide (n = name)) as [->|Hne]; [done|].
    apply elem_of_cons in Hn as [->|Hn]; [done|].
    rewrite !fmap_cons. f_equal. by apply IH.
Qed.

Lemma zip_file_here (name : string) (c : FileContent) (z : Zip) :
  (name, c) ∈ zip_file name c z.
Proof.
  induction z as [|[n c0] z IH]; simpl.
  - apply list_elem_of_singleton. done.
  - destruct (decide (n = name)); [apply list_elem_of_here|].
    by apply list_elem_of_further.
Qed.

Lemma zip_file_other (name : string) (c : FileContent) (z : Zip) n c' :
  n ≠ name → (n, c') ∈ zip_file name c z ↔ (n, c') ∈ z.
Proof.
  intros Hne. induction z as [|[n0 c0] z IH]; simpl.
  - rewrite list_elem_of_singleton. split; [by intros [=]|by intros ?%elem_of_nil].
  - destruct (decide (n0 = name)) as [->|Hn0].
    + rewrite !elem_of_cons. split; (intros [[=]|?]; [done|by right]).
    + rewrite !elem_of_cons, IH. done.
Qed.

Lemma zip_file_names (name : string) (c : FileContent) (z : Zip) :
  (zip_file name c z).*1 = if decide (name ∈ z.*1) then z.*1 else z.*1 ++ [name].
Proof.
  destruct (decide (name ∈ z.*1)) as [Hin|Hout].
  - by apply zip_file_present.
  - rewrite zip_file_absent by done. by rewrite fmap_app.
Qed.

(** X9. [zip.file(name, content)] on an archive with distinct names: the
    archive then holds [content] under [name] and nothing else under that
    name, every other entry is kept, and the names stay distinct.  A new
    name is appended after the existing entries; an existing name keeps its
    place and only has its content replaced. *)
Theorem zip_file_spec (name : string) (c : FileContent) (z : Zip) :
  NoDup z.*1 →
  NoDup (zip_file name c z).*1
  ∧ (∀ c', (name, c') ∈ zip_file name c z ↔ c' = c)
  ∧ (∀ n c', n ≠ name → (n, c') ∈ zip_file name c z ↔ (n, c') ∈ z)
  ∧ (name ∉ z.*1 → zip_file name c z = z ++ [(name, c)])
  ∧ (name ∈ z.*1 →
     (zip_file name c z).*1 = z.*1 ∧ length (zip_file name c z) = length z).
Proof.
  intros Hnd.
  assert (NoDup (zip_file name c z).*1) as Hnd'.
  { rewrite zip_file_names. case_decide; [done|].
    apply NoDup_app. split; [done|]. split; [|apply NoDup_singleton].
    intros n Hn ->%list_elem_of_singleton. done. }
  split; [done|]. split; [|split; [|split]].
  - intros c'. split; [|intros ->; apply zip_file_here].
    intros Hc'. pose proof (zip_file_here name c z) as Hc.
    revert Hnd' Hc Hc'. generalize (zip_file name c z). intros z' Hnd' Hc Hc'.
    apply list_elem_of_lookup in Hc as [i Hi]. apply list_elem_of_lookup in Hc' as [j Hj].
    assert (i = j) as ->.
    { eapply NoDup_lookup; [exact Hnd'| |];
        rewrite list_lookup_fmap; [by rewrite Hi|by rewrite Hj]. }
    congruence.
  - intros n c' Hne. by apply zip_file_other.
  - apply zip_file_absent.
  - intros Hin. split; [by apply zip_file_present|].
    rewrite <-(length_fmap fst (zip_file name c z)), zip_file_present by done.
    by rewrite length_fmap.
Qed.

End ZipFacts.

Lemma zip_file_spec_witness :
  zip_file "README.txt" (ReadmeFile (demoReadme (ofZ 30) 4)) demoZip = demoZip
  ∧ NoDup (zip_file "a.svg" (SvgFile demoLayer) demoZip).*1.
Proof.
  split; [reflexivity|].
  exact (proj1 (zip_file_spec "a.svg" (SvgFile demoLayer) demoZip
                  ltac:(compute_done))).
Defined.

(** ** Layer file names *)

Section NameFacts.
Local Open Scope string_scope.

Lemma plain_app (a b : string) : plain a → plain b → plain (a +:+ b).
Proof. induction a as [|c a IH]; simpl; [done|]. intros [? ?] ?. split; auto. Qed.

Lemma plain_zeros (k : nat) : plain (zeros k).
Proof. induction k as [|k IH]; simpl; [done|]. split; [done|exact IH]. Qed.

Lemma pretty_N_char_plain (x : N) :
  String (pretty_N_char x) "" ≠ "_".
Proof. unfold pretty_N_char. by repeat case_match. Qed.

Lemma pretty_N_go_plain (x : N) (s : string) : plain s → plain (pretty_N_go x s).
Proof.
  revert s. induction (N.lt_wf_0 x) as [x _ IH]; intros s Hs.
  destruct (decide (x = 0%N)) as [->|Hx]; [by rewrite pretty_N_go_0|].
  rewrite pretty_N_go_step by lia. apply IH; [apply N.div_lt; lia|].
  simpl. split; [apply pretty_N_char_plain|done].
Qed.

Lemma pretty_N_go_head (x : N) (s : string) :
  (0 < x)%N →
  ∃ c rest, pretty_N_go x s = String c rest ∧ String c "" ≠ "0".
Proof.
  revert s. induction (N.lt_wf_0 x) as [x _ IH]; intros s Hx.
  rewrite pretty_N_go_step by done.
  destruct (decide (x < 10)%N) as [Hlt|Hge].
  - rewrite N.div_small, pretty_N_go_0 by done.
    eexists _, _. split; [done|].
    rewrite N.mod_small by done.
    assert (x = 1 ∨ x = 2 ∨ x = 3 ∨ x = 4 ∨ x = 5 ∨ x = 6
            ∨ x = 7 ∨ x = 8 ∨ x = 9)%N as Hcases by lia.
    destruct_or!; by subst.
  - apply IH; [apply N.div_lt; lia|]. apply N.div_str_pos. lia.
Qed.

Lemma pretty_nat_plain (n : nat) : plain (pretty n).
Proof.
  unfold pretty, pretty_nat, pretty, pretty_N. case_decide; [by split|].
  by apply pretty_N_go_plain.
Qed.

Lemma pretty_nat_head (n : nat) :
  (1 ≤ n)%nat → ∃ c rest, pretty n = String c rest ∧ String c "" ≠ "0".
Proof.
  intros Hn. unfold pretty, pretty_nat, pretty, pretty_N.
  rewrite decide_False by lia. apply pretty_N_go_head. lia.
Qed.

Lemma split_plain (a b r r' : string) :
  plain a → plain b → a +:+ "_" +:+ r = b +:+ "_" +:+ r' → a = b.
Proof.
  revert b. induction a as [|c a IH]; intros [|d b]; simpl; try done.
  - intros _ [Hd _] [= <- _]. done.
  - intros [Hc _] _ [= -> _]. done.
  - intros [_ Ha] [_ Hb] [= -> E]. f_equal. by apply IH.
Qed.

Lemma zeros_inj (k k' : nat) (a b : string) :
  (∃ c rest, a = String c rest ∧ String c "" ≠ "0") →
  (∃ c rest, b = String c rest ∧ String c "" ≠ "0") →
  zeros k +:+ a = zeros k' +:+ b → a = b.
Proof.
  intros (c & ra & -> & Hc) (d & rb & -> & Hd).
  revert k'. induction k as [|k IH]; intros [|k']; simpl; try done.
  - intros [= -> _]. done.
  - intros [= <- _]. done.
  - intros [= E]. by apply (IH k').
Qed.

Lemma layerNumber_inj (i j : nat) :
  (1 ≤ i)%nat → (1 ≤ j)%nat →
  padStart (pretty i) 3 = padStart (pretty j) 3 → i = j.
Proof.
  intros Hi Hj E. unfold padStart in E.
  apply (inj pretty). eapply zeros_inj; [| |exact E]; by apply pretty_nat_head.
Qed.

Lemma layerNumber_plain (i : nat) : plain (padStart (pretty i) 3).
Proof. apply plain_app; [apply plain_zeros|apply pretty_nat_plain]. Qed.

Lemma revisedName_inj (i j : nat) (l l' : num) :
  (1 ≤ i)%nat → (1 ≤ j)%nat → revisedName i l = revisedName j l' → i = j.
Proof.
  intros Hi Hj. unfold revisedName. simpl. intros [=E].
  apply layerNumber_inj; [done..|].
  eapply split_plain; [apply layerNumber_plain..|exact E].
Qed.

Lemma layerName_revisedName (idx : nat) (level : num) :
  layerName idx level = revisedName (S idx) level.
Proof. unfold layerName, revisedName. by rewrite Nat.add_1_r. Qed.

Lemma layerName_number (i j : nat) (l l' : num) :
  layerName i l = layerName j l' → i = j.
Proof. rewrite !layerName_revisedName. intros E%revisedName_inj; lia. Qed.

Lemma layerName_not_readme (i : nat) (l : num) : layerName i l ≠ "README.txt".
Proof. unfold layerName. simpl. discriminate. Qed.

Lemma revisedName_not_readme (i : nat) (l : num) : revisedName i l ≠ "README.txt".
Proof. unfold revisedName. simpl. discriminate. Qed.

(** X10. The name of a layer file determines its number: two layers with
    different positions never share a name, whatever their elevations, and
    no layer is named README.txt; so [zip.file] never overwrites an entry of
    the archive. *)
Theorem layerName_inj (i j : nat) (l l' : num) :
  (layerName i l = layerName j l' → i = j)
  ∧ layerName i l ≠ "README.txt".
Proof. split; [apply layerName_number|apply layerName_not_readme]. Qed.

End NameFacts.

(** ** The archive of a download *)

Section ArchiveFacts.
Context `{Platform}.
Local Opaque layerName.

Lemma entry_name (n n' : string) (c c' : FileContent) :
  (n, c) = (n', c') → n = n'.
Proof. congruence. Qed.

Lemma layerEntries_elem body holes sx sy idx fs e :
  e ∈ layerEntries body holes sx sy idx fs →
  ∃ (k : nat) (f : Feature),
    (idx ≤ k)%nat ∧ fs !! (k - idx)%nat = Some f ∧ emitted f
    ∧ e = (layerName k (value f),
           SvgFile (layerSvg body holes sx sy (default ""%string (pathGen f)))).
Proof.
  revert idx. induction fs as [|f fs IH]; intros idx; simpl.
  - by intros ?%elem_of_nil.
  - destruct (falsy (pathGen f)) eqn:Ef.
    + intros (k & f' & Hk & Hf' & He & ->)%IH. exists k, f'.
      split; [lia|]. split; [|done].
      replace (k - idx)%nat with (S (k - S idx)) by lia. done.
    + intros [->|He]%elem_of_cons.
      * exists idx, f. rewrite Nat.sub_diag. done.
      * apply IH in He as (k & f' & Hk & Hf' & He & ->). exists k, f'.
        split; [lia|]. split; [|done].
        replace (k - idx)%nat with (S (k - S idx)) by lia. done.
Qed.

Lemma layerEntries_fresh body holes sx sy idx fs (k : nat) (l : num) :
  (k < idx)%nat → layerName k l ∉ (layerEntries body holes sx sy idx fs).*1.
Proof.
  intros Hk (e & E & (k' & f & Hk' & _ & _ & ->)%layerEntries_elem)%list_elem_of_fmap.
  simpl in E. apply layerName_number in E. lia.
Qed.

Lemma layerEntries_NoDup body holes sx sy idx fs :
  NoDup (layerEntries body holes sx sy idx fs).*1.
Proof.
  revert idx. induction fs as [|f fs IH]; intros idx; simpl; [apply NoDup_nil_2|].
  destruct (falsy (pathGen f)); [apply IH|].
  rewrite fmap_cons. apply NoDup_cons. split; [|apply IH].
  apply layerEntries_fresh. lia.
Qed.

Lemma layerEntries_ascending body holes sx sy idx fs (i j k1 k2 : nat) l1 l2 c1 c2 :
  (i < j)%nat →
  layerEntries body holes sx sy idx fs !! i = Some (layerName k1 l1, c1) →
  layerEntries body holes sx sy idx fs !! j = Some (layerName k2 l2, c2) →
  (k1 < k2)%nat.
Proof.
  revert idx i j. induction fs as [|f fs IH]; intros idx i j Hij; simpl; [done|].
  destruct (falsy (pathGen f)); [by apply IH|].
  destruct i as [|i], j as [|j]; try lia; simpl.
  - intros Hi Hj%list_elem_of_lookup_2.
    assert (layerName idx (value f) = layerName k1 l1) as E by congruence.
    apply layerName_number in E. subst k1.
    apply layerEntries_elem in Hj as (k & f' & Hk & _ & _ & E%entry_name).
    apply layerName_number in E. lia.
  - apply IH. lia.
Qed.

Lemma writeLayers_zip body holes sx sy idx fs a :
  (∀ (e : string * FileContent) (k : nat) (l : num),
     e ∈ zip a → (idx ≤ k)%nat → e.1 ≠ layerName k l) →
  zip (writeLayers body holes sx sy idx fs a)
  = zip a ++ layerEntries body holes sx sy idx fs
  ∧ written (writeLayers body holes sx sy idx fs a)
    = (written a + length (layerEntries body holes sx sy idx fs))%nat.
Proof.
  revert idx a. induction fs as [|f fs IH]; intros idx a Hfresh; simpl.
  - by rewrite app_nil_r, Nat.add_0_r.
  - destruct (falsy (pathGen f)).
    + apply IH. intros e k l He Hk. apply Hfresh; [done|lia].
    + assert (layerName idx (value f) ∉ (zip a).*1) as Hnew.
      { intros (e & E & He)%list_elem_of_fmap. by apply (Hfresh e idx (value f)). }
      destruct (IH (S idx)
                  {| zip := zip_file (layerName idx (value f))
                              (SvgFile (layerSvg body holes sx sy
                                          (default ""%string (pathGen f)))) (zip a);
                     written := S (written a) |}) as [-> ->].
      * cbn [zip]. rewrite zip_file_absent by done.
        intros e k l [He| ->%list_elem_of_singleton]%elem_of_app Hk.
        -- apply Hfresh; [done|lia].
        -- simpl. intros E%layerName_number. lia.
      * cbn [zip written]. rewrite zip_file_absent by done.
        rewrite <-app_assoc. simpl. split; [done|lia].
Qed.

(** X11. A downloaded archive consists of the layer files followed by
    README.txt as its last entry.  The manifest reports exactly the number
    of layer files in the archive and the request's interval and grid; all
    names in the archive are distinct; and the layer files appear in
    ascending order of their numbers. *)
Theorem archive_shape (fuel : nat) (body : Body) (z : Zip) :
  response (POST fuel body) = Some (ZipDownload z) →
  ∃ (layers : Zip) (m : Readme),
    z = layers ++ [("README.txt"%string, ReadmeFile m)]
    ∧ readme_written m = length layers
    ∧ readme_interval m = intervalM body ∧ readme_grid m = grid body
    ∧ NoDup z.*1
    ∧ Forall (λ e, ∃ (k : nat) (level : num) (svg : Svg),
                 e = (layerName k level, SvgFile svg)) layers
    ∧ ∀ (i j k1 k2 : nat) l1 l2 c1 c2,
        (i < j)%nat →
        layers !! i = Some (layerName k1 l1, c1) →
        layers !! j = Some (layerName k2 l2, c2) →
        (k1 < k2)%nat.
Proof.
  intros (reqs & s & (ts & fs & _ & _ & _ & ->)%layerStage_zip_inv)%POST_zip_inv.
  unfold layersOf.
  destruct (writeLayers_zip body (holesOf body) (scaleXOf body) (scaleYOf body)
              0 fs {| zip := []; written := 0 |}) as [-> ->].
  { intros e k l He. by apply elem_of_nil in He. }
  cbn [zip written app]. rewrite Nat.add_0_l.
  set (layers := layerEntries body (holesOf body) (scaleXOf body) (scaleYOf body) 0 fs).
  assert ("README.txt"%string ∉ layers.*1) as Hreadme.
  { intros (e & E & (k & f & _ & _ & _ & ->)%layerEntries_elem)%list_elem_of_fmap.
    simpl in E. by eapply layerName_not_readme. }
  rewrite zip_file_absent by done.
  exists layers, (readme body s (length layers)).
  split; [done|]. split; [done|]. split; [done|]. split; [done|].
  split; [|split].
  - rewrite fmap_app. apply NoDup_app. split; [apply layerEntries_NoDup|].
    split; [|apply NoDup_singleton].
    intros n Hn ->%list_elem_of_singleton. done.
  - apply Forall_forall. intros e (k & f & _ & _ & _ & ->)%layerEntries_elem.
    by eexists _, _, _.
  - intros i j k1 k2 l1 l2 c1 c2. apply layerEntries_ascending.
Qed.

End ArchiveFacts.

Lemma archive_shape_witness :
  ∃ (layers : Zip) (m : Readme),
    demoZip = layers ++ [("README.txt"%string, ReadmeFile m)]
    ∧ readme_written m = length layers.
Proof.
  destruct (@archive_shape (demoPlatform rampTile) 256 (demoBody (ofZ 30)) demoZip)
    as (layers & m & E & Hn & _).
  - rewrite demo_export. reflexivity.
  - exists layers, m. split; [exact E|exact Hn].
Defined.

(** ** The layer loop of the later listing *)

Section RevisedFacts.
Context `{Platform}.
Local Opaque layerName revisedName.

Lemma emitted_falsy (f : Feature) : emitted f ↔ falsy (pathGen f) = false.
Proof. done. Qed.

Lemma not_emitted_falsy (f : Feature) : ¬ emitted f ↔ falsy (pathGen f) = true.
Proof. unfold emitted. by destruct (falsy (pathGen f)). Qed.

Lemma writeLayersRevised_zip body holes sx sy fs a :
  (1 ≤ layerIndex a)%nat →
  (∀ (e : string * FileContent) (k : nat) (l : num),
     e ∈ rev_zip a → (layerIndex a ≤ k)%nat → e.1 ≠ revisedName k l) →
  rev_zip (writeLayersRevised body holes sx sy fs a)
  = rev_zip a
    ++ imap (λ k f, (revisedName (layerIndex a + k) (value f),
                     SvgFile (layerSvg body holes sx sy
                                (default ""%string (pathGen f)))))
         (filter emitted fs)
  ∧ layerIndex (writeLayersRevised body holes sx sy fs a)
    = (layerIndex a + length (filter emitted fs))%nat.
Proof.
  revert a. induction fs as [|f fs IH]; intros a Hpos Hfresh; simpl.
  - by rewrite app_nil_r, Nat.add_0_r.
  - rewrite filter_cons.
    destruct (decide (emitted f)) as [Hf|Hf].
    + rewrite (proj1 (emitted_falsy f) Hf).
      assert (revisedName (layerIndex a) (value f) ∉ (rev_zip a).*1) as Hnew.
      { intros (e & E & He)%list_elem_of_fmap.
        by apply (Hfresh e (layerIndex a) (value f)). }
      destruct (IH {| rev_zip := zip_file (revisedName (layerIndex a) (value f))
                                   (SvgFile (layerSvg body holes sx sy
                                               (default ""%string (pathGen f))))
                                   (rev_zip a);
                      layerIndex := S (layerIndex a) |}) as [-> ->].
      * cbn [layerIndex]. lia.
      * cbn [rev_zip layerIndex]. rewrite zip_file_absent by done.
        intros e k l [He| ->%list_elem_of_singleton]%elem_of_app Hk.
        -- apply Hfresh; [done|lia].
        -- simpl. intros E%revisedName_inj; lia.
      * cbn [rev_zip layerIndex]. rewrite zip_file_absent by done.
        rewrite <-app_assoc. cbn [app imap length]. rewrite Nat.add_0_r.
        split; [|lia]. do 2 f_equal.
        apply imap_ext. intros k f' _. cbn. do 2 f_equal. lia.
    + rewrite (proj1 (not_emitted_falsy f) Hf). by apply IH.
Qed.

Lemma revised_archive (body : Body) (lo hi : num) (fs : list Feature) :
  revisedZip body lo hi fs
  = imap (λ k f, (revisedName (S k) (value f),
                  SvgFile (layerSvg body (holesOf body) (scaleXOf body) (scaleYOf body)
                             (default ""%string (pathGen f)))))
      (filter emitted fs)
    ++ [("README.txt"%string,
         ReadmeFile {| readme_min := lo;
                       readme_max := hi;
                       readme_interval := intervalM body;
                       readme_grid := grid body;
                       readme_written := length (filter emitted fs) |})].
Proof.
  unfold revisedZip.
  destruct (writeLayersRevised_zip body (holesOf body) (scaleXOf body) (scaleYOf body)
              fs {| rev_zip := []; layerIndex := 1 |}) as [-> ->].
  { cbn. lia. }
  { intros e k l He. by apply elem_of_nil in He. }
  cbn [rev_zip layerIndex app].
  replace (1 + length (filter emitted fs) - 1)%nat
    with (length (filter emitted fs)) by lia.
  apply zip_file_absent.
  intros (e & E & (k & He)%list_elem_of_lookup)%list_elem_of_fmap.
  rewrite list_lookup_imap in He.
  destruct (filter emitted fs !! k) as [f|]; [|done].
  simpl in He. injection He as <-. simpl in E. by eapply revisedName_not_readme.
Qed.

(** X12. The later listing numbers the layer files contiguously: the k-th
    feature that has a path (counting from 0) is written as layer k+1, in
    order, whatever features without a path lie in between; README.txt
    follows as the last entry and reports the number of layer files. *)
Theorem revised_numbers_contiguous (body : Body) (lo hi : num) (fs : list Feature) :
  revisedZip body lo hi fs
  = imap (λ k f, (revisedName (S k) (value f),
                  SvgFile (layerSvg body (holesOf body) (scaleXOf body) (scaleYOf body)
                             (default ""%string (pathGen f)))))
      (filter emitted fs)
    ++ [("README.txt"%string,
         ReadmeFile {| readme_min := lo;
                       readme_max := hi;
                       readme_interval := intervalM body;
                       readme_grid := grid body;
                       readme_written := length (filter emitted fs) |})].
Proof. apply revised_archive. Qed.

Lemma layerEntries_emitted body holes sx sy idx fs rest :
  Forall emitted fs →
  layerEntries body holes sx sy idx (fs ++ rest)
  = imap (λ k f, (layerName (idx + k) (value f),
                  SvgFile (layerSvg body holes sx sy (default ""%string (pathGen f)))))
      fs
    ++ layerEntries body holes sx sy (idx + length fs) rest.
Proof.
  revert idx. induction fs as [|f fs IH]; intros idx Hfs; simpl.
  - by rewrite Nat.add_0_r.
  - apply Forall_cons in Hfs as [Hf Hfs].
    rewrite (proj1 (emitted_falsy f) Hf), IH by done.
    rewrite Nat.add_0_r. f_equal.
    replace (idx + S (length fs))%nat with (S idx + length fs)%nat by lia.
    f_equal. apply imap_ext. intros k f' _. cbn. do 2 f_equal. lia.
Qed.

Lemma layerEntries_skipped body holes sx sy idx fs :
  Forall (λ f, ¬ emitted f) fs → layerEntries body holes sx sy idx fs = [].
Proof.
  revert idx. induction fs as [|f fs IH]; intros idx Hfs; simpl; [done|].
  apply Forall_cons in Hfs as [Hf Hfs].
  rewrite (proj1 (not_emitted_falsy f) Hf). by apply IH.
Qed.

Lemma filter_emitted_all (fs : list Feature) :
  Forall emitted fs → filter emitted fs = fs.
Proof.
  induction 1 as [|f fs Hf Hfs IH]; [done|].
  by rewrite filter_cons_True, IH.
Qed.

Lemma filter_emitted_none (fs : list Feature) :
  Forall (λ f, ¬ emitted f) fs → filter emitted fs = [].
Proof.
  induction 1 as [|f fs Hf Hfs IH]; [done|].
  by rewrite filter_cons_False.
Qed.

(** X13. When every feature without a path comes after every feature with
    one (a contour generator whose geometries run empty from some threshold
    on), the first listing names its layer files as the later listing does,
    with numbers 1 to N without a gap, and the two archives have the same
    entries in the same order: the same names, the same fields in every
    layer document and the same numbers in the manifest.  (The wording of
    the documents, which differs in white space and in the manifest's
    labels, is outside the records compared here.) *)
Theorem listings_agree (body : Body) (s : Sampling) (withPath noPath : list Feature) :
  Forall emitted withPath → Forall (λ f, ¬ emitted f) noPath →
  let contourFeatures := withPath ++ noPath in
  zip_file "README.txt"
    (ReadmeFile (readme body s (written (layersOf body contourFeatures))))
    (zip (layersOf body contourFeatures))
  = revisedZip body (minE s) (maxE s) contourFeatures.
Proof.
  intros Hwith Hno fs. subst fs.
  rewrite revised_archive.
  rewrite filter_app, filter_emitted_all, filter_emitted_none, app_nil_r by done.
  unfold layersOf.
  destruct (writeLayers_zip body (holesOf body) (scaleXOf body) (scaleYOf body)
              0 (withPath ++ noPath) {| zip := []; written := 0 |}) as [-> ->].
  { intros e k l He. by apply elem_of_nil in He. }
  cbn [zip written app]. rewrite Nat.add_0_l.
  rewrite layerEntries_emitted, layerEntries_skipped, app_nil_r by done.
  rewrite length_imap.
  assert (imap (λ k f, (layerName (0 + k) (value f),
                        SvgFile (layerSvg body (holesOf body) (scaleXOf body)
                                   (scaleYOf body) (default ""%string (pathGen f)))))
               withPath
          = imap (λ k f, (revisedName (S k) (value f),
                          SvgFile (layerSvg body (holesOf body) (scaleXOf body)
                                     (scaleYOf body) (default ""%string (pathGen f)))))
               withPath) as ->.
  { apply imap_ext. intros k f _. cbn. by rewrite layerName_revisedName. }
  apply zip_file_absent.
  intros (e & E & (k & He)%list_elem_of_lookup)%list_elem_of_fmap.
  rewrite list_lookup_imap in He.
  destruct (withPath !! k) as [f|]; [|done].
  simpl in He. injection He as <-. simpl in E. by eapply revisedName_not_readme.
Qed.

End RevisedFacts.

Lemma listings_agree_witness :
  let withPath := [ {| value := ofZ 30; coordinates := [[[ (ofZ 0, ofZ 0) ]]] |} ] in
  let noPath := [ {| value := ofZ 150; coordinates := [] |} ] in
  zip_file "README.txt"
    (ReadmeFile (readme (demoBody (ofZ 30)) demoSampling
                   (written (@layersOf (demoPlatform rampTile) (demoBody (ofZ 30))
                               (withPath ++ noPath)))))
    (zip (@layersOf (demoPlatform rampTile) (demoBody (ofZ 30)) (withPath ++ noPath)))
  = @revisedZip (demoPlatform rampTile) (demoBody (ofZ 30)) (ofZ 0) (ofZ 128)
      (withPath ++ noPath).
Proof.
  intros withPath noPath.
  apply (@listings_agree (demoPlatform rampTile) (demoBody (ofZ 30)) demoSampling
           withPath noPath).
  - repeat constructor.
  - repeat constructor. discriminate.
Defined.

(** ** Counting loops as runs over lists *)

Section RunFacts.
Context {St : Type}.

Lemma runList_app {A : Type} (body : A → St → res St) (l1 l2 : list A) (s : St) :
  runList body (l1 ++ l2) s
  = match runList body l1 s with
    | Done s' => runList body l2 s'
    | r => r
    end.
Proof.
  revert s. induction l1 as [|a l1 IH]; intros s; simpl; [done|].
  destruct (body a s); auto.
Qed.

Lemma runList_ext {A : Type} (body1 body2 : A → St → res St) (l : list A) (s : St) :
  (∀ a s, body1 a s = body2 a s) → runList body1 l s = runList body2 l s.
Proof.
  intros Hext. revert s. induction l as [|a l IH]; intros s; simpl; [done|].
  rewrite Hext. destruct (body2 a s); auto.
Qed.

(** [for (v = lo; v <= hi; v++)] over integers visits [lo .. hi]. *)
Lemma forLoop_le_runList fuel (body : num → St → res St) (lo hi : Z) (s : St) :
  lo ≤ hi + 1 → (Z.to_nat (hi - lo + 1) ≤ fuel)%nat →
  forLoop fuel (λ v, nleb v (ofZ hi)) incr body (ofZ lo) s
  = runList (λ k, body (ofZ k)) (seqZ lo (hi - lo + 1)) s.
Proof.
  intros Hlo Hfuel. remember (Z.to_nat (hi - lo + 1)) as n eqn:Hn.
  revert lo s fuel Hlo Hfuel Hn.
  induction n as [|n IH]; intros lo s fuel Hlo Hfuel Hn.
  - rewrite forLoop_exit by (rewrite nleb_ofZ; apply bool_decide_eq_false; lia).
    by rewrite seqZ_nil by lia.
  - destruct fuel as [|fuel]; [lia|].
    rewrite forLoop_enter by (rewrite nleb_ofZ; apply bool_decide_eq_true; lia).
    rewrite seqZ_cons by lia. cbn [runList].
    destruct (body (ofZ lo) s) as [s1| |]; try done.
    rewrite incr_ofZ.
    replace (Z.pred (hi - lo + 1)) with (hi - (lo + 1) + 1) by lia.
    replace (Z.succ lo) with (lo + 1) by lia.
    apply IH; lia.
Qed.

(** [for (v = lo; v < hi; v++)] over integers visits [lo .. hi - 1]. *)
Lemma forLoop_lt_runList fuel (body : num → St → res St) (lo hi : Z) (s : St) :
  lo ≤ hi → (Z.to_nat (hi - lo) ≤ fuel)%nat →
  forLoop fuel (λ v, nltb v (ofZ hi)) incr body (ofZ lo) s
  = runList (λ k, body (ofZ k)) (seqZ lo (hi - lo)) s.
Proof.
  intros Hlo Hfuel. remember (Z.to_nat (hi - lo)) as n eqn:Hn.
  revert lo s fuel Hlo Hfuel Hn.
  induction n as [|n IH]; intros lo s fuel Hlo Hfuel Hn.
  - rewrite forLoop_exit by (rewrite nltb_ofZ; apply bool_decide_eq_false; lia).
    by rewrite seqZ_nil by lia.
  - destruct fuel as [|fuel]; [lia|].
    rewrite forLoop_enter by (rewrite nltb_ofZ; apply bool_decide_eq_true; lia).
    rewrite seqZ_cons by lia. cbn [runList].
    destruct (body (ofZ lo) s) as [s1| |]; try done.
    rewrite incr_ofZ.
    replace (Z.pred (hi - lo)) with (hi - (lo + 1)) by lia.
    replace (Z.succ lo) with (lo + 1) by lia.
    apply IH; lia.
Qed.

(** Two nested runs are one run over the pairs, outer value by outer
    value. *)
Lemma runList_rows {A B : Type} (f : A → B → St → res St)
    (rows : list B) (cols : list A) (s : St) :
  runList (λ y, runList (λ x, f x y) cols) rows s
  = runList (λ p, f p.1 p.2) (y ← rows; x ← cols; [(x, y)]) s.
Proof.
  revert s. induction rows as [|y rows IH]; intros s; [done|].
  rewrite bind_cons, runList_app. simpl.
  assert (∀ s, runList (λ p, f p.1 p.2) (x ← cols; [(x, y)]) s
               = runList (λ x, f x y) cols s) as ->.
  { clear. induction cols as [|x cols IH]; intros s; simpl; [done|].
    destruct (f x y s); auto. }
  destruct (runList (λ x, f x y) cols s); auto.
Qed.

(** A run whose body completes on every element of the list completes,
    and carries an invariant indexed by the elements already visited. *)
Lemma runList_inv {A : Type} (Inv : list A → St → Prop)
    (body : A → St → res St) (l pre : list A) (s : St) :
  Inv pre s →
  (∀ a pre s, a ∈ l → Inv pre s → ∃ s', body a s = Done s' ∧ Inv (pre ++ [a]) s') →
  ∃ s', runList body l s = Done s' ∧ Inv (pre ++ l) s'.
Proof.
  revert pre s. induction l as [|a l IH]; intros pre s Hinv Hbody; simpl.
  - exists s. by rewrite app_nil_r.
  - destruct (Hbody a pre s) as (s1 & -> & Hinv1); [apply list_elem_of_here|done|].
    destruct (IH (pre ++ [a]) s1) as (s' & Hrun & Hinv'); [done| |].
    { intros a' pre' s' Ha'. apply Hbody. by apply list_elem_of_further. }
    exists s'. split; [done|]. by rewrite <-app_assoc in Hinv'.
Qed.

End RunFacts.

(** ** Typed arrays: read after write *)

Lemma ta_get_set (a : Float32Array) (i k : Z) (v : num) :
  0 ≤ i < ta_length a →
  ta_get (ta_set a (ofZ i) v) (ofZ k)
  = if decide (k = i) then Some v else ta_get a (ofZ k).
Proof.
  intros Hi. unfold ta_set. rewrite ta_index_ofZ by done.
  unfold ta_get, ta_index. rewrite asInteger_ofZ. cbn [ta_length ta_cells].
  destruct (decide (k = i)) as [->|Hne].
  - rewrite decide_True by done. by rewrite lookup_insert_eq.
  - destruct (decide (0 ≤ k < ta_length a)); [|done].
    by rewrite lookup_insert_ne.
Qed.

Lemma ta_get_range (a : Float32Array) (k : Z) (v : num) :
  ta_get a (ofZ k) = Some v → 0 ≤ k < ta_length a.
Proof.
  unfold ta_get, ta_index. rewrite asInteger_ofZ.
  by destruct (decide (0 ≤ k < ta_length a)).
Qed.

Lemma ta_get_blank (k n : Z) :
  0 ≤ k < n →
  ta_get {| ta_length := n; ta_cells := ∅ |} (ofZ k) = Some (ofZ 0).
Proof. intros Hk. rewrite ta_get_ofZ by done. done. Qed.

(** ** Stitching: where each pixel goes *)

Lemma cell_index_inj (w gx gy gx' gy' : Z) :
  0 ≤ gx < w → 0 ≤ gx' < w → gy * w + gx = gy' * w + gx' → gy = gy' ∧ gx = gx'.
Proof.
  intros Hx Hx' E.
  assert (gy = gy') as -> by (destruct (Z.lt_trichotomy gy gy') as [?|[?|?]]; nia).
  split; [done|lia].
Qed.

Lemma elem_of_tileGrid (x0 x1 y0 y1 a b : Z) :
  (a, b) ∈ tileGrid x0 x1 y0 y1 ↔ x0 ≤ a ≤ x1 ∧ y0 ≤ b ≤ y1.
Proof.
  unfold tileGrid. rewrite list_elem_of_bind. split.
  - intros (y & (x & [= -> ->]%list_elem_of_singleton & Hx%elem_of_seqZ)%list_elem_of_bind
              & Hy%elem_of_seqZ). lia.
  - intros [Ha Hb]. exists b. split; [|apply elem_of_seqZ; lia].
    apply list_elem_of_bind. exists a. split; [by apply list_elem_of_singleton|].
    apply elem_of_seqZ. lia.
Qed.

Lemma length_bind_const {A B : Type} (f : A → list B) (l : list A) (c : nat) :
  (∀ a, length (f a) = c) → length (l ≫= f) = (length l * c)%nat.
Proof.
  intros Hf. induction l as [|a l IH]; [done|].
  rewrite bind_cons, length_app, IH, Hf. simpl. lia.
Qed.

Lemma length_tileGrid (x0 x1 y0 y1 : Z) :
  x0 ≤ x1 → y0 ≤ y1 →
  length (tileGrid x0 x1 y0 y1) = Z.to_nat ((x1 - x0 + 1) * (y1 - y0 + 1)).
Proof.
  intros Hx Hy. unfold tileGrid.
  rewrite (length_bind_const _ _ (Z.to_nat (x1 - x0 + 1))).
  - rewrite length_seqZ, <-Z2Nat.inj_mul by lia. f_equal. lia.
  - intros y. rewrite (length_bind_const _ _ 1%nat) by done.
    rewrite length_seqZ. lia.
Qed.

Section StitchFacts.
Context `{Platform}.

Lemma copyPixel_ofZ png g (w a b r k x0 y0 : Z) st :
  xMin g = ofZ x0 → yMin g = ofZ y0 →
  copyPixel png g (ofZ w) (ofZ a) (ofZ b) (ofZ r) (ofZ k) st
  = {| stitched :=
         ta_set (stitched st)
           (ofZ (((b - y0) * 256 + r) * w + ((a - x0) * 256 + k)))
           (pixelElevation png k r);
       requests := requests st |}.
Proof.
  intros Hx Hy. unfold copyPixel, pixelElevation, tileSize. rewrite Hx, Hy.
  by repeat (rewrite nsub_ofZ || rewrite nmul_ofZ || rewrite nadd_ofZ).
Qed.

(** One row of a tile: the loop over [px]. *)
Lemma copyRow_spec fuel png g (w a b r x0 y0 : Z) st :
  xMin g = ofZ x0 → yMin g = ofZ y0 →
  (256 ≤ fuel)%nat →
  let X := (a - x0) * 256 in
  let Y := (b - y0) * 256 + r in
  0 ≤ X → X + 256 ≤ w → 0 ≤ Y → (Y + 1) * w ≤ ta_length (stitched st) →
  ∃ st',
    forLoop fuel (λ px, nltb px tileSize) incr
      (λ px st, Done (copyPixel png g (ofZ w) (ofZ a) (ofZ b) (ofZ r) px st))
      (ofZ 0) st = Done st'
    ∧ requests st' = requests st
    ∧ ta_length (stitched st') = ta_length (stitched st)
    ∧ ∀ gx gy, 0 ≤ gx < w → 0 ≤ gy →
        ta_get (stitched st') (ofZ (gy * w + gx))
        = if decide (gy = Y ∧ X ≤ gx < X + 256)
          then Some (pixelElevation png (gx - X) r)
          else ta_get (stitched st) (ofZ (gy * w + gx)).
Proof.
  intros Hx Hy Hfuel X Y HX HXw HY Hlen.
  apply (forLoop_counted
           (λ k s,
              requests s = requests st
              ∧ ta_length (stitched s) = ta_length (stitched st)
              ∧ ∀ gx gy, 0 ≤ gx < w → 0 ≤ gy →
                  ta_get (stitched s) (ofZ (gy * w + gx))
                  = if decide (gy = Y ∧ X ≤ gx < X + k)
                    then Some (pixelElevation png (gx - X) r)
                    else ta_get (stitched st) (ofZ (gy * w + gx)))
           fuel _ _ 0 256 st); try lia.
  - intros k Hk. unfold tileSize. rewrite nltb_ofZ. apply bool_decide_eq_true. lia.
  - unfold tileSize. rewrite nltb_ofZ. apply bool_decide_eq_false. lia.
  - split; [done|]. split; [done|]. intros gx gy Hgx Hgy.
    rewrite decide_False by lia. done.
  - intros k s Hk (Hreq & Hl & Hcells). eexists. split; [reflexivity|].
    rewrite (copyPixel_ofZ png g w a b r k x0 y0) by done.
    cbn [requests stitched]. split; [done|]. split; [by rewrite ta_set_length|].
    intros gx gy Hgx Hgy.
    fold X Y.
    rewrite ta_get_set by (rewrite Hl; nia).
    rewrite Hcells by done.
    destruct (decide (gy * w + gx = Y * w + (X + k))) as [E|Hne].
    + apply cell_index_inj in E as [-> ->]; [|lia..].
      rewrite decide_True by lia. do 2 f_equal. lia.
    + destruct (decide (gy = Y ∧ X ≤ gx < X + k)) as [[-> ?]|Hn].
      * by rewrite decide_True by lia.
      * rewrite decide_False; [done|].
        intros [-> ?]. apply Hn. split; [done|].
        assert (gx ≠ X + k) by (intros ->; by apply Hne). lia.
Qed.

(** One tile: the loops over [py] and [px]. *)
Lemma copyTile_spec fuel png g (w a b x0 y0 : Z) st :
  xMin g = ofZ x0 → yMin g = ofZ y0 →
  (256 ≤ fuel)%nat →
  let X := (a - x0) * 256 in
  let Y := (b - y0) * 256 in
  0 ≤ X → X + 256 ≤ w → 0 ≤ Y → (Y + 256) * w ≤ ta_length (stitched st) →
  ∃ st',
    copyTile fuel png g (ofZ w) (ofZ a) (ofZ b) st = Done st'
    ∧ requests st' = requests st
    ∧ ta_length (stitched st') = ta_length (stitched st)
    ∧ ∀ gx gy, 0 ≤ gx < w → 0 ≤ gy →
        ta_get (stitched st') (ofZ (gy * w + gx))
        = if decide (Y ≤ gy < Y + 256 ∧ X ≤ gx < X + 256)
          then Some (pixelElevation png (gx - X) (gy - Y))
          else ta_get (stitched st) (ofZ (gy * w + gx)).
Proof.
  intros Hx Hy Hfuel X Y HX HXw HY Hlen. unfold copyTile.
  apply (forLoop_counted
           (λ r s,
              requests s = requests st
              ∧ ta_length (stitched s) = ta_length (stitched st)
              ∧ ∀ gx gy, 0 ≤ gx < w → 0 ≤ gy →
                  ta_get (stitched s) (ofZ (gy * w + gx))
                  = if decide (Y ≤ gy < Y + r ∧ X ≤ gx < X + 256)
                    then Some (pixelElevation png (gx - X) (gy - Y))
                    else ta_get (stitched st) (ofZ (gy * w + gx)))
           fuel _ _ 0 256 st); try lia.
  - intros k Hk. unfold tileSize. rewrite nltb_ofZ. apply bool_decide_eq_true. lia.
  - unfold tileSize. rewrite nltb_ofZ. apply bool_decide_eq_false. lia.
  - split; [done|]. split; [done|]. intros gx gy Hgx Hgy.
    rewrite decide_False by lia. done.
  - intros r s Hr (Hreq & Hl & Hcells).
    destruct (copyRow_spec fuel png g w a b r x0 y0 s Hx Hy Hfuel)
      as (s' & Hrun & Hreq' & Hl' & Hcells'); try (fold X Y; lia).
    { rewrite Hl. fold Y. nia. }
    exists s'. split; [exact Hrun|]. split; [congruence|]. split; [congruence|].
    intros gx gy Hgx Hgy. rewrite Hcells', Hcells by done. fold X Y.
    destruct (decide (gy = Y + r ∧ X ≤ gx < X + 256)) as [[-> ?]|Hn].
    + rewrite decide_True by lia. do 2 f_equal. lia.
    + destruct (decide (Y ≤ gy < Y + r ∧ X ≤ gx < X + 256)) as [?|Hn'].
      * by rewrite decide_True by lia.
      * rewrite decide_False; [done|]. intros [? ?]. 
        destruct (decide (gy = Y + r)) as [->|?]; [apply Hn; lia|apply Hn'; lia].
Qed.

End StitchFacts.

(** ** Stitching: the whole raster *)

Section MosaicFacts.
Context `{Platform}.

Lemma stitchTile_ok fuel z g (x0 x1 y0 y1 a b : Z) png st :
  xMin g = ofZ x0 → yMin g = ofZ y0 →
  (256 ≤ fuel)%nat →
  x0 ≤ a ≤ x1 → y0 ≤ b ≤ y1 →
  fetchPng z (ofZ a) (ofZ b) = Some png →
  let w := (x1 - x0 + 1) * 256 in
  let h := (y1 - y0 + 1) * 256 in
  ta_length (stitched st) = w * h →
  ∃ st',
    stitchTile fuel z g (ofZ w) (ofZ b) (ofZ a) st = Done st'
    ∧ requests st' = requests st ++ [(ofZ a, ofZ b)]
    ∧ ta_length (stitched st') = w * h
    ∧ ∀ gx gy, 0 ≤ gx < w → 0 ≤ gy < h →
        ta_get (stitched st') (ofZ (gy * w + gx))
        = if decide (x0 + gx `div` 256 = a ∧ y0 + gy `div` 256 = b)
          then Some (pixelElevation png (gx `mod` 256) (gy `mod` 256))
          else ta_get (stitched st) (ofZ (gy * w + gx)).
Proof.
  intros Hx Hy Hfuel Ha Hb Hpng w h Hlen. unfold stitchTile. rewrite Hpng.
  destruct (copyTile_spec fuel png g w a b x0 y0
              {| stitched := stitched st; requests := requests st ++ [(ofZ a, ofZ b)] |}
              Hx Hy Hfuel) as (st' & Hrun & Hreq & Hl & Hcells);
    cbn [stitched requests]; try (subst w h; nia).
  cbn [stitched requests] in Hreq, Hl, Hcells.
  exists st'. split; [exact Hrun|]. split; [exact Hreq|]. split; [congruence|].
  intros gx gy Hgx Hgy. rewrite Hcells by lia.
  pose proof (Z.div_mod gx 256 ltac:(lia)) as Hdx.
  pose proof (Z.mod_pos_bound gx 256 ltac:(lia)) as Hmx.
  pose proof (Z.div_mod gy 256 ltac:(lia)) as Hdy.
  pose proof (Z.mod_pos_bound gy 256 ltac:(lia)) as Hmy.
  destruct (decide (x0 + gx `div` 256 = a ∧ y0 + gy `div` 256 = b)) as [[Ea Eb]|Hn].
  - rewrite decide_True by lia. do 2 f_equal; lia.
  - rewrite decide_False; [done|]. intros [? ?]. apply Hn. lia.
Qed.

Lemma stitchTile_failed fuel z g W tx ty st :
  fetchPng z tx ty = None →
  stitchTile fuel z g W ty tx st
  = Throw (TileFetchFailed tx ty)
      {| stitched := stitched st; requests := requests st ++ [(tx, ty)] |}.
Proof. intros Hpng. unfold stitchTile. by rewrite Hpng. Qed.

(** With integer bounds and enough budget the two stitching loops are one
    run over the tiles of the range, row by row. *)
Lemma stitchTiles_runList fuel z (x0 x1 y0 y1 : Z) W st :
  x0 ≤ x1 → y0 ≤ y1 →
  (Z.to_nat (x1 - x0 + 1) ≤ fuel)%nat → (Z.to_nat (y1 - y0 + 1) ≤ fuel)%nat →
  let g := {| xMin := ofZ x0; xMax := ofZ x1; yMin := ofZ y0; yMax := ofZ y1 |} in
  stitchTiles fuel z g W st
  = runList (λ p : Z * Z, stitchTile fuel z g W (ofZ p.2) (ofZ p.1))
      (tileGrid x0 x1 y0 y1) st.
Proof.
  intros Hx Hy Hfx Hfy g. unfold stitchTiles, tileGrid. cbn [xMin xMax yMin yMax g].
  rewrite forLoop_le_runList by lia.
  rewrite <-(runList_rows (λ x y, stitchTile fuel z g W (ofZ y) (ofZ x))).
  apply runList_ext. intros k s. by rewrite forLoop_le_runList by lia.
Qed.

(** A run over tiles of the range that can all be fetched: every tile is
    requested in turn and each cell of a visited tile holds the decoded
    pixel. *)
Lemma stitch_run fuel z g (x0 x1 y0 y1 : Z) (l : list (Z * Z)) st :
  xMin g = ofZ x0 → yMin g = ofZ y0 →
  (256 ≤ fuel)%nat →
  (∀ p, p ∈ l → p ∈ tileGrid x0 x1 y0 y1 ∧ is_Some (fetchPng z (ofZ p.1) (ofZ p.2))) →
  let w := (x1 - x0 + 1) * 256 in
  let h := (y1 - y0 + 1) * 256 in
  ta_length (stitched st) = w * h →
  ∃ st',
    runList (λ p : Z * Z, stitchTile fuel z g (ofZ w) (ofZ p.2) (ofZ p.1)) l st = Done st'
    ∧ requests st' = requests st ++ ((λ p, (ofZ p.1, ofZ p.2)) <$> l)
    ∧ ta_length (stitched st') = w * h
    ∧ ∀ gx gy, 0 ≤ gx < w → 0 ≤ gy < h →
        ta_get (stitched st') (ofZ (gy * w + gx))
        = if decide ((x0 + gx `div` 256, y0 + gy `div` 256) ∈ l)
          then mosaic z x0 y0 gx gy
          else ta_get (stitched st) (ofZ (gy * w + gx)).
Proof.
  intros Hx Hy Hfuel Hl w h Hlen.
  destruct (runList_inv
              (λ pre s,
                 requests s = requests st ++ ((λ p, (ofZ p.1, ofZ p.2)) <$> pre)
                 ∧ ta_length (stitched s) = w * h
                 ∧ ∀ gx gy, 0 ≤ gx < w → 0 ≤ gy < h →
                     ta_get (stitched s) (ofZ (gy * w + gx))
                     = if decide ((x0 + gx `div` 256, y0 + gy `div` 256) ∈ pre)
                       then mosaic z x0 y0 gx gy
                       else ta_get (stitched st) (ofZ (gy * w + gx)))
              (λ p : Z * Z, stitchTile fuel z g (ofZ w) (ofZ p.2) (ofZ p.1))
              l [] st) as (st' & Hrun & Hinv).
  - split; [by rewrite app_nil_r|]. split; [done|].
    intros gx gy _ _. rewrite decide_False; [done|]. by intros ?%elem_of_nil.
  - intros [a b] pre s Hp (Hreq & Hlen' & Hcells).
    destruct (Hl _ Hp) as [[Ha Hb]%elem_of_tileGrid [png Hpng]].
    cbn [fst snd] in *.
    destruct (stitchTile_ok fuel z g x0 x1 y0 y1 a b png s Hx Hy Hfuel Ha Hb Hpng Hlen')
      as (s' & Hrun & Hreq' & Hl' & Hcells').
    exists s'. split; [exact Hrun|].
    split; [by rewrite Hreq', Hreq, fmap_app, app_assoc|]. split; [exact Hl'|].
    intros gx gy Hgx Hgy. rewrite Hcells', Hcells by done.
    destruct (decide (x0 + gx `div` 256 = a ∧ y0 + gy `div` 256 = b)) as [[Ea Eb]|Hn].
    + rewrite decide_True by (apply elem_of_app; right; apply list_elem_of_singleton;
                               by rewrite Ea, Eb).
      unfold mosaic. rewrite Ea, Eb, Hpng. done.
    + destruct (decide ((x0 + gx `div` 256, y0 + gy `div` 256) ∈ pre)) as [Hin|Hout].
      * rewrite decide_True by (apply elem_of_app; by left). done.
      * rewrite decide_False; [done|].
        intros [?|[= ? ?]%list_elem_of_singleton]%elem_of_app; [done|].
        apply Hn. done.
  - exists st'. split; [exact Hrun|]. exact Hinv.
Qed.

End MosaicFacts.

(** ** The stitching stage of [POST] *)

Section StitchStageFacts.
Context `{Platform}.

Lemma intRange_setup (x0 x1 y0 y1 : Z) :
  x0 ≤ x1 → y0 ≤ y1 → (x1 - x0 + 1) * (y1 - y0 + 1) ≤ 64 →
  let g := {| xMin := ofZ x0; xMax := ofZ x1; yMin := ofZ y0; yMax := ofZ y1 |} in
  let w := (x1 - x0 + 1) * 256 in
  let h := (y1 - y0 + 1) * 256 in
  ngtb (tileCountOf g) (ofZ 64) = false
  ∧ stitchedWidth g = ofZ w ∧ stitchedHeight g = ofZ h
  ∧ newFloat32Array (nmul (stitchedWidth g) (stitchedHeight g))
    = Some {| ta_length := w * h; ta_cells := ∅ |}.
Proof.
  intros Hx Hy Hcount g w h.
  assert (stitchedWidth g = ofZ w) as Hw.
  { unfold stitchedWidth, tileSize. cbn [xMin xMax g].
    by rewrite nsub_ofZ, nadd_ofZ, nmul_ofZ. }
  assert (stitchedHeight g = ofZ h) as Hh.
  { unfold stitchedHeight, tileSize. cbn [yMin yMax g].
    by rewrite nsub_ofZ, nadd_ofZ, nmul_ofZ. }
  split; [|split; [done|split; [done|]]].
  - unfold tileCountOf, ngtb. cbn [xMin xMax yMin yMax g].
    rewrite !nsub_ofZ, !nadd_ofZ, nmul_ofZ, nltb_ofZ.
    apply bool_decide_eq_false. lia.
  - rewrite Hw, Hh, nmul_ofZ. apply newFloat32Array_ofZ. subst w h. nia.
Qed.

Lemma POST_stitchStage fuel body b :
  bounds body = Some b → invalidConfig body = false →
  let g := tileRange (topLeft b) (bottomRight b) in
  ngtb (tileCountOf g) (ofZ 64) = false →
  POST fuel body = stitchStage fuel body 12 (topLeft b) (bottomRight b) g.
Proof.
  intros Hb Hvalid g Hguard. unfold POST. rewrite Hb, Hvalid. cbv zeta.
  change (lonLatToTile (west b) (north b) 12) with (topLeft b).
  change (lonLatToTile (east b) (south b) 12) with (bottomRight b).
  fold g. by rewrite Hguard.
Qed.

Lemma tilesOf_is_Some (z x0 x1 y0 y1 : Z) (l : list (Z * Z)) :
  (∀ p, p ∈ (λ p : Z * Z, (ofZ p.1, ofZ p.2)) <$> l → is_Some (fetchPng z p.1 p.2)) →
  ∀ p, p ∈ l → is_Some (fetchPng z (ofZ p.1) (ofZ p.2)).
Proof.
  intros Hl p Hp.
  apply (Hl (ofZ p.1, ofZ p.2)). apply list_elem_of_fmap. by exists p.
Qed.

Lemma stitch_complete (fuel : nat) (body : Body) (b : Bounds) (x0 x1 y0 y1 : Z) :
  bounds body = Some b → invalidConfig body = false →
  tileRange (topLeft b) (bottomRight b)
  = {| xMin := ofZ x0; xMax := ofZ x1; yMin := ofZ y0; yMax := ofZ y1 |} →
  x0 ≤ x1 → y0 ≤ y1 → (x1 - x0 + 1) * (y1 - y0 + 1) ≤ 64 →
  (256 ≤ fuel)%nat →
  (∀ p, p ∈ tilesOf x0 x1 y0 y1 → is_Some (fetchPng 12 p.1 p.2)) →
  let w := (x1 - x0 + 1) * 256 in
  let h := (y1 - y0 + 1) * 256 in
  ∃ st : Stitching,
    stitchedOk fuel body b st
    ∧ requests st = tilesOf x0 x1 y0 y1
    ∧ (length (requests st) ≤ 64)%nat
    ∧ ta_length (stitched st) = w * h
    ∧ ∀ gx gy, 0 ≤ gx < w → 0 ≤ gy < h →
        ta_get (stitched st) (ofZ (gy * w + gx)) = mosaic 12 x0 y0 gx gy
        ∧ is_Some (mosaic 12 x0 y0 gx gy).
Proof.
  intros Hb Hvalid Hg Hx Hy Hcount Hfuel Hfetch w h.
  destruct (intRange_setup x0 x1 y0 y1 Hx Hy Hcount) as (Hguard & Hw & Hh & Hblank).
  assert (x1 - x0 + 1 ≤ 64 ∧ y1 - y0 + 1 ≤ 64) as [Hx64 Hy64] by nia.
  cbv zeta in Hguard, Hw, Hh, Hblank.
  destruct (stitch_run fuel 12
              {| xMin := ofZ x0; xMax := ofZ x1; yMin := ofZ y0; yMax := ofZ y1 |}
              x0 x1 y0 y1 (tileGrid x0 x1 y0 y1)
              {| stitched := {| ta_length := w * h; ta_cells := ∅ |}; requests := [] |})
    as (st & Hrun & Hreq & Hlen & Hcells); try done.
  { intros p Hp. split; [done|]. by apply (tilesOf_is_Some 12 x0 x1 y0 y1 _ Hfetch). }
  fold w h in Hrun, Hlen, Hcells.
  exists st. split; [|split; [exact Hreq|split; [|split; [exact Hlen|]]]].
  - split; [done|]. split; [done|]. rewrite Hg. split; [exact Hguard|].
    eexists. split; [exact Hblank|]. rewrite Hw.
    rewrite stitchTiles_runList by lia. exact Hrun.
  - rewrite Hreq, length_app, length_fmap, length_tileGrid by done. simpl. lia.
  - intros gx gy Hgx Hgy.
    assert ((x0 + gx `div` 256, y0 + gy `div` 256) ∈ tileGrid x0 x1 y0 y1) as Hin.
    { apply elem_of_tileGrid.
      pose proof (Z.div_le_upper_bound gx 256 (x1 - x0 + 1)).
      pose proof (Z.div_lt_upper_bound gx 256 (x1 - x0 + 1) ltac:(lia)).
      pose proof (Z.div_lt_upper_bound gy 256 (y1 - y0 + 1) ltac:(lia)).
      pose proof (Z.div_pos gx 256). pose proof (Z.div_pos gy 256).
      subst w h. lia. }
    rewrite Hcells, decide_True by done. split; [done|].
    unfold mosaic.
    destruct (tilesOf_is_Some 12 x0 x1 y0 y1 _ Hfetch _ Hin) as [png Hpng].
    cbn [fst snd] in Hpng. by rewrite Hpng.
Qed.


(** X15. A tile that cannot be fetched ends the run: when the tiles before
    it in row order are fetched and this one fails, the response is the
    500 error of that tile, the failing tile is the last one requested and
    no later tile is asked for. *)
Theorem tile_fetch_failure (fuel : nat) (body : Body) (b : Bounds) (x0 x1 y0 y1 : Z)
    (pre post : list (num * num)) (tx ty : num) :
  bounds body = Some b → invalidConfig body = false →
  tileRange (topLeft b) (bottomRight b)
  = {| xMin := ofZ x0; xMax := ofZ x1; yMin := ofZ y0; yMax := ofZ y1 |} →
  x0 ≤ x1 → y0 ≤ y1 → (x1 - x0 + 1) * (y1 - y0 + 1) ≤ 64 →
  (256 ≤ fuel)%nat →
  tilesOf x0 x1 y0 y1 = pre ++ (tx, ty) :: post →
  (∀ p, p ∈ pre → is_Some (fetchPng 12 p.1 p.2)) →
  fetchPng 12 tx ty = None →
  POST fuel body
  = {| fetched := pre ++ [(tx, ty)];
       response := Some (ExportError (TileFetchFailed tx ty)) |}.
Proof.
  intros Hb Hvalid Hg Hx Hy Hcount Hfuel Htiles Hpre Hfail.
  destruct (intRange_setup x0 x1 y0 y1 Hx Hy Hcount) as (Hguard & Hw & Hh & Hblank).
  assert (x1 - x0 + 1 ≤ 64 ∧ y1 - y0 + 1 ≤ 64) as [Hx64 Hy64] by nia.
  cbv zeta in Hguard, Hw, Hh, Hblank.
  set (w := (x1 - x0 + 1) * 256) in *. set (h := (y1 - y0 + 1) * 256) in *.
  unfold tilesOf in Htiles.
  apply fmap_app_inv in Htiles as (preZ & restZ & -> & Hrest & Hgrid).
  symmetry in Hrest. apply fmap_cons_inv in Hrest as ([a c] & postZ & [= -> ->] & -> & ->).
  cbn [fst snd] in *.
  destruct (stitch_run fuel 12
              {| xMin := ofZ x0; xMax := ofZ x1; yMin := ofZ y0; yMax := ofZ y1 |}
              x0 x1 y0 y1 preZ
              {| stitched := {| ta_length := w * h; ta_cells := ∅ |}; requests := [] |})
    as (st & Hrun & Hreq & _); try done.
  { intros p Hp. split; [rewrite Hgrid; apply elem_of_app; by left|].
    by apply (tilesOf_is_Some 12 x0 x1 y0 y1 _ Hpre). }
  fold w in Hrun.
  rewrite (POST_stitchStage fuel body b) by (done || by rewrite Hg).
  rewrite Hg. unfold stitchStage. cbv zeta.
  fold (stitchedWidth {| xMin := ofZ x0; xMax := ofZ x1; yMin := ofZ y0; yMax := ofZ y1 |}).
  fold (stitchedHeight {| xMin := ofZ x0; xMax := ofZ x1; yMin := ofZ y0; yMax := ofZ y1 |}).
  rewrite Hblank, Hw, stitchTiles_runList by lia.
  rewrite Hgrid, runList_app, Hrun. cbn [runList fst snd].
  rewrite stitchTile_failed by done.
  unfold respond. cbn [requests]. by rewrite Hreq.
Qed.

End StitchStageFacts.


Lemma tile_fetch_failure_witness :
  @POST (demoPlatform rampTile) 256 (demoBodyAt bounds64 (ofZ 30))
  = {| fetched := [(ofZ 2048, ofZ 2048); (ofZ 2049, ofZ 2048)];
       response := Some (ExportError (TileFetchFailed (ofZ 2049) (ofZ 2048))) |}.
Proof.
  apply (@tile_fetch_failure (demoPlatform rampTile) 256 (demoBodyAt bounds64 (ofZ 30))
           bounds64 2048 2055 2048 2055
           [(ofZ 2048, ofZ 2048)] (drop 2 (tilesOf 2048 2055 2048 2055))
           (ofZ 2049) (ofZ 2048)).
  - reflexivity.
  - vm_compute. reflexivity.
  - vm_compute. reflexivity.
  - lia.
  - lia.
  - lia.
  - lia.
  - vm_compute. reflexivity.
  - intros p Hp. apply list_elem_of_singleton in Hp. subst p. by eexists.
  - vm_compute. reflexivity.
Defined.

(** ** The viewport rectangle and the sample points *)

Section RectFacts.
Local Open Scope Qc_scope.

(** One axis: the smaller and the larger coordinate, their tiles, and the
    pixel offsets from the first tile. *)
Lemma axis_pixels (a c : Qc) :
  ∃ (x0 x1 : Z) (lo hi : Qc),
    Math_min (Fin a) (Fin c) = Fin lo ∧ Math_max (Fin a) (Fin c) = Fin hi
    ∧ Math_floor (Fin lo) = ofZ x0 ∧ Math_floor (Fin hi) = ofZ x1
    ∧ (x0 ≤ x1)%Z ∧ lo ≤ hi
    ∧ nmul (nsub (Fin lo) (ofZ x0)) tileSize = Fin ((lo - Qc_of_Z x0) * Qc_of_Z 256)
    ∧ nmul (nsub (Fin hi) (ofZ x0)) tileSize = Fin ((hi - Qc_of_Z x0) * Qc_of_Z 256)
    ∧ 0 ≤ (lo - Qc_of_Z x0) * Qc_of_Z 256
    ∧ (lo - Qc_of_Z x0) * Qc_of_Z 256 < Qc_of_Z 256
    ∧ Qc_of_Z ((x1 - x0) * 256) ≤ (hi - Qc_of_Z x0) * Qc_of_Z 256
    ∧ (hi - Qc_of_Z x0) * Qc_of_Z 256 < Qc_of_Z ((x1 - x0 + 1) * 256).
Proof.
  destruct (Math_min_Fin a c) as (lo & -> & Hloa & Hloc & Hlo).
  destruct (Math_max_Fin a c) as (hi & -> & Hahi & Hchi & Hhi).
  exists (Qfloor lo), (Qfloor hi), lo, hi.
  assert (lo ≤ hi) as Hle by (by etrans).
  pose proof (Qc_floor_le lo) as H1. pose proof (Qc_lt_floor lo) as H2.
  pose proof (Qc_floor_le hi) as H3. pose proof (Qc_lt_floor hi) as H4.
  pose proof (Qc_floor_mono lo hi Hle) as Hmono.
  rewrite !Z2Qc_inj_mul, !Z2Qc_inj_add, !Z2Qc_inj_sub, Z2Qc_inj_1.
  rewrite Qc_of_Z_succ in H2, H4.
  repeat split; try done.
  - clear -H1. revert H1. generalize (Qc_of_Z (Qfloor lo)). intros k H1. qc_lra.
  - clear -H2. revert H2. generalize (Qc_of_Z (Qfloor lo)). intros k H2. qc_lra.
  - clear -H3. revert H3. generalize (Qc_of_Z (Qfloor lo)) (Qc_of_Z (Qfloor hi)).
    intros k k' H3. qc_lra.
  - clear -H4. revert H4. generalize (Qc_of_Z (Qfloor lo)) (Qc_of_Z (Qfloor hi)).
    intros k k' H4. qc_lra.
Qed.

Lemma pixelRect_on_raster (tl br : Point) (a b c d : Qc) :
  tl = {| pt_x := Fin a; pt_y := Fin b |} →
  br = {| pt_x := Fin c; pt_y := Fin d |} →
  ∃ (x0 x1 y0 y1 : Z) (pw pe pn ps : Qc),
    tileRange tl br
    = {| xMin := ofZ x0; xMax := ofZ x1; yMin := ofZ y0; yMax := ofZ y1 |}
    ∧ pixelRect tl br (tileRange tl br)
      = {| pxWest := Fin pw; pxEast := Fin pe; pxNorth := Fin pn; pxSouth := Fin ps |}
    ∧ (x0 ≤ x1)%Z ∧ (y0 ≤ y1)%Z
    ∧ 0 ≤ pw ∧ pw < Qc_of_Z 256 ∧ pw ≤ pe
    ∧ Qc_of_Z ((x1 - x0) * 256) ≤ pe ∧ pe < Qc_of_Z ((x1 - x0 + 1) * 256)
    ∧ 0 ≤ pn ∧ pn < Qc_of_Z 256 ∧ pn ≤ ps
    ∧ Qc_of_Z ((y1 - y0) * 256) ≤ ps ∧ ps < Qc_of_Z ((y1 - y0 + 1) * 256).
Proof.
  intros -> ->.
  destruct (axis_pixels a c)
    as (x0 & x1 & xl & xh & Exl & Exh & Ex0 & Ex1 & Hx & Hxle & Epw & Epe & ? & ? & ? & ?).
  destruct (axis_pixels b d)
    as (y0 & y1 & yl & yh & Eyl & Eyh & Ey0 & Ey1 & Hy & Hyle & Epn & Eps & ? & ? & ? & ?).
  exists x0, x1, y0, y1.
  exists ((xl - Qc_of_Z x0) * Qc_of_Z 256), ((xh - Qc_of_Z x0) * Qc_of_Z 256),
         ((yl - Qc_of_Z y0) * Qc_of_Z 256), ((yh - Qc_of_Z y0) * Qc_of_Z 256).
  unfold pixelRect, tileRange. cbn [pt_x pt_y xMin xMax yMin yMax].
  rewrite Exl, Exh, Eyl, Eyh, Ex0, Ex1, Ey0, Ey1, Epw, Epe, Epn, Eps.
  repeat split; try done.
  - apply Qcmult_le_mono_nonneg_r; [done|]. by apply Qcplus_le_mono_r.
  - apply Qcmult_le_mono_nonneg_r; [done|]. by apply Qcplus_le_mono_r.
Qed.

(** X16. For corner projections that are finite, the pixel rectangle of
    the viewport lies on the stitched raster: its west edge falls in the
    first tile column and its east edge in the last one
    ([0 <= pxWest < 256], [W - 256 <= pxEast < W], [pxWest <= pxEast]), and
    likewise its north and south edges in the first and last tile rows.  So
    every stitched tile meets the viewport. *)
Theorem pixelRect_inside (tl br : Point) (a b c d : Qc) :
  tl = {| pt_x := Fin a; pt_y := Fin b |} →
  br = {| pt_x := Fin c; pt_y := Fin d |} →
  ∃ (x0 x1 y0 y1 : Z) (pw pe pn ps : Qc),
    tileRange tl br
    = {| xMin := ofZ x0; xMax := ofZ x1; yMin := ofZ y0; yMax := ofZ y1 |}
    ∧ pixelRect tl br (tileRange tl br)
      = {| pxWest := Fin pw; pxEast := Fin pe; pxNorth := Fin pn; pxSouth := Fin ps |}
    ∧ (x0 ≤ x1)%Z ∧ (y0 ≤ y1)%Z
    ∧ 0 ≤ pw ∧ pw < Qc_of_Z 256 ∧ pw ≤ pe
    ∧ Qc_of_Z ((x1 - x0) * 256) ≤ pe ∧ pe < Qc_of_Z ((x1 - x0 + 1) * 256)
    ∧ 0 ≤ pn ∧ pn < Qc_of_Z 256 ∧ pn ≤ ps
    ∧ Qc_of_Z ((y1 - y0) * 256) ≤ ps ∧ ps < Qc_of_Z ((y1 - y0 + 1) * 256).
Proof. exact (pixelRect_on_raster tl br a b c d). Qed.

Lemma sample_point (pw pe : Qc) (n i : Z) :
  (2 ≤ n)%Z →
  nadd (Fin pw) (nmul (nsub (Fin pe) (Fin pw)) (ndiv (ofZ i) (nsub (ofZ n) (ofZ 1))))
  = Fin (pw + (pe - pw) * (Qc_of_Z i / Qc_of_Z (n - 1))).
Proof.
  intros Hn. rewrite nsub_ofZ. unfold ofZ, ndiv, nmul, nsub, nadd, nneg.
  rewrite decide_False by (apply Qc_of_Z_nonzero; lia). done.
Qed.

Lemma sample_fraction (n i : Z) :
  (2 ≤ n)%Z → (0 ≤ i ≤ n - 1)%Z →
  0 ≤ Qc_of_Z i / Qc_of_Z (n - 1) ∧ Qc_of_Z i / Qc_of_Z (n - 1) ≤ 1.
Proof.
  intros Hn Hi.
  assert (0 < Qc_of_Z (n - 1)) as Hpos by (apply (proj1 (Qc_of_Z_pos _)); lia).
  assert (0 < / Qc_of_Z (n - 1)) as Hinv by (by apply Qcinv_pos).
  split.
  - unfold Qcdiv. rewrite <-(Qcmult_0_l (/ Qc_of_Z (n - 1))).
    apply Qcmult_le_mono_nonneg_r; [by apply Qclt_le_weak|].
    rewrite <-Z2Qc_inj_0. apply (proj1 (Z2Qc_inj_le _ _)). lia.
  - assert (Qc_of_Z (n - 1) / Qc_of_Z (n - 1) = 1) as <-.
    { field. by apply not_symmetry, Qclt_not_eq. }
    unfold Qcdiv. apply Qcmult_le_mono_nonneg_r; [by apply Qclt_le_weak|].
    apply (proj1 (Z2Qc_inj_le _ _)). lia.
Qed.

Lemma sample_between (rect : PixelRect) (n : Z) (pw pe pn ps : Qc) :
  (2 ≤ n)%Z →
  rect = {| pxWest := Fin pw; pxEast := Fin pe; pxNorth := Fin pn; pxSouth := Fin ps |} →
  pw ≤ pe → pn ≤ ps →
  sampleX rect (ofZ n) (ofZ 0) = Fin pw
  ∧ sampleX rect (ofZ n) (ofZ (n - 1)) = Fin pe
  ∧ sampleY rect (ofZ n) (ofZ 0) = Fin pn
  ∧ sampleY rect (ofZ n) (ofZ (n - 1)) = Fin ps
  ∧ ∀ i : Z, (0 ≤ i ≤ n - 1)%Z →
      ∃ sx sy : Qc,
        sampleX rect (ofZ n) (ofZ i) = Fin sx ∧ pw ≤ sx ∧ sx ≤ pe
        ∧ sampleY rect (ofZ n) (ofZ i) = Fin sy ∧ pn ≤ sy ∧ sy ≤ ps.
Proof.
  intros Hn -> Hx Hy. unfold sampleX, sampleY. cbn [pxWest pxEast pxNorth pxSouth].
  rewrite !sample_point by done.
  assert (Qc_of_Z (n - 1) ≠ 0) as Hne by (apply Qc_of_Z_nonzero; lia).
  assert (∀ u v : Qc, u + (v - u) * (Qc_of_Z 0 / Qc_of_Z (n - 1)) = u) as E0.
  { intros u v. rewrite Z2Qc_inj_0. field. done. }
  assert (∀ u v : Qc, u + (v - u) * (Qc_of_Z (n - 1) / Qc_of_Z (n - 1)) = v) as E1.
  { intros u v. field. done. }
  rewrite !E0, !E1. repeat split; try done.
  intros i Hi. rewrite !sample_point by done.
  destruct (sample_fraction n i Hn Hi) as [Ht0 Ht1].
  revert Ht0 Ht1. generalize (Qc_of_Z i / Qc_of_Z (n - 1)). intros t Ht0 Ht1.
  assert (∀ u v : Qc, u ≤ v → u ≤ u + (v - u) * t ∧ u + (v - u) * t ≤ v) as Hbetween.
  { intros u v Huv.
    assert (0 ≤ v - u) as Hd by (clear -Huv; qc_lra).
    pose proof (Qcmult_le_mono_nonneg_l 0 t (v - u) Hd Ht0) as Hlo.
    pose proof (Qcmult_le_mono_nonneg_l t 1 (v - u) Hd Ht1) as Hhi.
    rewrite Qcmult_0_r in Hlo. rewrite Qcmult_1_r in Hhi.
    revert Hlo Hhi. generalize ((v - u) * t). intros p Hlo Hhi.
    clear -Hlo Hhi. split; qc_lra. }
  destruct (Hbetween pw pe Hx) as [? ?]. destruct (Hbetween pn ps Hy) as [? ?].
  eexists _, _. repeat split; done.
Qed.


End RectFacts.

Lemma pixelRect_inside_witness :
  ∃ (x0 x1 y0 y1 : Z) (pw pe pn ps : Qc),
    tileRange {| pt_x := ratio 1 2; pt_y := ratio 1 2 |}
              {| pt_x := ratio 3 2; pt_y := ratio 3 2 |}
    = {| xMin := ofZ x0; xMax := ofZ x1; yMin := ofZ y0; yMax := ofZ y1 |}
    ∧ pixelRect {| pt_x := ratio 1 2; pt_y := ratio 1 2 |}
                {| pt_x := ratio 3 2; pt_y := ratio 3 2 |}
                (tileRange {| pt_x := ratio 1 2; pt_y := ratio 1 2 |}
                           {| pt_x := ratio 3 2; pt_y := ratio 3 2 |})
      = {| pxWest := Fin pw; pxEast := Fin pe; pxNorth := Fin pn; pxSouth := Fin ps |}.
Proof.
  destruct (pixelRect_inside {| pt_x := ratio 1 2; pt_y := ratio 1 2 |}
              {| pt_x := ratio 3 2; pt_y := ratio 3 2 |}
              (Q2Qc (1 # 2)) (Q2Qc (1 # 2)) (Q2Qc (3 # 2)) (Q2Qc (3 # 2))
              eq_refl eq_refl)
    as (x0 & x1 & y0 & y1 & pw & pe & pn & ps & Hg & Hrect & _).
  by exists x0, x1, y0, y1, pw, pe, pn, ps.
Defined.


(** ** Resampling: the grid and its elevation range *)

Section ResampleFacts.

Lemma rangeOf_start (v : Z → Z → num) (n : Z) : rangeOf v n 0 PInf NInf.
Proof.
  split; [done|]. split; [done|]. split; [|split; by left].
  intros i j Hi Hj Hk. nia.
Qed.

Lemma rangeOf_step (v : Z → Z → num) (n i j : Z) (lo hi : num) :
  0 ≤ i < n → 0 ≤ j < n →
  rangeOf v n (j * n + i) lo hi →
  rangeOf v n (j * n + i + 1)
    (if nltb (v i j) lo then v i j else lo)
    (if ngtb (v i j) hi then v i j else hi).
Proof.
  intros Hi Hj (Hlo & Hhi & Hbound & Hmin & Hmax).
  assert (nleb (if nltb (v i j) lo then v i j else lo) lo = true) as Hlo'.
  { destruct (nltb (v i j) lo) eqn:E; [by apply nltb_nleb|by apply nleb_refl]. }
  assert (nleb hi (if ngtb (v i j) hi then v i j else hi) = true) as Hhi'.
  { unfold ngtb. destruct (nltb hi (v i j)) eqn:E;
      [by apply nltb_nleb|by apply nleb_refl]. }
  split; [|split; [|split; [|split]]].
  - destruct (nltb (v i j) lo) eqn:E; [|done]. intros Hv. by rewrite Hv in E.
  - unfold ngtb. destruct (nltb hi (v i j)) eqn:E; [|done].
    intros Hv. rewrite Hv in E. by destruct hi.
  - intros i' j' Hi' Hj' Hk Hv.
    destruct (decide (j' * n + i' = j * n + i)) as [E|Hne].
    + apply cell_index_inj in E as [-> ->]; [|lia..]. split.
      * destruct (nltb (v i j) lo) eqn:E; [by apply nleb_refl|].
        by apply nltb_false_nleb.
      * unfold ngtb. destruct (nltb hi (v i j)) eqn:E; [by apply nleb_refl|].
        by apply nltb_false_nleb.
    + destruct (Hbound i' j') as [H1 H2]; [lia..|done|].
      split; [by eapply nleb_trans|by eapply nleb_trans].
  - destruct (nltb (v i j) lo) eqn:E.
    + right. exists i, j. repeat split; try lia.
    + destruct Hmin as [->|(i' & j' & ? & ? & ? & ->)]; [by left|].
      right. exists i', j'. repeat split; try lia.
  - unfold ngtb. destruct (nltb hi (v i j)) eqn:E.
    + right. exists i, j. repeat split; try lia.
    + destruct Hmax as [->|(i' & j' & ? & ? & ? & ->)]; [by left|].
      right. exists i', j'. repeat split; try lia.
Qed.

Lemma sampleCell_ofZ src srcW srcH rect (n i j : Z) (s : Sampling) :
  sampleCell src srcW srcH rect (ofZ n) (sampleY rect (ofZ n) (ofZ j)) (ofZ j) (ofZ i) s
  = {| values := ta_set (values s) (ofZ (j * n + i)) (sampleAt src srcW srcH rect n i j);
       minE := if nltb (sampleAt src srcW srcH rect n i j) (minE s)
               then sampleAt src srcW srcH rect n i j else minE s;
       maxE := if ngtb (sampleAt src srcW srcH rect n i j) (maxE s)
               then sampleAt src srcW srcH rect n i j else maxE s |}.
Proof. unfold sampleCell, sampleAt. by rewrite nmul_ofZ, nadd_ofZ. Qed.

(** The state of the resampling loops after the first [k] samples. *)
Lemma sampleGrid_run fuel src srcW srcH rect (n : Z) (s0 : Sampling) :
  0 ≤ n → (Z.to_nat n ≤ fuel)%nat →
  ta_length (values s0) = n * n → minE s0 = PInf → maxE s0 = NInf →
  ∃ s,
    sampleGrid fuel src srcW srcH rect (ofZ n) s0 = Done s
    ∧ ta_length (values s) = n * n
    ∧ (∀ i j, 0 ≤ i < n → 0 ≤ j < n →
         ta_get (values s) (ofZ (j * n + i)) = Some (sampleAt src srcW srcH rect n i j))
    ∧ rangeOf (sampleAt src srcW srcH rect n) n (n * n) (minE s) (maxE s).
Proof.
  intros Hn Hfuel Hlen Hmin Hmax.
  set (v := sampleAt src srcW srcH rect n).
  set (Inv := λ (k : Z) (s : Sampling),
         ta_length (values s) = n * n
         ∧ (∀ i j, 0 ≤ i < n → 0 ≤ j < n → j * n + i < k →
              ta_get (values s) (ofZ (j * n + i)) = Some (v i j))
         ∧ rangeOf v n k (minE s) (maxE s)).
  assert (∀ k, 0 ≤ k < n → nltb (ofZ k) (ofZ n) = true) as Hin
    by (intros k Hk; rewrite nltb_ofZ; apply bool_decide_eq_true; lia).
  assert (nltb (ofZ n) (ofZ n) = false) as Hout
    by (rewrite nltb_ofZ; apply bool_decide_eq_false; lia).
  destruct (forLoop_counted (λ j s, Inv (j * n) s) fuel
              (λ j, nltb j (ofZ n))
              (λ j, let sy := sampleY rect (ofZ n) j in
                    forLoop fuel (λ i, nltb i (ofZ n)) incr
                      (λ i s, Done (sampleCell src srcW srcH rect (ofZ n) sy j i s))
                      (ofZ 0))
              0 n s0) as (s & Hrun & Hl & Hcells & Hrange); try done; try lia.
  - split; [done|]. split; [intros i j Hi Hj Hk; nia|].
    rewrite Hmin, Hmax. apply rangeOf_start.
  - intros j s Hj Hinv. cbv zeta.
    destruct (forLoop_counted (λ i s, Inv (j * n + i) s) fuel
                (λ i, nltb i (ofZ n))
                (λ i s, Done (sampleCell src srcW srcH rect (ofZ n)
                                (sampleY rect (ofZ n) (ofZ j)) (ofZ j) i s))
                0 n s) as (s' & Hrun' & Hinv'); try done; try lia.
    + by rewrite Z.add_0_r.
    + intros i s1 Hi (Hl1 & Hcells1 & Hrange1). eexists. split; [reflexivity|].
      rewrite sampleCell_ofZ. fold v. split; [|split].
      * cbn [values]. by rewrite ta_set_length.
      * intros i' j' Hi' Hj' Hk. cbn [values].
        rewrite ta_get_set by (rewrite Hl1; nia).
        destruct (decide (j' * n + i' = j * n + i)) as [E|Hne].
        -- apply cell_index_inj in E as [-> ->]; [done|lia..].
        -- apply Hcells1; [done..|lia].
      * cbn [minE maxE]. rewrite Z.add_assoc. by apply rangeOf_step.
    + exists s'. split; [exact Hrun'|].
      replace ((j + 1) * n) with (j * n + n) by lia. exact Hinv'.
  - exists s. split; [exact Hrun|]. split; [exact Hl|]. split; [|exact Hrange].
    intros i j Hi Hj. apply Hcells; [done..|nia].
Qed.

(** X18. Resampling an [n] x [n] grid (with a budget of [n] iterations per
    loop) completes; afterwards cell [j * n + i] of [values] holds the
    sample for column [i], row [j], and [minE], [maxE] are the least and
    the greatest of the samples that are numbers: both bound every such
    sample, and each is attained by a sample unless no sample moved it from
    its starting value ([Infinity], [-Infinity]).  [NaN] samples are stored
    but never enter the range. *)
Theorem sampleGrid_range (fuel : nat) (src : Float32Array) (srcW srcH : num)
    (rect : PixelRect) (n : Z) (blank : Float32Array) :
  0 ≤ n → (Z.to_nat n ≤ fuel)%nat → ta_length blank = n * n →
  ∃ s : Sampling,
    sampleGrid fuel src srcW srcH rect (ofZ n)
      {| values := blank; minE := PInf; maxE := NInf |} = Done s
    ∧ ta_length (values s) = n * n
    ∧ (∀ i j, 0 ≤ i < n → 0 ≤ j < n →
         ta_get (values s) (ofZ (j * n + i)) = Some (sampleAt src srcW srcH rect n i j))
    ∧ minE s ≠ NaN ∧ maxE s ≠ NaN
    ∧ (∀ i j, 0 ≤ i < n → 0 ≤ j < n → sampleAt src srcW srcH rect n i j ≠ NaN →
         nleb (minE s) (sampleAt src srcW srcH rect n i j) = true
         ∧ nleb (sampleAt src srcW srcH rect n i j) (maxE s) = true)
    ∧ (minE s = PInf
       ∨ ∃ i j, 0 ≤ i < n ∧ 0 ≤ j < n ∧ minE s = sampleAt src srcW srcH rect n i j)
    ∧ (maxE s = NInf
       ∨ ∃ i j, 0 ≤ i < n ∧ 0 ≤ j < n ∧ maxE s = sampleAt src srcW srcH rect n i j).
Proof.
  intros Hn Hfuel Hlen.
  destruct (sampleGrid_run fuel src srcW srcH rect n
              {| values := blank; minE := PInf; maxE := NInf |})
    as (s & Hrun & Hl & Hcells & Hlo & Hhi & Hbound & Hmin & Hmax); try done.
  exists s. split; [exact Hrun|]. split; [exact Hl|]. split; [exact Hcells|].
  split; [exact Hlo|]. split; [exact Hhi|]. split; [|split].
  - intros i j Hi Hj. apply Hbound; [done..|nia].
  - destruct Hmin as [?|(i & j & ? & ? & _ & ?)]; [by left|right]. by exists i, j.
  - destruct Hmax as [?|(i & j & ? & ? & _ & ?)]; [by left|right]. by exists i, j.
Qed.

End ResampleFacts.

Lemma sampleGrid_range_witness :
  ∃ s : Sampling,
    sampleGrid 2 tinyRaster (ofZ 2) (ofZ 2)
      {| pxWest := ofZ 0; pxEast := ofZ 1; pxNorth := ofZ 0; pxSouth := ofZ 1 |}
      (ofZ 2)
      {| values := {| ta_length := 4; ta_cells := ∅ |}; minE := PInf; maxE := NInf |}
    = Done s
    ∧ ta_length (values s) = 4.
Proof.
  destruct (sampleGrid_range 2 tinyRaster (ofZ 2) (ofZ 2)
              {| pxWest := ofZ 0; pxEast := ofZ 1; pxNorth := ofZ 0; pxSouth := ofZ 1 |}
              2 {| ta_length := 4; ta_cells := ∅ |})
    as (s & Hrun & Hl & _); [lia|lia|reflexivity|].
  exists s. split; [exact Hrun|exact Hl].
Defined.

(** ** Requests the validation lets through *)

Section ValidationFacts.
Context `{Platform}.

Lemma bad_request_cases (fuel : nat) (body : Body) :
  (response (POST fuel body) = Some BadRequest
   ↔ bounds body = None
     ∨ nleb (widthIn body) (ofZ 0) = true ∨ nleb (heightIn body) (ofZ 0) = true
     ∨ nleb (intervalM body) (ofZ 0) = true ∨ nltb (grid body) (ofZ 64) = true)
  ∧ (response (POST fuel body) = Some BadRequest → fetched (POST fuel body) = []).
Proof.
  assert (invalidConfig body = true
          ↔ nleb (widthIn body) (ofZ 0) = true ∨ nleb (heightIn body) (ofZ 0) = true
            ∨ nleb (intervalM body) (ofZ 0) = true ∨ nltb (grid body) (ofZ 64) = true)
    as Hinv.
  { unfold invalidConfig. rewrite !orb_true_iff. tauto. }
  unfold POST. destruct (bounds body) as [b|] eqn:Hb.
  - destruct (invalidConfig body) eqn:Hv.
    + split; [|done]. split; [intros _; right; by apply Hinv|done].
    + cbv zeta.
      set (g := tileRange (lonLatToTile (west b) (north b) 12)
                          (lonLatToTile (east b) (south b) 12)).
      destruct (ngtb (tileCountOf g) (ofZ 64)).
      * split; [|done]. split; [done|].
        intros [?|Hbad]; [done|]. apply Hinv in Hbad. congruence.
      * pose proof (afterGuard_stitchStage fuel body 12
                      (lonLatToTile (west b) (north b) 12)
                      (lonLatToTile (east b) (south b) 12) g) as Hag.
        split.
        -- split; [intros E; by rewrite E in Hag|].
           intros [?|Hbad]; [done|]. apply Hinv in Hbad. congruence.
        -- intros E. by rewrite E in Hag.
  - split; [|done]. split; [by left|done].
Qed.

(** X19. The validation answer, 400 "Bad request", is given exactly when
    [bounds] is missing or one of the four tests on the numbers holds
    ([widthIn <= 0], [heightIn <= 0], [intervalM <= 0], [grid < 64]); it
    is given before any tile is requested.  No later stage gives it. *)
Theorem bad_request_iff (fuel : nat) (body : Body) :
  (response (POST fuel body) = Some BadRequest
   ↔ bounds body = None
     ∨ nleb (widthIn body) (ofZ 0) = true ∨ nleb (heightIn body) (ofZ 0) = true
     ∨ nleb (intervalM body) (ofZ 0) = true ∨ nltb (grid body) (ofZ 64) = true)
  ∧ (response (POST fuel body) = Some BadRequest → fetched (POST fuel body) = []).
Proof. exact (bad_request_cases fuel body). Qed.

End ValidationFacts.

(** ** Runs that end in a download *)

Section FuelFacts.
Context {St : Type}.

(** A loop that completes within a budget completes with the same state
    within any larger one. *)
Lemma forLoop_done_mono fuel fuel' cond step (body body' : num → St → res St) v s s' :
  (fuel ≤ fuel')%nat →
  (∀ v s s', body v s = Done s' → body' v s = Done s') →
  forLoop fuel cond step body v s = Done s' →
  forLoop fuel' cond step body' v s = Done s'.
Proof.
  intros Hle Hbody. revert fuel' v s Hle.
  induction fuel as [|fuel IH]; intros fuel' v s Hle; simpl.
  - destruct (cond v) eqn:Hc; [done|]. intros [= <-]. by apply forLoop_exit.
  - destruct (cond v) eqn:Hc; [|intros [= <-]; by apply forLoop_exit].
    destruct fuel' as [|fuel']; [lia|]. simpl. rewrite Hc.
    destruct (body v s) as [s1| |] eqn:Hb; try done.
    rewrite (Hbody _ _ _ Hb). apply IH. lia.
Qed.

End FuelFacts.

Section DownloadFacts.
Context `{Platform}.

Lemma stitchTiles_done_mono fuel fuel' z g W st st' :
  (fuel ≤ fuel')%nat →
  stitchTiles fuel z g W st = Done st' → stitchTiles fuel' z g W st = Done st'.
Proof.
  intros Hle. unfold stitchTiles. apply forLoop_done_mono; [done|].
  intros ty s s'. apply forLoop_done_mono; [done|].
  intros tx s1 s1'. unfold stitchTile. destruct (fetchPng z tx ty); [|done].
  unfold copyTile. apply forLoop_done_mono; [done|].
  intros py s2 s2'. apply forLoop_done_mono; [done|]. done.
Qed.

Lemma runList_stitch_done fuel z g W (l : list (Z * Z)) st st' :
  runList (λ p : Z * Z, stitchTile fuel z g W (ofZ p.2) (ofZ p.1)) l st = Done st' →
  requests st' = requests st ++ ((λ p, (ofZ p.1, ofZ p.2)) <$> l)
  ∧ ∀ p, p ∈ l → is_Some (fetchPng z (ofZ p.1) (ofZ p.2)).
Proof.
  revert st. induction l as [|[a b] l IH]; intros st; simpl.
  - intros [= <-]. split; [by rewrite app_nil_r|]. by intros p ?%elem_of_nil.
  - destruct (stitchTile fuel z g W (ofZ b) (ofZ a) st) as [s1| |] eqn:Hs; try done.
    intros [Hreq Hall]%IH.
    pose proof (stitchTile_requests fuel z g W (ofZ b) (ofZ a) st) as Hr.
    rewrite Hs in Hr. simpl in Hr.
    split; [by rewrite Hreq, Hr, <-app_assoc|].
    intros p [->|Hp]%elem_of_cons; [|by apply Hall]. cbn [fst snd].
    unfold stitchTile in Hs. by destruct (fetchPng z (ofZ a) (ofZ b)).
Qed.

Lemma nmul_PInf_pos (k : Z) :
  1 ≤ k → nmul PInf (ofZ k) = PInf ∧ nmul (ofZ k) PInf = PInf.
Proof.
  intros Hk. unfold ofZ, nmul.
  assert ((Qc_of_Z k ?= 0)%Qc = Gt) as ->; [|done].
  apply Qcgt_alt. apply (proj1 (Qc_of_Z_pos k)). lia.
Qed.

(** A tile count that is neither above 64 nor at most 64 is [NaN]; the
    raster allocated for it is empty. *)
Lemma nan_count_empty_raster (tl br : Point) (blank : Float32Array) :
  let g := tileRange tl br in
  ngtb (tileCountOf g) (ofZ 64) = false →
  nleb (tileCountOf g) (ofZ 64) = false →
  newFloat32Array (nmul (stitchedWidth g) (stitchedHeight g)) = Some blank →
  ta_length blank = 0.
Proof.
  intros g Hgt Hle.
  assert (nmul (stitchedWidth g) (stitchedHeight g) = NaN) as ->.
  { revert Hgt Hle. subst g. rewrite tileCountOf_axes.
    change (stitchedWidth (tileRange tl br))
      with (nmul (axisExtent (pt_x tl) (pt_x br)) tileSize).
    change (stitchedHeight (tileRange tl br))
      with (nmul (axisExtent (pt_y tl) (pt_y br)) tileSize).
    destruct (axisExtent_cases (pt_x tl) (pt_x br))
      as [(a & c & x0 & x1 & _ & _ & _ & _ & Hx & ->)|[-> | ->]];
      destruct (axisExtent_cases (pt_y tl) (pt_y br))
        as [(b & d & y0 & y1 & _ & _ & _ & _ & Hy & ->)|[-> | ->]];
      try done.
    - rewrite nmul_ofZ, nleb_ofZ. unfold ngtb. rewrite nltb_ofZ.
      intros ?%bool_decide_eq_false ?%bool_decide_eq_false. lia.
    - rewrite (proj2 (nmul_PInf_pos (x1 - x0 + 1) ltac:(lia))). done.
    - rewrite (proj1 (nmul_PInf_pos (y1 - y0 + 1) ltac:(lia))). done. }
  by intros [= <-].
Qed.

(** Sampling an empty raster never moves the minimum. *)
Lemma sampleGrid_empty_raster fuel src srcW srcH rect grid s0 :
  ta_length src = 0 → minE s0 = PInf →
  minE (res_state (sampleGrid fuel src srcW srcH rect grid s0)) = PInf.
Proof.
  intros Hsrc. unfold sampleGrid.
  apply (forLoop_preserved (λ s s', minE s = PInf → minE s' = PInf)); [done|auto|].
  intros j s.
  apply (forLoop_preserved (λ s s', minE s = PInf → minE s' = PInf)); [done|auto|].
  intros i s1 Hmin. cbn [res_state]. unfold sampleCell. cbn [minE].
  by rewrite nearestSample_empty by done.
Qed.

Lemma sampleStage_empty_raster fuel body tl br g W H' st z :
  ta_length (stitched st) = 0 →
  response (sampleStage fuel body tl br g W H' st) ≠ Some (ZipDownload z).
Proof.
  intros Hlen. unfold sampleStage.
  destruct (newFloat32Array (nmul (grid body) (grid body))) as [blank|]; [|done].
  pose proof (sampleGrid_empty_raster fuel (stitched st) W H' (pixelRect tl br g)
                (grid body) {| values := blank; minE := PInf; maxE := NInf |}
                Hlen eq_refl) as Hmin.
  destruct (sampleGrid _ _ _ _ _ _ _) as [s| |]; try done.
  cbn [res_state] in Hmin. by rewrite Hmin.
Qed.

Lemma NoDup_tilesOf (x0 x1 y0 y1 : Z) : NoDup (tilesOf x0 x1 y0 y1).
Proof.
  unfold tilesOf. apply NoDup_fmap_2.
  - intros [a b] [c d] E. cbn [fst snd] in E.
    f_equal; apply ofZ_inj; congruence.
  - unfold tileGrid. apply NoDup_bind.
    + intros y y' p _ _
        (x & Hp%list_elem_of_singleton & _)%list_elem_of_bind
        (x' & Hp'%list_elem_of_singleton & _)%list_elem_of_bind.
      congruence.
    + intros y _. apply NoDup_bind.
      * intros x x' p _ _ Hp%list_elem_of_singleton Hp'%list_elem_of_singleton.
        congruence.
      * intros x _. apply NoDup_singleton.
      * apply NoDup_seqZ.
    + apply NoDup_seqZ.
Qed.

(** X20. A download is only ever produced from a completely stitched
    raster: when [POST] answers with the archive, the tile range is a range
    of integer tiles, at most 64 of them, every tile of the range was
    fetched successfully, and the requests made are exactly these tiles,
    each once, row by row. *)
Theorem download_complete (fuel : nat) (body : Body) (z : Zip) :
  response (POST fuel body) = Some (ZipDownload z) →
  ∃ (b : Bounds) (x0 x1 y0 y1 : Z),
    bounds body = Some b
    ∧ tileRange (topLeft b) (bottomRight b)
      = {| xMin := ofZ x0; xMax := ofZ x1; yMin := ofZ y0; yMax := ofZ y1 |}
    ∧ x0 ≤ x1 ∧ y0 ≤ y1 ∧ (x1 - x0 + 1) * (y1 - y0 + 1) ≤ 64
    ∧ fetched (POST fuel body) = tilesOf x0 x1 y0 y1
    ∧ NoDup (fetched (POST fuel body))
    ∧ ∀ p, p ∈ tilesOf x0 x1 y0 y1 → is_Some (fetchPng 12 p.1 p.2).
Proof.
  intros Hzip.
  destruct (bounds body) as [b|] eqn:Hb; [|by unfold POST in Hzip; rewrite Hb in Hzip].
  destruct (invalidConfig body) eqn:Hv;
    [by unfold POST in Hzip; rewrite Hb, Hv in Hzip|].
  set (g := tileRange (topLeft b) (bottomRight b)).
  destruct (ngtb (tileCountOf g) (ofZ 64)) eqn:Hgt.
  { unfold POST in Hzip. rewrite Hb, Hv in Hzip. cbv zeta in Hzip.
    change (lonLatToTile (west b) (north b) 12) with (topLeft b) in Hzip.
    change (lonLatToTile (east b) (south b) 12) with (bottomRight b) in Hzip.
    fold g in Hzip. by rewrite Hgt in Hzip. }
  assert (POST fuel body = stitchStage fuel body 12 (topLeft b) (bottomRight b) g)
    as HPOST by (by apply POST_stitchStage).
  rewrite HPOST in Hzip |- *.
  unfold stitchStage in Hzip |- *. cbv zeta in Hzip |- *.
  fold (stitchedWidth g) in Hzip |- *. fold (stitchedHeight g) in Hzip |- *.
  destruct (newFloat32Array (nmul (stitchedWidth g) (stitchedHeight g)))
    as [blank|] eqn:Hblank; [|done].
  destruct (stitchTiles fuel 12 g (stitchedWidth g)
              {| stitched := blank; requests := [] |}) as [st| |] eqn:Hst; try done.
  rewrite fetched_sampleStage.
  destruct (nleb (tileCountOf g) (ofZ 64)) eqn:Hle.
  - destruct (tileCount_le_64 _ _ Hle) as (x0 & x1 & y0 & y1 & Hg & Hx & Hy & Hcount & _).
    fold g in Hg.
    exists b, x0, x1, y0, y1.
    split; [done|]. split; [exact Hg|]. split; [done|]. split; [done|]. split; [done|].
    assert (x1 - x0 + 1 ≤ 64 ∧ y1 - y0 + 1 ≤ 64) as [Hx64 Hy64] by nia.
    apply (stitchTiles_done_mono fuel (Nat.max fuel 64)) in Hst; [|lia].
    rewrite Hg in Hst. rewrite stitchTiles_runList in Hst by lia.
    apply runList_stitch_done in Hst as [Hreq Hall]. cbn [requests app] in Hreq.
    fold (tilesOf x0 x1 y0 y1) in Hreq.
    split; [exact Hreq|]. split; [rewrite Hreq; apply NoDup_tilesOf|].
    intros p (q & -> & Hq)%list_elem_of_fmap. by apply Hall.
  - exfalso.
    pose proof (nan_count_empty_raster (topLeft b) (bottomRight b) blank Hgt Hle Hblank)
      as Hlen.
    pose proof (stitchTiles_length fuel 12 g (stitchedWidth g)
                  {| stitched := blank; requests := [] |}) as Hl.
    rewrite Hst in Hl. cbn [res_state stitched] in Hl.
    eapply sampleStage_empty_raster; [|exact Hzip]. congruence.
Qed.

End DownloadFacts.

Lemma download_complete_witness :
  ∃ (b : Bounds) (x0 x1 y0 y1 : Z),
    bounds (demoBody (ofZ 30)) = Some b
    ∧ fetched (@POST (demoPlatform rampTile) 256 (demoBody (ofZ 30)))
      = tilesOf x0 x1 y0 y1.
Proof.
  destruct (@download_complete (demoPlatform rampTile) 256 (demoBody (ofZ 30)) demoZip)
    as (b & x0 & x1 & y0 & y1 & Hb & _ & _ & _ & _ & Hf & _).
  - rewrite demo_export. reflexivity.
  - exists b, x0, x1, y0, y1. split; [exact Hb|exact Hf].
Defined.

(** ** Bounds without a longitude *)

Section NaNBounds.
Context `{Platform}.

Lemma runList_skip {A St : Type} (body : A → St → res St) (l : list A) (s : St) :
  (∀ a s, body a s = Done s) → runList body l s = Done s.
Proof.
  intros Hbody. induction l as [|a l IH]; simpl; [done|]. by rewrite Hbody.
Qed.

Lemma Math_min_max_NaN (u v : num) :
  u = NaN ∨ v = NaN → Math_min u v = NaN ∧ Math_max u v = NaN.
Proof. intros [-> | ->]; [by destruct v|by destruct u]. Qed.

Lemma lonLatToTile_NaN (lat : num) (z : Z) : pt_x (lonLatToTile NaN lat z) = NaN.
Proof. done. Qed.

(** With a [NaN] column range nothing is stitched: the rows are walked and
    no tile is asked for. *)
Lemma stitchTiles_NaN_columns fuel z (y0 y1 : Z) W st :
  (Z.to_nat (y1 - y0 + 1) ≤ fuel)%nat →
  stitchTiles fuel z {| xMin := NaN; xMax := NaN; yMin := ofZ y0; yMax := ofZ y1 |} W st
  = Done st.
Proof.
  intros Hfuel. unfold stitchTiles. cbn [xMin xMax yMin yMax].
  destruct (decide (y0 ≤ y1 + 1)) as [Hy|Hy].
  - rewrite forLoop_le_runList by lia. apply runList_skip.
    intros k s. by apply forLoop_exit.
  - apply forLoop_exit. rewrite nleb_ofZ. apply bool_decide_eq_false. lia.
Qed.

(** X21. Bounds whose west or east longitude is [NaN] (a field that is
    missing or not a number) pass the validation and the tile-count guard,
    since every comparison with [NaN] is false.  With finite tile rows and a
    grid of [n] points, no tile is requested, every sample is [NaN], and
    the answer is 502 "Elevation data invalid", not 400. *)
Theorem nan_longitude_late (fuel : nat) (body : Body) (b : Bounds) (y0 y1 n : Z) :
  bounds body = Some b → invalidConfig body = false →
  west b = NaN ∨ east b = NaN →
  yMin (tileRange (topLeft b) (bottomRight b)) = ofZ y0 →
  yMax (tileRange (topLeft b) (bottomRight b)) = ofZ y1 →
  grid body = ofZ n → n ≤ 65536 →
  (Z.to_nat n ≤ fuel)%nat → (Z.to_nat (y1 - y0 + 1) ≤ fuel)%nat →
  POST fuel body = {| fetched := []; response := Some ElevationInvalid |}.
Proof.
  intros Hb Hvalid Hnan Hy0 Hy1 Hgrid Hn Hfn Hfy.
  assert (64 ≤ n) as Hn64.
  { unfold invalidConfig in Hvalid. rewrite Hgrid in Hvalid.
    apply orb_false_iff in Hvalid as [_ Hg]. rewrite nltb_ofZ in Hg.
    apply bool_decide_eq_false in Hg. lia. }
  assert (pt_x (topLeft b) = NaN ∨ pt_x (bottomRight b) = NaN) as Hx.
  { unfold topLeft, bottomRight.
    destruct Hnan as [-> | ->]; [left|right]; apply lonLatToTile_NaN. }
  destruct (Math_min_max_NaN _ _ Hx) as [Emin Emax].
  assert (tileRange (topLeft b) (bottomRight b)
          = {| xMin := NaN; xMax := NaN; yMin := ofZ y0; yMax := ofZ y1 |}) as Hg.
  { rewrite <-Hy0, <-Hy1. unfold tileRange. cbn [yMin yMax]. by rewrite Emin, Emax. }
  assert (pxWest (pixelRect (topLeft b) (bottomRight b)
                    (tileRange (topLeft b) (bottomRight b))) = NaN) as Hwest.
  { unfold pixelRect. cbn [pxWest]. by rewrite Emin. }
  rewrite (POST_stitchStage fuel body b) by (done || by rewrite Hg).
  rewrite Hg in Hwest |- *.
  unfold stitchStage. cbv zeta. cbn [xMin xMax yMin yMax].
  change (nmul (nmul (nadd (nsub NaN NaN) (ofZ 1)) tileSize)
               (nmul (nadd (nsub (ofZ y1) (ofZ y0)) (ofZ 1)) tileSize)) with NaN.
  change (newFloat32Array NaN) with (Some {| ta_length := 0; ta_cells := ∅ |}).
  cbv iota beta.
  rewrite stitchTiles_NaN_columns by done.
  set (st := {| stitched := {| ta_length := 0; ta_cells := ∅ |}; requests := [] |}).
  set (g := {| xMin := NaN; xMax := NaN; yMin := ofZ y0; yMax := ofZ y1 |}) in *.
  set (W := nmul (nadd (nsub NaN NaN) (ofZ 1)) tileSize).
  set (H' := nmul (nadd (nsub (ofZ y1) (ofZ y0)) (ofZ 1)) tileSize).
  set (rect := pixelRect (topLeft b) (bottomRight b) g) in *.
  destruct (sampleGrid_run fuel (stitched st) W H' rect n
              {| values := {| ta_length := n * n; ta_cells := ∅ |};
                 minE := PInf; maxE := NInf |})
    as (s & Hrun & _ & _ & Hlo & _ & _ & Hmin & _); try done; try lia.
  rewrite (sampleStage_checked fuel body (topLeft b) (bottomRight b) g W H' st s
             {| ta_length := n * n; ta_cells := ∅ |}).
  - assert (minE s = PInf) as ->; [|done].
    destruct Hmin as [?|(i & j & _ & _ & _ & E)]; [done|]. exfalso. apply Hlo.
    rewrite E. unfold sampleAt.
    rewrite nearestSample_NaN; [done|]. left. unfold sampleX. by rewrite Hwest.
  - rewrite Hgrid, nmul_ofZ. apply newFloat32Array_ofZ. nia.
  - rewrite Hgrid. exact Hrun.
Qed.

End NaNBounds.

Lemma nan_longitude_late_witness :
  @POST (demoPlatform rampTile) 256
    (demoBodyAt {| west := NaN; south := ratio (-45) 2048;
                   east := ratio 45 1024; north := ofZ 0 |} (ofZ 30))
  = {| fetched := []; response := Some ElevationInvalid |}.
Proof.
  apply (@nan_longitude_late (demoPlatform rampTile) 256
           (demoBodyAt {| west := NaN; south := ratio (-45) 2048;
                          east := ratio 45 1024; north := ofZ 0 |} (ofZ 30))
           {| west := NaN; south := ratio (-45) 2048;
              east := ratio 45 1024; north := ofZ 0 |}
           2048 2048 64).
  - reflexivity.
  - vm_compute. reflexivity.
  - left. reflexivity.
  - vm_compute. reflexivity.
  - vm_compute. reflexivity.
  - reflexivity.
  - lia.
  - lia.
  - lia.
Defined.

(** ** The threshold plan as a set of multiples *)

Section MultipleFacts.
Local Open Scope Qc_scope.

Lemma Qc_div_lt (m i q : Qc) : 0 < i → (m / i < q ↔ m < q * i).
Proof.
  intros Hi. rewrite (Qcmult_lt_mono_pos_r (m / i) q i Hi).
  rewrite Qcdiv_mult_cancel by (by apply not_symmetry, Qclt_not_eq). done.
Qed.

Lemma Qc_lt_div (m i q : Qc) : 0 < i → (q < m / i ↔ q * i < m).
Proof.
  intros Hi. rewrite (Qcmult_lt_mono_pos_r q (m / i) i Hi).
  rewrite Qcdiv_mult_cancel by (by apply not_symmetry, Qclt_not_eq). done.
Qed.

(** A multiple [k i] of a positive interval lies above [m] exactly when [k]
    is above [floor (m / i)]. *)
Lemma multiple_above (m i : Qc) (k : Z) :
  0 < i → (m < Qc_of_Z k * i ↔ (Qfloor (m / i)%Qc < k)%Z).
Proof.
  intros Hi. rewrite <-Qc_div_lt by done. split.
  - apply Qc_floor_ub.
  - intros Hk. eapply Qclt_le_trans; [apply Qc_lt_floor|].
    apply (proj1 (Z2Qc_inj_le _ _)). lia.
Qed.

(** It lies less than one interval above [M] exactly when [k] is at most
    [ceil (M / i)]. *)
Lemma multiple_below (M i : Qc) (k : Z) :
  0 < i → (Qc_of_Z k * i < M + i ↔ (k ≤ Qceiling (M / i)%Qc)%Z).
Proof.
  intros Hi.
  assert (Qc_of_Z k * i < M + i ↔ Qc_of_Z (k - 1) * i < M) as ->.
  { rewrite Z2Qc_inj_sub, Z2Qc_inj_1.
    rewrite (Qcplus_lt_mono_r ((Qc_of_Z k - 1) * i) M i).
    by replace ((Qc_of_Z k - 1) * i + i) with (Qc_of_Z k * i) by ring. }
  rewrite <-Qc_lt_div by done. split.
  - intros Hk%Qc_ceiling_lb. lia.
  - intros Hk. eapply Qcle_lt_trans; [|apply Qc_ceiling_lt].
    apply (proj1 (Z2Qc_inj_le _ _)). lia.
Qed.

(** X22. For elevations a Terrarium tile can encode and a whole interval
    from 1 to 65536, where no step of the plan rounds, the planned
    thresholds are exactly the multiples of the interval that lie above the
    minimum and less than one interval above the maximum, in ascending order
    and each once. *)
Theorem thresholds_are_multiples (fuel : nat) (m M i : Qc) :
  terrariumLevel m → terrariumLevel M → wholeInterval i →
  (thresholdCount m M i ≤ fuel)%nat →
  ∃ ts : list num,
    planThresholds fuel (Fin m) (Fin M) (Fin i) = Done ts
    ∧ length ts = thresholdCount m M i
    ∧ (∀ t : num,
         t ∈ ts ↔ ∃ k : Z, t = Fin (Qc_of_Z k * i) ∧ m < Qc_of_Z k * i
                          ∧ Qc_of_Z k * i < M + i)
    ∧ ascending ts.
Proof.
  intros Hm HM Hw Hfuel. pose proof (wholeInterval_pos i Hw) as Hi.
  assert (i ≠ 0) as Hi0 by (by apply not_symmetry, Qclt_not_eq).
  eexists. split; [by apply planThresholds_exact|].
  rewrite thresholdsFormula_Fin by done.
  split; [by rewrite length_fmap, length_seq|]. split.
  - intros t. rewrite list_elem_of_fmap. unfold thresholdCount. split.
    + intros (j & -> & Hj%elem_of_seq). eexists. split; [reflexivity|].
      rewrite multiple_above, multiple_below by done. lia.
    + intros (k & -> & Hlo & Hhi).
      rewrite multiple_above in Hlo by done. rewrite multiple_below in Hhi by done.
      exists (Z.to_nat (k - Qfloor (m / i)%Qc - 1)). split.
      * do 3 f_equal. lia.
      * apply elem_of_seq. lia.
  - intros a b ta tb Hab Ha Hb.
    rewrite list_lookup_fmap in Ha, Hb.
    destruct (seq 0 (thresholdCount m M i) !! a) as [ja|] eqn:Eja; [|done].
    destruct (seq 0 (thresholdCount m M i) !! b) as [jb|] eqn:Ejb; [|done].
    apply lookup_seq in Eja as [-> _]. apply lookup_seq in Ejb as [-> _].
    simpl in Ha, Hb. injection Ha as <-. injection Hb as <-.
    apply nltb_Fin. apply Qcmult_lt_mono_pos_r; [done|].
    apply (proj1 (Z2Qc_inj_lt _ _)). lia.
Qed.

End MultipleFacts.

Lemma thresholds_are_multiples_witness :
  ∃ ts : list num,
    planThresholds 6 (ofZ 105) (ofZ 242) (ofZ 30) = Done ts ∧ length ts = 6%nat.
Proof.
  destruct (thresholds_are_multiples 6 (Qc_of_Z 105) (Qc_of_Z 242) (Qc_of_Z 30))
    as (ts & Hrun & Hlen & _).
  - exists 26880. split; [vm_compute; discriminate|]. apply Qc_is_canon. reflexivity.
  - exists 61952. split; [vm_compute; discriminate|]. apply Qc_is_canon. reflexivity.
  - exists 30. split; [lia|reflexivity].
  - vm_compute. lia.
  - exists ts. split; [exact Hrun|exact Hlen].
Defined.

(** ** The layer documents of a download *)

Section DocumentFacts.
Context `{Platform}.
Local Opaque layerName.



End DocumentFacts.


(** ** From the tiles to the elevation grid *)

Section GridFacts.
Context `{Platform}.
Local Open Scope Qc_scope.

Lemma axis_finite (u v : num) (x0 x1 : Z) :
  Math_floor (Math_min u v) = ofZ x0 → Math_floor (Math_max u v) = ofZ x1 →
  ∃ a c : Qc, u = Fin a ∧ v = Fin c.
Proof.
  destruct u as [| | |a], v as [| | |c];
    try (intros _ _; by exists a, c); simpl; intros E0 E1; discriminate.
Qed.

Lemma tileRange_finite (tl br : Point) (x0 x1 y0 y1 : Z) :
  tileRange tl br
  = {| xMin := ofZ x0; xMax := ofZ x1; yMin := ofZ y0; yMax := ofZ y1 |} →
  ∃ a b c d : Qc,
    tl = {| pt_x := Fin a; pt_y := Fin b |} ∧ br = {| pt_x := Fin c; pt_y := Fin d |}.
Proof.
  intros Hg.
  pose proof (f_equal xMin Hg) as Hx0. pose proof (f_equal xMax Hg) as Hx1.
  pose proof (f_equal yMin Hg) as Hy0. pose proof (f_equal yMax Hg) as Hy1.
  cbn [xMin xMax yMin yMax tileRange] in Hx0, Hx1, Hy0, Hy1.
  destruct (axis_finite _ _ _ _ Hx0 Hx1) as (a & c & Ha & Hc).
  destruct (axis_finite _ _ _ _ Hy0 Hy1) as (b & d & Hb' & Hd).
  exists a, b, c, d. destruct tl as [tx ty], br as [bx byy].
  cbn [pt_x pt_y] in Ha, Hc, Hb', Hd. by subst.
Qed.

Lemma round_nonneg (x : Qc) : 0 ≤ x → (0 ≤ Qfloor (x + Q2Qc (1 # 2))%Qc)%Z.
Proof. intros Hx. apply Qc_floor_lb. qc_lra. Qed.

(** The cell of the raster that [nearestSample] reads for a sample point on
    the raster. *)
Lemma nearestSample_on_raster (src : Float32Array) (w h : Z) (sx sy : Qc) :
  (1 ≤ w)%Z → (1 ≤ h)%Z → 0 ≤ sx → 0 ≤ sy →
  let gx := Z.min (w - 1) (Qfloor (sx + Q2Qc (1 # 2))%Qc) in
  let gy := Z.min (h - 1) (Qfloor (sy + Q2Qc (1 # 2))%Qc) in
  (0 ≤ gx < w)%Z ∧ (0 ≤ gy < h)%Z
  ∧ nearestSample src (ofZ w) (ofZ h) (Fin sx) (Fin sy)
    = ta_get src (ofZ (gy * w + gx)).
Proof.
  intros Hw Hh Hsx Hsy gx gy.
  pose proof (round_nonneg sx Hsx). pose proof (round_nonneg sy Hsy).
  split; [subst gx; lia|]. split; [subst gy; lia|].
  unfold nearestSample. rewrite !nearest_index, nmul_ofZ, nadd_ofZ.
  subst gx gy. by rewrite !Z.max_r by lia.
Qed.

(** X24. From the tiles to the grid.  When every tile of the range can be
    fetched, stitching and resampling complete, and the value of the grid
    at column [i], row [j] is the elevation of one pixel of the stitched
    tiles: the sample point [(sx, sy)] lies on the raster
    ([0 <= sx < W], [0 <= sy < H]) and the value is the decoded pixel at
    column [min (W - 1) (round sx)], row [min (H - 1) (round sy)] of the
    mosaic, that is, of the tile that holds it. *)
Theorem elevation_grid (fuel : nat) (body : Body) (b : Bounds) (x0 x1 y0 y1 n : Z) :
  bounds body = Some b → invalidConfig body = false →
  tileRange (topLeft b) (bottomRight b)
  = {| xMin := ofZ x0; xMax := ofZ x1; yMin := ofZ y0; yMax := ofZ y1 |} →
  (x0 ≤ x1)%Z → (y0 ≤ y1)%Z → ((x1 - x0 + 1) * (y1 - y0 + 1) ≤ 64)%Z →
  (256 ≤ fuel)%nat →
  (∀ p, p ∈ tilesOf x0 x1 y0 y1 → is_Some (fetchPng 12 p.1 p.2)) →
  grid body = ofZ n → (n ≤ 65536)%Z → (Z.to_nat n ≤ fuel)%nat →
  let g := tileRange (topLeft b) (bottomRight b) in
  let rect := pixelRect (topLeft b) (bottomRight b) g in
  let w := ((x1 - x0 + 1) * 256)%Z in
  let h := ((y1 - y0 + 1) * 256)%Z in
  ∃ (st : Stitching) (s : Sampling),
    stitchedOk fuel body b st ∧ sampledOk fuel body b st s
    ∧ ∀ i j : Z, (0 ≤ i < n)%Z → (0 ≤ j < n)%Z →
        ∃ (sx sy : Qc) (gx gy : Z),
          sampleX rect (ofZ n) (ofZ i) = Fin sx
          ∧ sampleY rect (ofZ n) (ofZ j) = Fin sy
          ∧ 0 ≤ sx ∧ sx < Qc_of_Z w ∧ 0 ≤ sy ∧ sy < Qc_of_Z h
          ∧ gx = Z.min (w - 1) (Qfloor (sx + Q2Qc (1 # 2))%Qc)
          ∧ gy = Z.min (h - 1) (Qfloor (sy + Q2Qc (1 # 2))%Qc)
          ∧ (0 ≤ gx < w)%Z ∧ (0 ≤ gy < h)%Z
          ∧ is_Some (mosaic 12 x0 y0 gx gy)
          ∧ ta_get (values s) (ofZ (j * n + i)%Z) = mosaic 12 x0 y0 gx gy.
Proof.
  intros Hb Hvalid Hg Hx Hy Hcount Hfuel Hfetch Hgrid Hn Hfn g rect w h.
  assert (64 ≤ n)%Z as Hn64.
  { unfold invalidConfig in Hvalid. rewrite Hgrid in Hvalid.
    apply orb_false_iff in Hvalid as [_ Hv]. rewrite nltb_ofZ in Hv.
    apply bool_decide_eq_false in Hv. lia. }
  destruct (stitch_complete fuel body b x0 x1 y0 y1 Hb Hvalid Hg Hx Hy Hcount
              Hfuel Hfetch) as (st & Hok & _ & _ & Hlen & Hcells).
  fold w h in Hlen, Hcells.
  destruct (intRange_setup x0 x1 y0 y1 Hx Hy Hcount) as (_ & Hw & Hh & _).
  cbv zeta in Hw, Hh. fold w in Hw. fold h in Hh.
  assert (stitchedWidth g = ofZ w) as HW by (subst g; by rewrite Hg).
  assert (stitchedHeight g = ofZ h) as HH by (subst g; by rewrite Hg).
  destruct (tileRange_finite _ _ _ _ _ _ Hg) as (a & b' & c & d & Htl & Hbr).
  destruct (pixelRect_on_raster _ _ a b' c d Htl Hbr)
    as (x0' & x1' & y0' & y1' & pw & pe & pn & ps & Hg' & Hrect & _ & _
        & Hpw0 & _ & Hpwe & _ & Hpe & Hpn0 & _ & Hpns & _ & Hps).
  rewrite Hg in Hg'.
  pose proof (f_equal xMin Hg') as E1. pose proof (f_equal xMax Hg') as E2.
  pose proof (f_equal yMin Hg') as E3. pose proof (f_equal yMax Hg') as E4.
  cbn [xMin xMax yMin yMax] in E1, E2, E3, E4.
  apply ofZ_inj in E1, E2, E3, E4. subst x0' x1' y0' y1'.
  fold g in Hrect. fold rect in Hrect. fold w in Hpe. fold h in Hps.
  destruct (sampleGrid_run fuel (stitched st) (ofZ w) (ofZ h) rect n
              {| values := {| ta_length := n * n; ta_cells := ∅ |};
                 minE := PInf; maxE := NInf |})
    as (s & Hrun & _ & Hvals & _); try done; try lia.
  exists st, s. split; [exact Hok|]. split.
  - exists {| ta_length := n * n; ta_cells := ∅ |}. split.
    + rewrite Hgrid, nmul_ofZ. apply newFloat32Array_ofZ. nia.
    + fold g. rewrite HW, HH, Hgrid. exact Hrun.
  - intros i j Hi Hj.
    destruct (sample_between rect n pw pe pn ps ltac:(lia) Hrect Hpwe Hpns)
      as (_ & _ & _ & _ & Hspan).
    destruct (Hspan i ltac:(lia)) as (sx & _ & Hsx & Hsx0 & Hsx1 & _).
    destruct (Hspan j ltac:(lia)) as (_ & sy & _ & _ & _ & Hsy & Hsy0 & Hsy1).
    pose proof (Qcle_trans _ _ _ Hpw0 Hsx0) as Hsx_nonneg.
    pose proof (Qcle_trans _ _ _ Hpn0 Hsy0) as Hsy_nonneg.
    destruct (nearestSample_on_raster (stitched st) w h sx sy)
      as (Hgx & Hgy & Hnear); try done; try (subst w h; lia).
    cbv zeta in Hgx, Hgy, Hnear.
    destruct (Hcells _ _ Hgx Hgy) as [Hcell Hsome].
    eexists sx, sy, _, _.
    split; [exact Hsx|]. split; [exact Hsy|].
    split; [exact Hsx_nonneg|]. split; [exact (Qcle_lt_trans _ _ _ Hsx1 Hpe)|].
    split; [exact Hsy_nonneg|]. split; [exact (Qcle_lt_trans _ _ _ Hsy1 Hps)|].
    split; [reflexivity|]. split; [reflexivity|].
    split; [exact Hgx|]. split; [exact Hgy|]. split; [exact Hsome|].
    rewrite Hvals by done. unfold sampleAt. rewrite Hsx, Hsy, Hnear, Hcell.
    destruct Hsome as [v ->]. done.
Qed.

End GridFacts.

Lemma elevation_grid_witness :
  ∃ (st : Stitching) (s : Sampling),
    @stitchedOk (demoPlatform rampTile) 256 (demoBody (ofZ 30)) demoBounds st
    ∧ @sampledOk (demoPlatform rampTile) 256 (demoBody (ofZ 30)) demoBounds st s.
Proof.
  destruct (@elevation_grid (demoPlatform rampTile) 256 (demoBody (ofZ 30))
              demoBounds 2048 2048 2048 2048 64)
    as (st & s & Hok & Hs & _).
  - reflexivity.
  - vm_compute. reflexivity.
  - vm_compute. reflexivity.
  - lia.
  - lia.
  - lia.
  - lia.
  - intros p Hp. apply list_elem_of_singleton in Hp. subst p. eexists. reflexivity.
  - reflexivity.
  - lia.
  - lia.
  - exists st, s. split; [exact Hok|exact Hs].
Defined.

(** ** Requests that come from the page *)

Section PageFacts.
Context `{Platform}.
Local Open Scope Qc_scope.

Lemma jsonNumber_finite (v d : num) :
  isFinite d = true → isFinite (numberOr (jsonNumber v) d) = true.
Proof. intros Hd. unfold jsonNumber. by destruct v. Qed.

Lemma operand_finite (v : num) : isFinite (operand (jsonNumber v)) = true.
Proof. by destruct v. Qed.

Lemma positive_of_not_le (v : num) :
  isFinite v = true → nleb v (ofZ 0) = false → ∃ q : Qc, v = Fin q ∧ 0 < q.
Proof.
  destruct v as [| | |q]; try done. intros _ Hq%nleb_Fin_false.
  exists q. split; [done|]. by rewrite Z2Qc_inj_0 in Hq.
Qed.

(** X25. What reaches the route from the page.  The page sends a request
    only when it has bounds, and a number that is [NaN] or infinite does not
    survive [JSON.stringify]: a setting arrives as the route's default (20,
    12, 30 or 256) and a coordinate as 0.  So every number of the body is
    finite, and a page request that is not answered 400 "Bad request" has a
    positive width, height and interval and a grid of at least 64. *)
Theorem page_request (fuel : nat) (b : Bounds) (pageWidth pageHeight pageInterval pageGrid : num) :
  exportTopo None pageWidth pageHeight pageInterval pageGrid = None
  ∧ ∃ (body : Body) (sent : Bounds),
      exportTopo (Some b) pageWidth pageHeight pageInterval pageGrid = Some body
      ∧ bounds body = Some sent
      ∧ isFinite (west sent) = true ∧ isFinite (south sent) = true
      ∧ isFinite (east sent) = true ∧ isFinite (north sent) = true
      ∧ isFinite (widthIn body) = true ∧ isFinite (heightIn body) = true
      ∧ isFinite (intervalM body) = true ∧ isFinite (grid body) = true
      ∧ intervalM body = (if isFinite pageInterval then pageInterval else ofZ 30)
      ∧ (response (POST fuel body) ≠ Some BadRequest →
         ∃ w h i n : Qc,
           widthIn body = Fin w ∧ heightIn body = Fin h
           ∧ intervalM body = Fin i ∧ grid body = Fin n
           ∧ 0 < w ∧ 0 < h ∧ 0 < i ∧ Qc_of_Z 64 ≤ n).
Proof.
  split; [done|]. eexists _, _. split; [reflexivity|]. split; [reflexivity|].
  cbn [west south east north widthIn heightIn intervalM grid].
  rewrite !operand_finite, !jsonNumber_finite by done.
  repeat (split; [done|]). split.
  - unfold jsonNumber, numberOr. by destruct pageInterval.
  - intros Hok.
    set (body := Build_Body _ _ _ _ _ _ _ _) in *.
    pose proof (proj1 (bad_request_cases fuel body)) as Hbad.
    assert (nleb (widthIn body) (ofZ 0) = false ∧ nleb (heightIn body) (ofZ 0) = false
            ∧ nleb (intervalM body) (ofZ 0) = false ∧ nltb (grid body) (ofZ 64) = false)
      as (Hw & Hh & Hi & Hn).
    { repeat split; apply not_true_is_false; intros E; apply Hok, Hbad; tauto. }
    destruct (positive_of_not_le (widthIn body)) as (w & Ew & Hwpos);
      [by apply jsonNumber_finite|done|].
    destruct (positive_of_not_le (heightIn body)) as (h & Eh & Hhpos);
      [by apply jsonNumber_finite|done|].
    destruct (positive_of_not_le (intervalM body)) as (i & Ei & Hipos);
      [by apply jsonNumber_finite|done|].
    destruct (isFinite_Fin (grid body)) as (n & En); [by apply jsonNumber_finite|].
    exists w, h, i, n. repeat split; try done.
    rewrite En in Hn. by apply nltb_Fin_false in Hn.
Qed.

End PageFacts.

(** ** The manifest and the sampled range *)

Section ManifestFacts.
Context `{Platform}.

(** A download has passed every stage: the raster was stitched, the grid
    sampled, the range accepted, and the answer is that of the layer
    stage. *)
Lemma POST_zip_stages fuel body z :
  response (POST fuel body) = Some (ZipDownload z) →
  ∃ (b : Bounds) (st : Stitching) (s : Sampling),
    stitchedOk fuel body b st ∧ sampledOk fuel body b st s
    ∧ degenerate (minE s) (maxE s) = false
    ∧ POST fuel body = layerStage fuel body (requests st) s.
Proof.
  intros Hzip.
  destruct (bounds body) as [b|] eqn:Hb; [|by unfold POST in Hzip; rewrite Hb in Hzip].
  destruct (invalidConfig body) eqn:Hv;
    [by unfold POST in Hzip; rewrite Hb, Hv in Hzip|].
  set (g := tileRange (topLeft b) (bottomRight b)).
  destruct (ngtb (tileCountOf g) (ofZ 64)) eqn:Hgt.
  { unfold POST in Hzip. rewrite Hb, Hv in Hzip. cbv zeta in Hzip.
    change (lonLatToTile (west b) (north b) 12) with (topLeft b) in Hzip.
    change (lonLatToTile (east b) (south b) 12) with (bottomRight b) in Hzip.
    fold g in Hzip. by rewrite Hgt in Hzip. }
  assert (POST fuel body = stitchStage fuel body 12 (topLeft b) (bottomRight b) g)
    as HPOST by (by apply POST_stitchStage).
  rewrite HPOST in Hzip |- *.
  unfold stitchStage in Hzip |- *. cbv zeta in Hzip |- *.
  fold (stitchedWidth g) in Hzip |- *. fold (stitchedHeight g) in Hzip |- *.
  destruct (newFloat32Array (nmul (stitchedWidth g) (stitchedHeight g)))
    as [blank|] eqn:Hblank; [|done].
  destruct (stitchTiles fuel 12 g (stitchedWidth g)
              {| stitched := blank; requests := [] |}) as [st| |] eqn:Hst; try done.
  unfold sampleStage in Hzip |- *. cbv zeta in Hzip |- *.
  destruct (newFloat32Array (nmul (grid body) (grid body))) as [blank'|] eqn:Hblank';
    [|done].
  destruct (sampleGrid fuel (stitched st) (stitchedWidth g) (stitchedHeight g)
              (pixelRect (topLeft b) (bottomRight b) g) (grid body)
              {| values := blank'; minE := PInf; maxE := NInf |})
    as [s| |] eqn:Hs; try done.
  destruct (degenerate (minE s) (maxE s)) eqn:Hdeg; [done|].
  exists b, st, s. split; [|split; [|done]].
  - split; [done|]. split; [done|]. split; [exact Hgt|]. by exists blank.
  - by exists blank'.
Qed.

(** X26. The manifest of a download reports the range of the sampled grid:
    its minimum and maximum elevation are the [minE] and [maxE] the
    resampling loop ended with, two finite numbers with the minimum below
    the maximum, and its interval and grid are those of the request. *)
Theorem manifest_range (fuel : nat) (body : Body) (z : Zip) (m : Readme) (name : string) :
  response (POST fuel body) = Some (ZipDownload z) →
  (name, ReadmeFile m) ∈ z →
  name = "README.txt"%string
  ∧ readme_interval m = intervalM body ∧ readme_grid m = grid body
  ∧ ∃ (b : Bounds) (st : Stitching) (s : Sampling) (lo hi : Qc),
      stitchedOk fuel body b st ∧ sampledOk fuel body b st s
      ∧ readme_min m = minE s ∧ readme_max m = maxE s
      ∧ minE s = Fin lo ∧ maxE s = Fin hi ∧ (lo < hi)%Qc.
Proof.
  intros Hzip Hin.
  destruct (POST_zip_stages fuel body z Hzip) as (b & st & s & Hok & Hs & Hdeg & HPOST).
  rewrite HPOST in Hzip.
  apply layerStage_zip_inv in Hzip as (ts & fs & _ & _ & _ & ->).
  apply degenerate_false_iff in Hdeg as (lo & hi & Hlo & Hhi & Hlt).
  apply elem_of_zip_file in Hin as [Hin|Hin].
  - pose proof (f_equal fst Hin) as Hname. pose proof (f_equal snd Hin) as Hm.
    cbn [fst snd] in Hname, Hm. injection Hm as ->.
    split; [done|]. split; [done|]. split; [done|].
    by exists b, st, s, lo, hi.
  - exfalso. unfold layersOf in Hin.
    apply writeLayers_entries in Hin as [Hnil|(k & f & d & _ & _ & _ & E)].
    + by apply elem_of_nil in Hnil.
    + pose proof (f_equal snd E) as Hm. cbn [snd] in Hm. discriminate.
Qed.

(** X27. A grid that is [NaN] (a setting that is not a number) passes
    the validation, since [NaN < 64] is false.  The tiles are fetched and
    stitched, the sample grid is empty, no sample is taken, and the answer
    is 502 "Elevation data invalid". *)
Theorem nan_grid_late (fuel : nat) (body : Body) (b : Bounds) (st : Stitching) :
  stitchedOk fuel body b st → grid body = NaN →
  nltb (grid body) (ofZ 64) = false
  ∧ POST fuel body = {| fetched := requests st; response := Some ElevationInvalid |}.
Proof.
  intros Hok Hgrid. split; [by rewrite Hgrid|].
  rewrite (POST_sampleStage fuel body b st Hok). cbv zeta.
  unfold sampleStage. rewrite Hgrid. cbv zeta.
  change (newFloat32Array (nmul NaN NaN)) with (Some {| ta_length := 0; ta_cells := ∅ |}).
  cbv iota beta. unfold sampleGrid.
  rewrite forLoop_exit by done. done.
Qed.

End ManifestFacts.

Lemma manifest_range_witness :
  readme_interval (demoReadme (ofZ 30) 4) = ofZ 30
  ∧ readme_grid (demoReadme (ofZ 30) 4) = ofZ 64.
Proof.
  destruct (@manifest_range (demoPlatform rampTile) 256 (demoBody (ofZ 30)) demoZip
              (demoReadme (ofZ 30) 4) "README.txt"%string) as (_ & Hi & Hg & _).
  - rewrite demo_export. reflexivity.
  - do 4 apply list_elem_of_further. apply list_elem_of_here.
  - split; [exact Hi|exact Hg].
Defined.

Lemma nan_grid_late_witness :
  ∃ st : Stitching,
    @POST (demoPlatform rampTile) 256
      {| bounds := Some demoBounds; widthIn := ofZ 20; heightIn := ofZ 12;
         intervalM := ofZ 30; grid := NaN; addAlignmentHoles := true;
         holeDiameterIn := ratio 1 8; holeInsetIn := ratio 7 20 |}
    = {| fetched := requests st; response := Some ElevationInvalid |}
    ∧ requests st = tilesOf 2048 2048 2048 2048.
Proof.
  destruct (@stitch_complete (demoPlatform rampTile) 256
              {| bounds := Some demoBounds; widthIn := ofZ 20; heightIn := ofZ 12;
                 intervalM := ofZ 30; grid := NaN; addAlignmentHoles := true;
                 holeDiameterIn := ratio 1 8; holeInsetIn := ratio 7 20 |}
              demoBounds 2048 2048 2048 2048)
    as (st & Hok & Hreq & _).
  - reflexivity.
  - vm_compute. reflexivity.
  - vm_compute. reflexivity.
  - lia.
  - lia.
  - lia.
  - lia.
  - intros p Hp. apply list_elem_of_singleton in Hp. subst p. eexists. reflexivity.
  - exists st. split; [|exact Hreq].
    exact (proj2 (@nan_grid_late (demoPlatform rampTile) 256 _ demoBounds st Hok eq_refl)).
Defined.

(** ** C9: numbering of the layer files *)

Section NumberingFacts.
Context `{Platform}.
Local Opaque layerName.









End NumberingFacts.


